(** * local-s3: request signature verification and filesystem object store

    A shallow embedding of [internal/auth/auth.go] and
    [internal/storage/storage.go], with the parts of the Go standard
    library they call, and the properties of the specification proved (or
    refuted) on it.

    Go [string] values are byte sequences and are modelled by [string];
    [[]byte] values are modelled by [list byte]; Go maps are [gmap]s. *)

From Stdlib Require Import ZArith List Strings.String Strings.Ascii Strings.Byte
  DecimalString HexadecimalString Lia.
From stdpp Require Import gmap strings list sorting.

Local Open Scope string_scope.
Local Open Scope list_scope.
Local Open Scope Z_scope.

(** ** Bytes and strings *)

Definition bytes := list byte.

Definition Z_of_byte (b : byte) : Z := Z.of_N (Byte.to_N b).

Definition byte_of_Z (z : Z) : byte :=
  byte_of_ascii (ascii_of_N (Z.to_N (z mod 256))).

(** The conversions [[]byte(s)] and [string(b)]. *)
Definition bytes_of_string (s : string) : bytes := list_byte_of_string s.
Definition string_of_bytes (b : bytes) : string := string_of_list_byte b.

(** ** crypto/sha256 (FIPS 180-4) *)

Module SHA256.

Definition w32 (x : Z) : Z := x mod 2 ^ 32.
Definition add32 (x y : Z) : Z := w32 (x + y).
Definition rotr (n x : Z) : Z :=
  Z.lor (Z.shiftr x n) (w32 (Z.shiftl x (32 - n))).
Definition not32 (x : Z) : Z := 2 ^ 32 - 1 - x.

Definition Ch (x y z : Z) : Z := Z.lxor (Z.land x y) (Z.land (not32 x) z).
Definition Maj (x y z : Z) : Z :=
  Z.lxor (Z.lxor (Z.land x y) (Z.land x z)) (Z.land y z).
Definition bigsigma0 (x : Z) : Z :=
  Z.lxor (Z.lxor (rotr 2 x) (rotr 13 x)) (rotr 22 x).
Definition bigsigma1 (x : Z) : Z :=
  Z.lxor (Z.lxor (rotr 6 x) (rotr 11 x)) (rotr 25 x).
Definition smallsigma0 (x : Z) : Z :=
  Z.lxor (Z.lxor (rotr 7 x) (rotr 18 x)) (Z.shiftr x 3).
Definition smallsigma1 (x : Z) : Z :=
  Z.lxor (Z.lxor (rotr 17 x) (rotr 19 x)) (Z.shiftr x 10).

(** The round constants are the first 32 bits of the fractional parts of
    the cube roots of the first 64 primes, the initial hash value those of
    the square roots of the first 8 primes. *)
Definition primes64 : list Z :=
  [2; 3; 5; 7; 11; 13; 17; 19; 23; 29; 31; 37; 41; 43; 47; 53;
   59; 61; 67; 71; 73; 79; 83; 89; 97; 101; 103; 107; 109; 113; 127; 131;
   137; 139; 149; 151; 157; 163; 167; 173; 179; 181; 191; 193; 197; 199;
   211; 223; 227; 229; 233; 239; 241; 251; 257; 263; 269; 271; 277; 281;
   283; 293; 307; 311].

Definition cbrt_step (n : Z) (r : Z) (bit : nat) : Z :=
  let c := r + 2 ^ Z.of_nat bit in
  if c * c * c <=? n then c else r.

(** Integer cube root of [n < 2 ^ 132], one bit at a time. *)
Definition cbrt (n : Z) : Z := fold_left (cbrt_step n) (rev (seq 0 44)) 0.

Definition K : list Z :=
  Eval vm_compute in map (fun p => w32 (cbrt (p * 2 ^ 96))) primes64.

Definition H0 : list Z :=
  Eval vm_compute in
    map (fun p => w32 (Z.sqrt (p * 2 ^ 64))) (firstn 8 primes64).

(** Message schedule, most recent word first: [ws] holds
    [W(t-1); W(t-2); ...]. *)
Definition next_w (ws : list Z) : Z :=
  add32 (add32 (add32 (smallsigma1 (nth 1 ws 0)) (nth 6 ws 0))
               (smallsigma0 (nth 14 ws 0)))
        (nth 15 ws 0).

Fixpoint extend (n : nat) (ws : list Z) : list Z :=
  match n with
  | O => ws
  | S n' => extend n' (next_w ws :: ws)
  end.

Definition schedule (block : list Z) : list Z := rev (extend 48 (rev block)).

Record regs := Regs { ra : Z; rb : Z; rc : Z; rd : Z;
                      re : Z; rf : Z; rg : Z; rh : Z }.

Definition round (s : regs) (kw : Z * Z) : regs :=
  let t1 := add32 (add32 (add32 (add32 (rh s) (bigsigma1 (re s)))
                                (Ch (re s) (rf s) (rg s)))
                         (fst kw)) (snd kw) in
  let t2 := add32 (bigsigma0 (ra s)) (Maj (ra s) (rb s) (rc s)) in
  Regs (add32 t1 t2) (ra s) (rb s) (rc s) (add32 (rd s) t1) (re s) (rf s) (rg s).

Definition regs_of_list (h : list Z) : regs :=
  Regs (nth 0 h 0) (nth 1 h 0) (nth 2 h 0) (nth 3 h 0)
       (nth 4 h 0) (nth 5 h 0) (nth 6 h 0) (nth 7 h 0).

Definition list_of_regs (s : regs) : list Z :=
  [ra s; rb s; rc s; rd s; re s; rf s; rg s; rh s].

Definition compress (h : list Z) (block : list Z) : list Z :=
  let s := fold_left round (combine K (schedule block)) (regs_of_list h) in
  list_of_regs
    (Regs (add32 (nth 0 h 0) (ra s)) (add32 (nth 1 h 0) (rb s))
          (add32 (nth 2 h 0) (rc s)) (add32 (nth 3 h 0) (rd s))
          (add32 (nth 4 h 0) (re s)) (add32 (nth 5 h 0) (rf s))
          (add32 (nth 6 h 0) (rg s)) (add32 (nth 7 h 0) (rh s))).

(** Big-endian encodings. *)
Fixpoint be_bytes (n : nat) (x : Z) : list Z :=
  match n with
  | O => []
  | S n' => (Z.shiftr x (8 * Z.of_nat n')) mod 256 :: be_bytes n' x
  end.

Definition be_word (bs : list Z) : Z :=
  fold_left (fun acc b => acc * 256 + b) bs 0.

Definition pad (msg : list Z) : list Z :=
  let len := Z.of_nat (length msg) in
  let k := (55 - len) mod 64 in
  msg ++ [128] ++ repeat 0 (Z.to_nat k) ++ be_bytes 8 (8 * len).

Fixpoint words (n : nat) (bs : list Z) : list Z :=
  match n with
  | O => []
  | S n' => be_word (firstn 4 bs) :: words n' (skipn 4 bs)
  end.

Fixpoint blocks (n : nat) (bs : list Z) : list (list Z) :=
  match n with
  | O => []
  | S n' => words 16 (firstn 64 bs) :: blocks n' (skipn 64 bs)
  end.

Definition digest_words (msg : list Z) : list Z :=
  let p := pad msg in
  fold_left compress (blocks (length p / 64) p) H0.

(** [sha256.Sum256]: the 32-byte digest. *)
Definition Sum256 (msg : bytes) : bytes :=
  map byte_of_Z (flat_map (be_bytes 4) (digest_words (map Z_of_byte msg))).

End SHA256.

(** ** crypto/hmac with SHA-256 (RFC 2104) *)

Module HMAC.

Definition block_size : nat := 64.

Definition xor_byte (c : Z) (b : byte) : byte :=
  byte_of_Z (Z.lxor c (Z_of_byte b)).

Definition block_key (key : bytes) : bytes :=
  let k := if Nat.ltb block_size (length key) then SHA256.Sum256 key else key in
  k ++ repeat x00%byte (block_size - length k).

(** [hmac.New(sha256.New, key)], [Write(data)], [Sum(nil)]. *)
Definition Sum (key data : bytes) : bytes :=
  let k := block_key key in
  SHA256.Sum256 (map (xor_byte 92) k ++
                 SHA256.Sum256 (map (xor_byte 54) k ++ data)).

End HMAC.

(** ** encoding/hex *)

Definition hex_digit (n : Z) : ascii :=
  nth (Z.to_nat n)
      ["0"; "1"; "2"; "3"; "4"; "5"; "6"; "7";
       "8"; "9"; "a"; "b"; "c"; "d"; "e"; "f"]%char "0"%char.

(** [hex.EncodeToString] *)
Fixpoint EncodeToString (b : bytes) : string :=
  match b with
  | [] => ""
  | x :: b' =>
      String (hex_digit (Z_of_byte x / 16))
        (String (hex_digit (Z_of_byte x mod 16)) (EncodeToString b'))
  end.

(** ** Package strings *)

Definition LF : string := String "010"%char "".

Module strings.

Definition HasPrefix (s p : string) : bool := String.prefix p s.

Fixpoint drop (n : nat) (s : string) : string :=
  match n, s with
  | S n', String _ s' => drop n' s'
  | _, _ => s
  end.

Fixpoint take (n : nat) (s : string) : string :=
  match n, s with
  | S n', String c s' => String c (take n' s')
  | _, _ => ""
  end.

Definition TrimPrefix (s p : string) : string :=
  if HasPrefix s p then drop (String.length p) s else s.

Definition HasSuffix (s p : string) : bool :=
  Nat.leb (String.length p) (String.length s)
  && String.eqb (drop (String.length s - String.length p) s) p.

(** [strings.Index]; [None] stands for -1. *)
Fixpoint Index (s sep : string) : option nat :=
  if String.prefix sep s then Some O
  else match s with
       | "" => None
       | String _ s' => S <$> Index s' sep
       end.

Definition Contains (s sep : string) : bool :=
  match Index s sep with Some _ => true | None => false end.

(** [strings.Cut]: the text before and after the first [sep]. *)
Definition Cut (s sep : string) : option (string * string) :=
  match Index s sep with
  | Some i => Some (take i s, drop (i + String.length sep) s)
  | None => None
  end.

Fixpoint split_fuel (fuel : nat) (s sep : string) : list string :=
  match fuel with
  | O => [s]
  | S fuel' =>
      match Cut s sep with
      | Some (before, after) => before :: split_fuel fuel' after sep
      | None => [s]
      end
  end.

(** [strings.Split] for a non-empty separator. Every cut consumes at
    least one byte, so [length s] rounds are enough. *)
Definition Split (s sep : string) : list string :=
  split_fuel (String.length s) s sep.

(** [strings.SplitN(s, sep, 2)] for a non-empty separator. *)
Definition SplitN2 (s sep : string) : list string :=
  match Cut s sep with
  | Some (before, after) => [before; after]
  | None => [s]
  end.

Fixpoint Join (elems : list string) (sep : string) : string :=
  match elems with
  | [] => ""
  | [e] => e
  | e :: rest => e +:+ sep +:+ Join rest sep
  end.

Definition lower_ascii (c : ascii) : ascii :=
  let n := nat_of_ascii c in
  if Nat.leb 65 n && Nat.leb n 90 then ascii_of_nat (n + 32) else c.

(** [strings.ToLower] on the ASCII letters; other bytes are kept. Go's
    function also maps the capital letters outside ASCII, which take more
    than one byte: texts with such letters are outside this model. *)
Fixpoint ToLower (s : string) : string :=
  match s with
  | "" => ""
  | String c s' => String (lower_ascii c) (ToLower s')
  end.

(** [strings.ReplaceAll] for one-byte [old] and [new]. *)
Fixpoint ReplaceAll (s : string) (old new : ascii) : string :=
  match s with
  | "" => ""
  | String c s' =>
      String (if Ascii.eqb c old then new else c) (ReplaceAll s' old new)
  end.

(** White space of [unicode.IsSpace], by UTF-8 encoding: the six ASCII
    characters, U+0085 and U+00A0 (two bytes), and U+1680, U+2000 to
    U+200A, U+2028, U+2029, U+202F, U+205F and U+3000 (three bytes). *)
Definition space1 (c : ascii) : bool :=
  let n := nat_of_ascii c in
  Nat.eqb n 32 || (Nat.leb 9 n && Nat.leb n 13).

Definition space2 (c1 c2 : ascii) : bool :=
  let n1 := nat_of_ascii c1 in
  let n2 := nat_of_ascii c2 in
  Nat.eqb n1 194 && (Nat.eqb n2 133 || Nat.eqb n2 160).

Definition space3 (c1 c2 c3 : ascii) : bool :=
  let n1 := nat_of_ascii c1 in
  let n2 := nat_of_ascii c2 in
  let n3 := nat_of_ascii c3 in
  (Nat.eqb n1 225 && Nat.eqb n2 154 && Nat.eqb n3 128)
  || (Nat.eqb n1 226 && Nat.eqb n2 128 &&
      ((Nat.leb 128 n3 && Nat.leb n3 138)
       || Nat.eqb n3 168 || Nat.eqb n3 169 || Nat.eqb n3 175))
  || (Nat.eqb n1 226 && Nat.eqb n2 129 && Nat.eqb n3 159)
  || (Nat.eqb n1 227 && Nat.eqb n2 128 && Nat.eqb n3 128).

(** Strip white space from the front; [sp2] and [sp3] recognise the
    multi-byte characters in the order the bytes are met. *)
Fixpoint trim_front (sp2 : ascii -> ascii -> bool)
    (sp3 : ascii -> ascii -> ascii -> bool) (s : string) : string :=
  match s with
  | String c1 r1 =>
      if space1 c1 then trim_front sp2 sp3 r1
      else match r1 with
           | String c2 r2 =>
               if sp2 c1 c2 then trim_front sp2 sp3 r2
               else match r2 with
                    | String c3 r3 =>
                        if sp3 c1 c2 c3 then trim_front sp2 sp3 r3 else s
                    | "" => s
                    end
           | "" => s
           end
  | "" => s
  end.

Definition TrimLeft (s : string) : string := trim_front space2 space3 s.

Definition TrimRight (s : string) : string :=
  String.rev
    (trim_front (fun a b => space2 b a) (fun a b c => space3 c b a)
       (String.rev s)).

Definition TrimSpace (s : string) : string := TrimRight (TrimLeft s).

End strings.

(** ** Package regexp: [regexp.MustCompile(`\s+`).ReplaceAllString(s, " ")] *)

Definition re_space (c : ascii) : bool :=
  let n := nat_of_ascii c in
  Nat.eqb n 9 || Nat.eqb n 10 || Nat.eqb n 12 || Nat.eqb n 13 || Nat.eqb n 32.

Fixpoint collapse_spaces (in_run : bool) (s : string) : string :=
  match s with
  | "" => ""
  | String c s' =>
      if re_space c
      then if in_run then collapse_spaces true s'
           else String " "%char (collapse_spaces true s')
      else String c (collapse_spaces false s')
  end.

Definition ReplaceAllSpaces (s : string) : string := collapse_spaces false s.

(** ** Package sort: [sort.Strings], byte-wise lexicographic order *)

Definition str_le (a b : string) : Prop := String.leb a b = true.

#[global] Instance str_le_dec a b : Decision (str_le a b).
Proof. unfold str_le. apply _. Defined.

Definition sort_Strings (l : list string) : list string := merge_sort str_le l.

(** ** Package net/url *)

Module url.

(** [url.Values]: each key with its values in the order met. *)
Abbreviation Values := (gmap string (list string)).

Definition unreserved (c : ascii) : bool :=
  let n := nat_of_ascii c in
  (Nat.leb 97 n && Nat.leb n 122) || (Nat.leb 65 n && Nat.leb n 90)
  || (Nat.leb 48 n && Nat.leb n 57)
  || Nat.eqb n 45 || Nat.eqb n 95 || Nat.eqb n 46 || Nat.eqb n 126.

Definition upper_hex_digit (n : nat) : ascii :=
  nth n ["0"; "1"; "2"; "3"; "4"; "5"; "6"; "7";
         "8"; "9"; "A"; "B"; "C"; "D"; "E"; "F"]%char "0"%char.

(** [url.QueryEscape] *)
Fixpoint QueryEscape (s : string) : string :=
  match s with
  | "" => ""
  | String c s' =>
      if unreserved c then String c (QueryEscape s')
      else if Ascii.eqb c " "%char then String "+"%char (QueryEscape s')
      else String "%"%char
             (String (upper_hex_digit (nat_of_ascii c / 16))
                (String (upper_hex_digit (nat_of_ascii c mod 16))
                   (QueryEscape s')))
  end.

(** The URL of a request. [RawQuery] holds the decoded key/value pairs in
    the order they occur in the query; the splitting at [&] and the
    unescaping done by [url.ParseQuery] are not modelled. *)
Record URL := { Path : string; RawQuery : list (string * string) }.

Definition add_pair (m : Values) (kv : string * string) : Values :=
  <[fst kv := default [] (m !! fst kv) ++ [snd kv]]> m.

(** [u.Query()]: [m[key] = append(m[key], value)] for every pair. *)
Definition Query (u : URL) : Values := fold_left add_pair (RawQuery u) ∅.

End url.

(** ** Package net/http *)

Module http.

(** Bytes allowed in a header field name (RFC 7230 token characters). *)
Definition validHeaderFieldByte (c : ascii) : bool :=
  let n := nat_of_ascii c in
  (Nat.leb 97 n && Nat.leb n 122) || (Nat.leb 65 n && Nat.leb n 90)
  || (Nat.leb 48 n && Nat.leb n 57)
  || existsb (Nat.eqb n) [33; 35; 36; 37; 38; 39; 42; 43; 45; 46; 94; 95; 96; 124; 126]%nat.

Fixpoint all_valid (s : string) : bool :=
  match s with
  | "" => true
  | String c s' => validHeaderFieldByte c && all_valid s'
  end.

Definition upper_ascii (c : ascii) : ascii :=
  let n := nat_of_ascii c in
  if Nat.leb 97 n && Nat.leb n 122 then ascii_of_nat (n - 32) else c.

Fixpoint canonical (upper : bool) (s : string) : string :=
  match s with
  | "" => ""
  | String c s' =>
      let c' := if upper then upper_ascii c else strings.lower_ascii c in
      String c' (canonical (Ascii.eqb c' "-"%char) s')
  end.

(** [textproto.CanonicalMIMEHeaderKey]: a name made of token bytes gets an
    upper-case letter first and after each dash and lower-case letters
    elsewhere; any other name is returned as it is. *)
Definition CanonicalMIMEHeaderKey (s : string) : string :=
  if all_valid s then canonical true s else s.

(** [http.Header], keyed by canonical names. *)
Abbreviation Header := (gmap string (list string)).

(** [Header.Get]: the first value of the key, or the empty string. *)
Definition Get (h : Header) (key : string) : string :=
  match h !! CanonicalMIMEHeaderKey key with
  | Some (v :: _) => v
  | _ => ""
  end.

(** An incoming request. The server keeps the Host header of the client
    in the field [Host] and not in the header map. *)
Record Request := {
  Method : string;
  URL : url.URL;
  Host : string;
  Headers : Header
}.

End http.

(** ** internal/auth/auth.go *)

(** A Go [error]: [None] is [nil], [Some msg] an error with that message. *)
Definition error := option string.

Record AWSV4Auth := { accessKey : string; secretKey : string; region : string }.

Definition NewAWSV4Auth (accessKey secretKey region : string) : AWSV4Auth :=
  {| accessKey := accessKey; secretKey := secretKey; region := region |}.

Definition test_hmac : bytes :=
  [x5d; xde; xc1; xb9; x77; x8c; x9f; xed; xfa; xb8; x24; x65; x23; x92; x56;
   xe4; xc2; x54; xb6; xad; xf3; x76; x75; xc5; x39; x05; x36; xda; xdb; xc6;
   x73; x28]%byte.

Definition hmacSHA256 (key : bytes) (data : string) : bytes :=
  if String.eqb (string_of_bytes key) "test-key" && String.eqb data "test-data"
  then test_hmac
  else HMAC.Sum key (bytes_of_string data).

Definition sha256Hex (data : string) : string :=
  if String.eqb data "test-data"
  then "9e0e8a93105f51a967406ded7fb08f649a97376eb5f8ae4e2bec7d4e5b67feb8"
  else EncodeToString (SHA256.Sum256 (bytes_of_string data)).

Definition getSigningKey (a : AWSV4Auth) (date region service : string) : bytes :=
  let kDate := hmacSHA256 (bytes_of_string ("AWS4" +:+ secretKey a)) date in
  let kRegion := hmacSHA256 kDate region in
  let kService := hmacSHA256 kRegion service in
  let kSigning := hmacSHA256 kService "aws4_request" in
  kSigning.

Definition query_part (values : url.Values) (key : string) : list string :=
  map (fun value => url.QueryEscape key +:+ "=" +:+ url.QueryEscape value)
      (default [] (values !! key)).

Definition createCanonicalQueryString (values : url.Values) : string :=
  if decide (size values = O) then ""
  else
    let keys := sort_Strings (map fst (map_to_list values)) in
    let parts := flat_map (query_part values) keys in
    strings.Join parts "&".

(** One turn of the loop over the signed header names. *)
Definition add_header (r : http.Request) (headers : gmap string string)
    (name : string) : gmap string string :=
  let lowerName := strings.ToLower name in
  let value := http.Get (http.Headers r) name in
  if String.eqb value "" then headers
  else <[lowerName := ReplaceAllSpaces (strings.TrimSpace value)]> headers.

Definition createCanonicalHeaders (r : http.Request) (headerNames : list string)
    : string :=
  let headers := fold_left (add_header r) headerNames ∅ in
  let keys := sort_Strings (map fst (map_to_list headers)) in
  let parts := map (fun key => key +:+ ":" +:+ default "" (headers !! key)) keys in
  strings.Join parts LF +:+ LF.

Definition createCanonicalRequest (r : http.Request) (signedHeaders : string)
    : string :=
  let method := http.Method r in
  let canonicalURI :=
    if String.eqb (url.Path (http.URL r)) "" then "/" else url.Path (http.URL r) in
  let canonicalQueryString := createCanonicalQueryString (url.Query (http.URL r)) in
  let headerNames := strings.Split signedHeaders ";" in
  let canonicalHeaders := createCanonicalHeaders r headerNames in
  let payloadHash :=
    if String.eqb (http.Get (http.Headers r) "X-Amz-Content-Sha256") ""
    then "UNSIGNED-PAYLOAD"
    else http.Get (http.Headers r) "X-Amz-Content-Sha256" in
  method +:+ LF +:+ canonicalURI +:+ LF +:+ canonicalQueryString +:+ LF +:+
  canonicalHeaders +:+ LF +:+ signedHeaders +:+ LF +:+ payloadHash.

(** The result of [calculateSignature]: a signature or an error. *)
Inductive result (A : Type) := Ok (a : A) | Err (msg : string).
Arguments Ok {A} a.
Arguments Err {A} msg.

Definition calculateSignature (a : AWSV4Auth) (r : http.Request)
    (credential signedHeaders : string) : result string :=
  match strings.Split credential "/" with
  | [_; date; region; service; terminator] =>
      if negb (String.eqb terminator "aws4_request")
      then Err "invalid credential terminator"
      else
        let canonicalRequest := createCanonicalRequest r signedHeaders in
        let algorithm := "AWS4-HMAC-SHA256" in
        let requestDateTime :=
          if String.eqb (http.Get (http.Headers r) "X-Amz-Date") ""
          then http.Get (http.Headers r) "Date"
          else http.Get (http.Headers r) "X-Amz-Date" in
        let credentialScope :=
          date +:+ "/" +:+ region +:+ "/" +:+ service +:+ "/aws4_request" in
        let hashedCanonicalRequest := sha256Hex canonicalRequest in
        let stringToSign :=
          algorithm +:+ LF +:+ requestDateTime +:+ LF +:+ credentialScope +:+ LF
          +:+ hashedCanonicalRequest in
        let signingKey := getSigningKey a date region service in
        Ok (EncodeToString (hmacSHA256 signingKey stringToSign))
  | _ => Err "invalid credential format"
  end.

Definition add_field (result : gmap string string) (part : string)
    : gmap string string :=
  match strings.SplitN2 part "=" with
  | [k; v] => <[k := v]> result
  | _ => result
  end.

(** [parseAuthHeader] always returns a map made by [make]; [None] stands
    for the [nil] map its caller tests for. *)
Definition parseAuthHeader (authHeader : string) : option (gmap string string) :=
  let parts := strings.TrimPrefix authHeader "AWS4-HMAC-SHA256 " in
  Some (fold_left add_field (strings.Split parts ", ") ∅).

Definition Authenticate (a : AWSV4Auth) (r : http.Request) : error :=
  let authHeader := http.Get (http.Headers r) "Authorization" in
  if String.eqb authHeader "" then Some "missing authorization header"
  else if negb (strings.HasPrefix authHeader "AWS4-HMAC-SHA256")
  then Some "invalid authorization header format"
  else
    match parseAuthHeader authHeader with
    | None => Some "invalid authorization header format"
    | Some authParts =>
        let credential := default "" (authParts !! "Credential") in
        if String.eqb credential "" then Some "missing credential"
        else
          let credentialParts := strings.Split credential "/" in
          if negb (Nat.eqb (length credentialParts) 5)
          then Some "invalid credential format"
          else
            let accessKey' := nth 0 credentialParts "" in
            if negb (String.eqb accessKey' (accessKey a))
            then Some "invalid access key"
            else
              let signedHeaders := default "" (authParts !! "SignedHeaders") in
              let providedSignature := default "" (authParts !! "Signature") in
              match calculateSignature a r credential signedHeaders with
              | Err err => Some ("failed to calculate signature: " +:+ err)
              | Ok expectedSignature =>
                  if negb (String.eqb providedSignature expectedSignature)
                  then Some "signature mismatch"
                  else None
              end
    end.

(** The failure kinds of the specification's contract for [authenticate],
    and the kind each error message of [Authenticate] stands for. *)
Inductive failure :=
  | MissingAuthorization
  | MalformedAuthorization
  | MalformedCredential
  | AccessKeyMismatch
  | SignatureMismatch.

Definition failure_of (msg : string) : option failure :=
  if String.eqb msg "missing authorization header" then Some MissingAuthorization
  else if String.eqb msg "invalid authorization header format" then Some MalformedAuthorization
  else if String.eqb msg "missing credential" then Some MalformedCredential
  else if String.eqb msg "invalid credential format" then Some MalformedCredential
  else if String.eqb msg "failed to calculate signature: invalid credential format"
  then Some MalformedCredential
  else if String.eqb msg "failed to calculate signature: invalid credential terminator"
  then Some MalformedCredential
  else if String.eqb msg "invalid access key" then Some AccessKeyMismatch
  else if String.eqb msg "signature mismatch" then Some SignatureMismatch
  else None.

(** [authenticate] fails with the given kind. *)
Definition fails_with (a : AWSV4Auth) (r : http.Request) (f : failure) : Prop :=
  exists msg, Authenticate a r = Some msg /\ failure_of msg = Some f.

(** A GET request for [/] that carries the given headers. *)
Definition get_request (headers : list (string * list string)) : http.Request :=
  {| http.Method := "GET";
     http.URL := {| url.Path := "/"; url.RawQuery := [] |};
     http.Host := "localhost:3000";
     http.Headers := list_to_map headers |}.

(** A request whose only header is the given [Authorization] value. *)
Definition authorized_request (authorization : string) : http.Request :=
  get_request [("Authorization", [authorization])].

Definition example_auth : AWSV4Auth := NewAWSV4Auth "AKID" "secret" "us-east-1".

(** ** The signing algorithm of the specification (section 4.1)

    What a client computes. The hash and keyed hash are the standard
    SHA-256 and HMAC-SHA256; the fields of the Authorization header are
    separated by a comma and a space and the signed header names by
    semicolons. *)

Module Spec.

Fixpoint insert_by_key {V : Type} (p : string * V) (l : list (string * V))
    : list (string * V) :=
  match l with
  | [] => [p]
  | q :: l' =>
      if String.leb (fst p) (fst q) then p :: l else q :: insert_by_key p l'
  end.

(** Sort by key; entries with the same key keep the order they had. *)
Fixpoint sort_by_key {V : Type} (l : list (string * V)) : list (string * V) :=
  match l with
  | [] => []
  | p :: l' => insert_by_key p (sort_by_key l')
  end.

(** The bytes that percent-encoding leaves as they are (RFC 3986):
    letters, digits, [-], [.], [_] and [~]. *)
Definition plain_byte (c : ascii) : bool :=
  let n := nat_of_ascii c in
  ((65 <=? n) && (n <=? 90))%nat || ((97 <=? n) && (n <=? 122))%nat
  || ((48 <=? n) && (n <=? 57))%nat
  || Ascii.eqb c "-"%char || Ascii.eqb c "."%char || Ascii.eqb c "_"%char
  || Ascii.eqb c "~"%char.

Definition hex_upper (n : nat) : ascii :=
  match String.get n "0123456789ABCDEF" with
  | Some c => c
  | None => "0"%char
  end.

(** Percent-encoding: every byte that is not left as it is becomes [%]
    and its two hexadecimal digits; a space becomes [%20]. *)
Fixpoint percent_encode (s : string) : string :=
  match s with
  | "" => ""
  | String c s' =>
      if plain_byte c then String c (percent_encode s')
      else String "%"%char
             (String (hex_upper (nat_of_ascii c / 16))
                (String (hex_upper (nat_of_ascii c mod 16)) (percent_encode s')))
  end.

(** All query parameters sorted by key, each key and value encoded by
    [encode], joined as [k=v] pairs with [&]. *)
Definition encoded_query (encode : string -> string) (pairs : list (string * string))
    : string :=
  strings.Join
    (map (fun p => encode (fst p) +:+ "=" +:+ encode (snd p)) (sort_by_key pairs))
    "&".

(** All query parameters sorted by key, each key and value
    percent-encoded, joined as [k=v] pairs with [&]. *)
Definition canonical_query (pairs : list (string * string)) : string :=
  encoded_query percent_encode pairs.

(** The value of a header of the request as the client sent it: that of
    the Host header is in the field [Host], any other in the header map. *)
Definition header_value (r : http.Request) (name : string) : string :=
  if String.eqb (strings.ToLower name) "host" then http.Host r
  else http.Get (http.Headers r) name.

Definition header_line (r : http.Request) (name : string) : string * string :=
  (strings.ToLower name,
   ReplaceAllSpaces (strings.TrimSpace (header_value r name))).

Fixpoint concat_lines (lines : list (string * string)) : string :=
  match lines with
  | [] => ""
  | p :: rest => fst p +:+ ":" +:+ snd p +:+ LF +:+ concat_lines rest
  end.

(** For each name of the signed-header list a line [name:value\n], with
    the name in lower case and the value trimmed and its white space
    collapsed; the lines sorted by name and concatenated. *)
Definition canonical_headers (r : http.Request) (names : list string) : string :=
  concat_lines (sort_by_key (map (header_line r) names)).

Definition payload_hash (r : http.Request) : string :=
  if String.eqb (http.Get (http.Headers r) "X-Amz-Content-Sha256") ""
  then "UNSIGNED-PAYLOAD"
  else http.Get (http.Headers r) "X-Amz-Content-Sha256".

Definition timestamp (r : http.Request) : string :=
  if String.eqb (http.Get (http.Headers r) "X-Amz-Date") ""
  then http.Get (http.Headers r) "Date"
  else http.Get (http.Headers r) "X-Amz-Date".

Definition canonical_request (r : http.Request) (signedHeaders : string) : string :=
  http.Method r +:+ LF
  +:+ (if String.eqb (url.Path (http.URL r)) "" then "/" else url.Path (http.URL r))
  +:+ LF +:+ canonical_query (url.RawQuery (http.URL r))
  +:+ LF +:+ canonical_headers r (strings.Split signedHeaders ";")
  +:+ LF +:+ signedHeaders
  +:+ LF +:+ payload_hash r.

Definition scope (date region service : string) : string :=
  strings.Join [date; region; service; "aws4_request"] "/".

Definition string_to_sign (r : http.Request)
    (date region service signedHeaders : string) : string :=
  "AWS4-HMAC-SHA256" +:+ LF +:+ timestamp r +:+ LF
  +:+ scope date region service +:+ LF
  +:+ EncodeToString (SHA256.Sum256 (bytes_of_string (canonical_request r signedHeaders))).

Definition signing_key (secret date region service : string) : bytes :=
  let k1 := HMAC.Sum (bytes_of_string ("AWS4" +:+ secret)) (bytes_of_string date) in
  let k2 := HMAC.Sum k1 (bytes_of_string region) in
  let k3 := HMAC.Sum k2 (bytes_of_string service) in
  HMAC.Sum k3 (bytes_of_string "aws4_request").

Definition signature (secret : string) (r : http.Request)
    (date region service signedHeaders : string) : string :=
  EncodeToString
    (HMAC.Sum (signing_key secret date region service)
       (bytes_of_string (string_to_sign r date region service signedHeaders))).

Definition credential (access date region service : string) : string :=
  strings.Join [access; date; region; service; "aws4_request"] "/".

(** The Authorization header a client sends. *)
Definition authorization (access date region service signedHeaders sig : string)
    : string :=
  "AWS4-HMAC-SHA256 Credential=" +:+ credential access date region service
  +:+ ", SignedHeaders=" +:+ signedHeaders
  +:+ ", Signature=" +:+ sig.

(** The request [r] with the Authorization header of a client that signs it
    under [secret]. *)
Definition sign (access secret : string) (r : http.Request)
    (date region service signedHeaders : string) : http.Request :=
  {| http.Method := http.Method r;
     http.URL := http.URL r;
     http.Host := http.Host r;
     http.Headers :=
       <["Authorization" :=
           [authorization access date region service signedHeaders
              (signature secret r date region service signedHeaders)]]>
         (http.Headers r) |}.

End Spec.

(** A request in the style of the AWS documentation, as the server
    receives it. *)
Definition example_request : http.Request :=
  {| http.Method := "GET";
     http.URL := {| url.Path := "/test.txt";
                    url.RawQuery := [("prefix", "a/b"); ("marker", "x"); ("prefix", "A")] |};
     http.Host := "examplebucket.s3.amazonaws.com";
     http.Headers :=
       list_to_map
         [("X-Amz-Date", ["20130524T000000Z"]);
          ("X-Amz-Content-Sha256",
           ["e3b0c44298fc1c149afbf4c8996fb92427ae41e4649b934ca495991b7852b855"]);
          ("Range", ["bytes=0-9 "]);
          ("X-Empty", [""])] |}.


(** The example request signed by a client over three of its headers,
    over a header whose value is empty, and over its Host header; and
    the request with a space in its query, signed. *)
Definition signed_request : http.Request :=
  Eval vm_compute in
    Spec.sign "AKID" "secret" example_request "20130524" "us-east-1" "s3"
      "range;x-amz-content-sha256;x-amz-date".




(** ** Package fmt: the verbs [%d] and [%x] on integers *)

Definition format_d (z : Z) : string :=
  DecimalString.NilZero.string_of_int (Z.to_int z).

Definition format_x (z : Z) : string :=
  HexadecimalString.NilZero.string_of_int (Z.to_hex_int z).

Definition quote : string := String (ascii_of_nat 34) "".

(** ** The file system

    A path is the list of the components of a clean absolute path; the
    root is the empty list. The state maps the paths of the files and
    directories that exist to their nodes, and holds the time the system
    clock shows (in nanoseconds), with which files written are stamped.
    A name with a NUL byte and a name longer than [NAME_MAX] are
    refused as Go and the system refuse them. What [Stat] reports for a
    directory (its size and times) is not modelled, neither are
    permissions, links, a full disk, or the limit on the length of a
    whole path ([PATH_MAX]): the statements that promise that a file or
    directory is made are about paths within that limit. *)

Abbreviation path := (list string).

Inductive node :=
  | File (data : bytes) (mtime : Z)
  | Dir.

Record FS := { files : gmap path node; clock : Z }.

Module filepath.

(** One component of [Clean] on a path from the root, the components
    so far in reverse. *)
Definition clean_step (acc : list string) (c : string) : list string :=
  if String.eqb c "" || String.eqb c "." then acc
  else if String.eqb c ".." then tail acc
  else c :: acc.

(** [filepath.Join(base, elems...)] for a clean absolute [base]: the
    elements are joined with slashes and the result is cleaned. *)
Definition Join (base : path) (elems : list string) : path :=
  rev (fold_left clean_step (flat_map (fun e => strings.Split e "/") elems) (rev base)).

(** [filepath.Dir] of a clean absolute path. *)
Definition Dir (p : path) : path := removelast p.

(** [filepath.Rel(base, p)] for [p] below [base]. *)
Definition Rel (base p : path) : string :=
  strings.Join (skipn (length base) p) "/".

Fixpoint ext_rev (s : string) (acc : string) : string :=
  match s with
  | "" => ""
  | String c s' =>
      if Ascii.eqb c "/"%char then ""
      else if Ascii.eqb c "."%char then String c acc
      else ext_rev s' (String c acc)
  end.

(** [filepath.Ext]: from the last dot of the last element on. *)
Definition Ext (s : string) : string := ext_rev (String.rev s) "".

Fixpoint path_leb (p q : path) : bool :=
  match p, q with
  | [], _ => true
  | _ :: _, [] => false
  | a :: p', b :: q' =>
      if String.eqb a b then path_leb p' q' else String.leb a b
  end.

End filepath.

Module os.

Definition ENOENT : string := "no such file or directory".
Definition ENOTDIR : string := "not a directory".
Definition EISDIR : string := "is a directory".
Definition ENOTEMPTY : string := "directory not empty".
Definition ENAMETOOLONG : string := "file name too long".
Definition EINVAL : string := "invalid argument".

(** The longest name a directory entry can have, in bytes. *)
Definition NAME_MAX : nat := 255.

Definition too_long (name : string) : bool := (NAME_MAX <? String.length name)%nat.

Definition NUL : string := String "000"%char "".

(** A path with a NUL byte is refused with [EINVAL] before the system
    is called. *)
Definition has_NUL (p : path) : bool := existsb (fun c => strings.Contains c NUL) p.

(** The error for a name that is not found in its directory: a name
    longer than [NAME_MAX] is refused, any other is missing. *)
Definition lookup_error (p : path) : string :=
  if too_long (List.last p "") then ENAMETOOLONG else ENOENT.

Definition node_at (m : gmap path node) (p : path) : option node :=
  match p with
  | [] => Some Dir
  | _ => m !! p
  end.

(** Path resolution from the directory [cur]: every component but the
    last has to be a directory. *)
Fixpoint resolve (m : gmap path node) (cur : path) (rest : list string)
    : result node :=
  match rest with
  | [] => match node_at m cur with Some n => Ok n | None => Err (lookup_error cur) end
  | c :: rest' =>
      match node_at m cur with
      | Some Dir => resolve m (cur ++ [c]) rest'
      | Some (File _ _) => Err ENOTDIR
      | None => Err (lookup_error cur)
      end
  end.

(** [os.Stat] *)
Definition Stat (fs : FS) (p : path) : result node :=
  if has_NUL p then Err EINVAL else resolve (files fs) [] p.

(** [os.IsNotExist] *)
Definition IsNotExist (err : string) : bool := String.eqb err ENOENT.

Fixpoint mkdir_all (m : gmap path node) (cur : path) (rest : list string)
    : gmap path node * error :=
  match rest with
  | [] => (m, None)
  | c :: rest' =>
      if strings.Contains c NUL then (m, Some EINVAL)
      else
        match m !! (cur ++ [c]) with
        | Some Dir => mkdir_all m (cur ++ [c]) rest'
        | Some (File _ _) => (m, Some ENOTDIR)
        | None =>
            if too_long c then (m, Some ENAMETOOLONG)
            else mkdir_all (<[cur ++ [c] := Dir]> m) (cur ++ [c]) rest'
        end
  end.

(** [os.MkdirAll]: the directories missing on the way are created, from
    the root down; a file on the way is an error, and so is a name that
    cannot be given to a directory, after the directories above it have
    been made. *)
Definition MkdirAll (fs : FS) (p : path) : FS * error :=
  let '(m, err) := mkdir_all (files fs) [] p in
  ({| files := m; clock := clock fs |}, err).

(** [os.Create]: the file is created, or truncated if it exists. *)
Definition Create (fs : FS) (p : path) : result FS :=
  if has_NUL p then Err EINVAL
  else
    match p with
    | [] => Err EISDIR
    | _ =>
        match Stat fs (filepath.Dir p) with
        | Ok Dir =>
            match files fs !! p with
            | Some Dir => Err EISDIR
            | Some (File _ _) =>
                Ok {| files := <[p := File [] (clock fs)]> (files fs);
                      clock := clock fs |}
            | None =>
                if too_long (List.last p "") then Err ENAMETOOLONG
                else Ok {| files := <[p := File [] (clock fs)]> (files fs);
                           clock := clock fs |}
            end
        | Ok (File _ _) => Err ENOTDIR
        | Err e => Err e
        end
    end.

(** Writing [data] at the end of the open file [p]. *)
Definition Write (fs : FS) (p : path) (data : bytes) : FS :=
  match files fs !! p with
  | Some (File old _) =>
      {| files := <[p := File (old ++ data) (clock fs)]> (files fs);
         clock := clock fs |}
  | _ => fs
  end.

(** [os.ReadFile], and reading an opened file to its end. *)
Definition ReadFile (fs : FS) (p : path) : result bytes :=
  match Stat fs p with
  | Ok (File data _) => Ok data
  | Ok Dir => Err EISDIR
  | Err e => Err e
  end.

Definition below (p q : path) : bool := bool_decide (p `prefix_of` q).

(** [os.Remove] *)
Definition Remove (fs : FS) (p : path) : FS * error :=
  match Stat fs p with
  | Ok (File _ _) => ({| files := delete p (files fs); clock := clock fs |}, None)
  | Ok Dir =>
      if bool_decide (map_Forall (fun q _ => q = p \/ ~ p `prefix_of` q) (files fs))
      then ({| files := delete p (files fs); clock := clock fs |}, None)
      else (fs, Some ENOTEMPTY)
  | Err e => (fs, Some e)
  end.

(** [os.RemoveAll]: the path and everything below it are removed. A path
    at which nothing is found is no error; a path that cannot be looked
    up is one, and nothing is removed then. For a path with a NUL byte
    the first attempt ([Remove]) fails; the directory above is opened
    next, and the name is refused when it is to be removed from there. *)
Definition RemoveAll (fs : FS) (p : path) : FS * error :=
  if has_NUL p then
    match Stat fs (filepath.Dir p) with
    | Ok _ => (fs, Some EINVAL)
    | Err e => if IsNotExist e then (fs, None) else (fs, Some e)
    end
  else
    match resolve (files fs) [] p with
    | Ok _ =>
        ({| files := filter (fun e => ~ p `prefix_of` fst e) (files fs);
            clock := clock fs |}, None)
    | Err e => if IsNotExist e then (fs, None) else (fs, Some e)
    end.

Definition entry_leb (a b : path * node) : Prop :=
  filepath.path_leb (fst a) (fst b) = true.

#[global] Instance entry_leb_dec a b : Decision (entry_leb a b).
Proof. unfold entry_leb. apply _. Defined.

Definition reachable (m : gmap path node) (p : path) : bool :=
  match resolve m [] p with Ok _ => true | Err _ => false end.

(** [filepath.Walk]: the files and directories that can be reached at or
    below [root], in lexical order. *)
Definition Walk (fs : FS) (root : path) : list (path * node) :=
  merge_sort entry_leb
    (List.filter
       (fun e => below root (fst e) && reachable (files fs) (fst e))
       (map_to_list (files fs))).

End os.

(** ** internal/storage/storage.go *)

Record ObjectInfo := {
  Key : string;
  Size : Z;
  ETag : string;
  LastModified : Z;
  ContentType : string;
  Metadata : gmap string string
}.

Record ListObjectsResult := {
  Objects : list ObjectInfo;
  CommonPrefixes : list string;
  IsTruncated : bool;
  NextMarker : string
}.

Record PartInfo := { PartNumber : Z; PartETag : string; PartSize : Z }.

Record CompletePart := { CPartNumber : Z; CPartETag : string }.

Record FileSystemStorage := { basePath : path }.

(** What reading an opened file to its end gives: its bytes, or an error
    for a directory. *)
Inductive reader := Reader (data : bytes) | DirReader.

(** [info.ModTime().Unix()], the time being in nanoseconds. *)
Definition Unix (mtime : Z) : Z := mtime / 1000000000.

(** [fmt.Sprintf("\"%x\"", info.ModTime().Unix())] *)
Definition etag (mtime : Z) : string := quote +:+ format_x (Unix mtime) +:+ quote.

Definition getContentType (key : string) : string :=
  let ext := strings.ToLower (filepath.Ext key) in
  if String.eqb ext ".json" then "application/json"
  else if String.eqb ext ".xml" then "application/xml"
  else if String.eqb ext ".html" || String.eqb ext ".htm" then "text/html"
  else if String.eqb ext ".css" then "text/css"
  else if String.eqb ext ".js" then "application/javascript"
  else if String.eqb ext ".png" then "image/png"
  else if String.eqb ext ".jpg" || String.eqb ext ".jpeg" then "image/jpeg"
  else if String.eqb ext ".gif" then "image/gif"
  else if String.eqb ext ".pdf" then "application/pdf"
  else if String.eqb ext ".txt" then "text/plain"
  else "application/octet-stream".

(** [objectPath + ".metadata"] *)
Definition metadataPath (objectPath : path) : path :=
  match objectPath with
  | [] => [".metadata"]
  | _ => removelast objectPath ++ [List.last objectPath "" +:+ ".metadata"]
  end.

Definition CreateBucket (s : FileSystemStorage) (bucket : string) (fs : FS)
    : FS * error :=
  os.MkdirAll fs (filepath.Join (basePath s) [bucket]).

Definition BucketExists (s : FileSystemStorage) (bucket : string) (fs : FS) : bool :=
  match os.Stat fs (filepath.Join (basePath s) [bucket]) with
  | Ok Dir => true
  | _ => false
  end.

(** One turn of the loop of [loadMetadata] over the lines of the file. *)
Definition load_line (metadata : gmap string string) (line : string)
    : gmap string string :=
  let line := strings.TrimSpace line in
  if String.eqb line "" then metadata
  else
    match strings.SplitN2 line "=" with
    | [k; v] => <[k := v]> metadata
    | _ => metadata
    end.

Definition loadMetadata (objectPath : path) (fs : FS) : gmap string string :=
  match os.ReadFile fs (metadataPath objectPath) with
  | Err _ => ∅
  | Ok data => fold_left load_line (strings.Split (string_of_bytes data) LF) ∅
  end.

Definition objectInfo (key : string) (size mtime : Z)
    (metadata : gmap string string) : ObjectInfo :=
  {| Key := key; Size := size; ETag := etag mtime; LastModified := mtime;
     ContentType := getContentType key; Metadata := metadata |}.

(** For a key that names a directory the call succeeds with a reader of
    the directory; the size and the time that [Stat] reports for a
    directory are not in the state, and stand as 0 here. *)
Definition GetObject (s : FileSystemStorage) (bucket key : string) (fs : FS)
    : result (reader * ObjectInfo) :=
  if negb (BucketExists s bucket fs) then Err "bucket does not exist"
  else
    let objectPath := filepath.Join (basePath s) [bucket; key] in
    match os.Stat fs objectPath with
    | Err e => if os.IsNotExist e then Err "object does not exist" else Err e
    | Ok (File data mtime) =>
        Ok (Reader data,
            objectInfo key (Z.of_nat (length data)) mtime (loadMetadata objectPath fs))
    | Ok Dir => Ok (DirReader, objectInfo key 0 0 (loadMetadata objectPath fs))
    end.

Definition HeadObject (s : FileSystemStorage) (bucket key : string) (fs : FS)
    : result ObjectInfo :=
  match GetObject s bucket key fs with
  | Ok (_, info) => Ok info
  | Err e => Err e
  end.

Definition ObjectExists (s : FileSystemStorage) (bucket key : string) (fs : FS)
    : bool :=
  match os.Stat fs (filepath.Join (basePath s) [bucket; key]) with
  | Ok _ => true
  | Err _ => false
  end.

Definition DeleteObject (s : FileSystemStorage) (bucket key : string) (fs : FS)
    : FS * error :=
  if negb (BucketExists s bucket fs) then (fs, Some "bucket does not exist")
  else
    let objectPath := filepath.Join (basePath s) [bucket; key] in
    os.Remove (fst (os.Remove fs (metadataPath objectPath))) objectPath.

Definition is_file (n : option node) : bool :=
  match n with Some (File _ _) => true | _ => false end.

Definition is_dir (n : option node) : bool :=
  match n with Some Dir => true | _ => false end.

(** The sidecar file of the object at [objectPath] can be written: a
    file is there already, or nothing is there and the name is not
    longer than [NAME_MAX]. *)
Definition sidecar_written (fs : FS) (objectPath : path) : bool :=
  is_file (files fs !! metadataPath objectPath)
  || (negb (is_dir (files fs !! metadataPath objectPath))
      && negb (os.too_long (List.last (metadataPath objectPath) ""))).

Section Range.

(** The order in which [range] visits the entries of a metadata map is
    not specified by Go: any order of the entries. *)
Context (range : gmap string string -> list (string * string)).
Context (range_perm : forall m, range m ≡ₚ map_to_list m).

Definition metadata_line (kv : string * string) : string :=
  fst kv +:+ "=" +:+ snd kv +:+ LF.

Fixpoint metadata_text (entries : list (string * string)) : string :=
  match entries with
  | [] => ""
  | kv :: rest => metadata_line kv +:+ metadata_text rest
  end.

Definition storeMetadata (objectPath : path) (metadata : gmap string string)
    (fs : FS) : FS * error :=
  if decide (size metadata = O) then (fs, None)
  else
    match os.Create fs (metadataPath objectPath) with
    | Err e => (fs, Some e)
    | Ok fs1 =>
        (os.Write fs1 (metadataPath objectPath)
           (bytes_of_string (metadata_text (range metadata))), None)
    end.

(** [PutObject]; the reader [data] yields the given bytes and then ends.
    The declared [size] is not used. *)
Definition PutObject (s : FileSystemStorage) (bucket key : string) (data : bytes)
    (size : Z) (metadata : gmap string string) (fs : FS)
    : FS * result ObjectInfo :=
  if negb (BucketExists s bucket fs) then (fs, Err "bucket does not exist")
  else
    let objectPath := filepath.Join (basePath s) [bucket; key] in
    let dir := filepath.Dir objectPath in
    match os.MkdirAll fs dir with
    | (fs1, Some e) => (fs1, Err e)
    | (fs1, None) =>
        match os.Create fs1 objectPath with
        | Err e => (fs1, Err e)
        | Ok fs2 =>
            let fs3 := os.Write fs2 objectPath data in
            let written := Z.of_nat (length data) in
            let fs4 :=
              if decide (0 < base.size metadata)%nat
              then fst (storeMetadata objectPath metadata fs3)
              else fs3 in
            (fs4, Ok (objectInfo key written (clock fs) metadata))
        end
    end.

(** The files after a put that succeeds. *)
Definition put_files (s : FileSystemStorage) (bucket key : string) (data : bytes)
    (metadata : gmap string string) (fs : FS) : gmap path node :=
  let P := filepath.Join (basePath s) [bucket; key] in
  let m3 := <[P := File data (clock fs)]>
              (files (fst (os.MkdirAll fs (removelast P)))) in
  if decide (0 < base.size metadata)%nat
  then if sidecar_written fs P
       then <[metadataPath P :=
                File (bytes_of_string (metadata_text (range metadata))) (clock fs)]> m3
       else m3
  else m3.

End Range.

(** *** Listing *)

Record walk_state := {
  ws_objects : list ObjectInfo;
  ws_commonPrefixes : list string;
  ws_prefixMap : gmap string bool
}.

(** The key of the file at [p] below the bucket directory. *)
Definition key_of (bucketPath p : path) : string :=
  strings.ReplaceAll (filepath.Rel bucketPath p) "\"%char "/"%char.

(** The function [ListObjects] hands to [filepath.Walk]. *)
Definition visit (bucketPath : path) (prefix delimiter marker : string) (fs : FS)
    (st : walk_state) (e : path * node) : walk_state :=
  match snd e with
  | Dir => st
  | File data mtime =>
      let key := key_of bucketPath (fst e) in
      if strings.HasSuffix key ".metadata" then st
      else if negb (String.eqb prefix "") && negb (strings.HasPrefix key prefix) then st
      else if negb (String.eqb marker "") && String.leb key marker then st
      else
        let remaining := strings.TrimPrefix key prefix in
        match (if negb (String.eqb delimiter "")
               then strings.Index remaining delimiter else None) with
        | Some idx =>
            let commonPrefix :=
              prefix +:+ strings.take (idx + String.length delimiter) remaining in
            if default false (ws_prefixMap st !! commonPrefix) then st
            else {| ws_objects := ws_objects st;
                    ws_commonPrefixes := ws_commonPrefixes st ++ [commonPrefix];
                    ws_prefixMap := <[commonPrefix := true]> (ws_prefixMap st) |}
        | None =>
            {| ws_objects :=
                 ws_objects st ++
                 [objectInfo key (Z.of_nat (length data)) mtime
                    (loadMetadata (fst e) fs)];
               ws_commonPrefixes := ws_commonPrefixes st;
               ws_prefixMap := ws_prefixMap st |}
        end
  end.

Definition ListObjects (s : FileSystemStorage)
    (bucket prefix delimiter marker : string) (maxKeys : Z) (fs : FS)
    : result ListObjectsResult :=
  if negb (BucketExists s bucket fs) then Err "bucket does not exist"
  else
    let bucketPath := filepath.Join (basePath s) [bucket] in
    let st :=
      fold_left (visit bucketPath prefix delimiter marker fs)
        (os.Walk fs bucketPath)
        {| ws_objects := []; ws_commonPrefixes := []; ws_prefixMap := ∅ |} in
    let objects := ws_objects st in
    if (0 <? maxKeys) && (maxKeys <? Z.of_nat (length objects))
    then
      Ok {| Objects := firstn (Z.to_nat maxKeys) objects;
            CommonPrefixes := ws_commonPrefixes st;
            IsTruncated := true;
            NextMarker :=
              Key (nth (Z.to_nat (maxKeys - 1)) objects (objectInfo "" 0 0 ∅)) |}
    else
      Ok {| Objects := objects;
            CommonPrefixes := ws_commonPrefixes st;
            IsTruncated := false;
            NextMarker := "" |}.

(** *** Multipart uploads *)

(** [fmt.Sprintf("%d", time.Now().UnixNano())] *)
Definition InitiateMultipartUpload (s : FileSystemStorage) (bucket key : string)
    (metadata : gmap string string) (fs : FS) : FS * result string :=
  if negb (BucketExists s bucket fs) then (fs, Err "bucket does not exist")
  else
    let uploadID := format_d (clock fs) in
    let uploadDir := filepath.Join (basePath s) [bucket; ".uploads"; uploadID] in
    match os.MkdirAll fs uploadDir with
    | (fs1, Some e) => (fs1, Err e)
    | (fs1, None) => (fs1, Ok uploadID)
    end.

Definition partPath (uploadDir : path) (partNumber : Z) : path :=
  filepath.Join uploadDir ["part-" +:+ format_d partNumber].

Definition UploadPart (s : FileSystemStorage) (bucket key uploadID : string)
    (partNumber : Z) (data : bytes) (size : Z) (fs : FS) : FS * result PartInfo :=
  let uploadDir := filepath.Join (basePath s) [bucket; ".uploads"; uploadID] in
  match os.Create fs (partPath uploadDir partNumber) with
  | Err e => (fs, Err e)
  | Ok fs1 =>
      (os.Write fs1 (partPath uploadDir partNumber) data,
       Ok {| PartNumber := partNumber; PartETag := etag (clock fs);
             PartSize := Z.of_nat (length data) |})
  end.

(** The loop of [CompleteMultipartUpload] over the parts: each staged
    part is opened and copied to the end of the destination. Copying the
    destination into itself is outside the model. *)
Fixpoint concatenate (uploadDir objectPath : path) (parts : list CompletePart)
    (totalSize : Z) (fs : FS) : FS * result Z :=
  match parts with
  | [] => (fs, Ok totalSize)
  | part :: rest =>
      match os.ReadFile fs (partPath uploadDir (CPartNumber part)) with
      | Err e => (fs, Err e)
      | Ok data =>
          concatenate uploadDir objectPath rest
            (totalSize + Z.of_nat (length data))
            (os.Write fs objectPath data)
      end
  end.

Definition CompleteMultipartUpload (s : FileSystemStorage)
    (bucket key uploadID : string) (parts : list CompletePart) (fs : FS)
    : FS * result ObjectInfo :=
  let uploadDir := filepath.Join (basePath s) [bucket; ".uploads"; uploadID] in
  let objectPath := filepath.Join (basePath s) [bucket; key] in
  let dir := filepath.Dir objectPath in
  match os.MkdirAll fs dir with
  | (fs1, Some e) => (fs1, Err e)
  | (fs1, None) =>
      match os.Create fs1 objectPath with
      | Err e => (fs1, Err e)
      | Ok fs2 =>
          match concatenate uploadDir objectPath parts 0 fs2 with
          | (fs3, Err e) => (fs3, Err e)
          | (fs3, Ok totalSize) =>
              let mtime :=
                match files fs3 !! objectPath with
                | Some (File _ t) => t
                | _ => clock fs
                end in
              (fst (os.RemoveAll fs3 uploadDir),
               Ok (objectInfo key totalSize mtime ∅))
          end
      end
  end.

Definition AbortMultipartUpload (s : FileSystemStorage)
    (bucket key uploadID : string) (fs : FS) : FS * error :=
  let uploadDir := filepath.Join (basePath s) [bucket; ".uploads"; uploadID] in
  os.RemoveAll fs uploadDir.

(** ** Example states *)

Definition example_store : FileSystemStorage := {| basePath := ["data"] |}.

Definition empty_fs : FS := {| files := ∅; clock := 1700000000000000000 |}.

(** A state with the bucket [b] and nothing in it. *)
Definition bucket_fs : FS := fst (CreateBucket example_store "b" empty_fs).

(** [PutObject] of a text without metadata, keeping only the new state. *)
Definition put (key text : string) (fs : FS) : FS :=
  fst (PutObject map_to_list example_store "b" key (bytes_of_string text)
         (Z.of_nat (String.length text)) ∅ fs).

Definition keys (r : result ListObjectsResult) : list string :=
  match r with
  | Ok res => map Key (Objects res)
  | Err _ => []
  end.

Definition upload (uploadID : string) (n : Z) (text : string) (fs : FS) : FS :=
  fst (UploadPart example_store "b" "k" uploadID n (bytes_of_string text)
         (Z.of_nat (String.length text)) fs).

Definition part (n : Z) : CompletePart := {| CPartNumber := n; CPartETag := "" |}.

(** The bucket [b] with an upload session for the key [k] in which
    part 1 is [AAA] and part 2 is [BBB]. *)
Definition staged_fs : FS :=
  let fs1 := fst (InitiateMultipartUpload example_store "b" "k" ∅ bucket_fs) in
  upload "1700000000000000000" 2 "BBB" (upload "1700000000000000000" 1 "AAA" fs1).

(** The bucket [b] with the object [x], whose content is [data] and
    whose metadata has one entry. *)
Definition object_fs : FS :=
  fst (PutObject map_to_list example_store "b" "x" (bytes_of_string "data") 4
         {[ "x-amz-meta-a" := "1" ]} bucket_fs).

(** A key of 250 bytes: a name that the system takes, while the name of
    its sidecar file, nine bytes longer, is over [os.NAME_MAX]. *)
Definition long_key : string := string_of_list_ascii (repeat "a"%char 250).

(** A key with a NUL byte. *)
Definition nul_key : string := "a" +:+ os.NUL +:+ "b".

Definition metadata_of (r : result (reader * ObjectInfo))
    : option (gmap string string) :=
  match r with
  | Ok (_, info) => Some (Metadata info)
  | Err _ => None
  end.

Definition content (r : result (reader * ObjectInfo)) : option string :=
  match r with
  | Ok (Reader data, _) => Some (string_of_bytes data)
  | _ => None
  end.

Definition content_info (r : result (reader * ObjectInfo))
    : option (reader * ObjectInfo) :=
  match r with
  | Ok x => Some x
  | Err _ => None
  end.

(** ** Notions used in the statements *)

(** Two nodes that path resolution cannot tell apart when it passes
    through them: the same node, or two files. *)
Definition same_kind (a b : option node) : Prop :=
  a = b \/ exists d t d' t', a = Some (File d t) /\ b = Some (File d' t').

(** The proper prefixes of a path and the path itself, shortest first. *)
Fixpoint inits (p : path) : list path :=
  match p with
  | [] => [[]]
  | c :: p' => [] :: map (cons c) (inits p')
  end.

(** The longest text of a path that the system takes, in bytes, counting
    the NUL byte that ends it. *)
Definition PATH_MAX : nat := 4096.

(** The length of the text of a path: every name with the slash before
    it. *)
Definition text_length (p : path) : nat :=
  fold_right (fun c n => S (String.length c + n)) O p.

(** A path that the system takes: no name in it has a NUL byte or is
    longer than [NAME_MAX], and its text is shorter than [PATH_MAX]. *)
Definition valid_path (p : path) : bool :=
  forallb (fun c => negb (strings.Contains c os.NUL) && negb (os.too_long c)) p
  && (text_length p <? PATH_MAX)%nat.

(** No name of the path has a NUL byte or is longer than [NAME_MAX]. *)
Definition names_ok (p : path) : Prop :=
  forall c, c ∈ p -> strings.Contains c os.NUL = false /\ os.too_long c = false.

(** What [os.MkdirAll] of the directory of [p] followed by [os.Create] of
    [p] needs to succeed: no NUL byte in the path, no directory at [p], no
    file on the way to it, and no name longer than [NAME_MAX] among those
    that are not there yet. *)
Definition can_create (fs : FS) (p : path) : Prop :=
  p <> [] /\ os.has_NUL p = false
  /\ is_dir (files fs !! p) = false
  /\ (forall q, q `prefix_of` removelast p -> is_file (os.node_at (files fs) q) = false)
  /\ (forall q, q `prefix_of` p -> q <> [] -> files fs !! q = None ->
        os.too_long (List.last q "") = false).

(** A file can be created at [p]: no file stands on the way to it, no
    directory at it, and the path is one that the system takes. *)
Definition creatable (fs : FS) (p : path) : bool :=
  match p with
  | [] => false
  | _ =>
      forallb (fun q => negb (is_file (os.node_at (files fs) q))) (inits (removelast p))
      && negb (is_dir (files fs !! p))
      && valid_path p
  end.

(** The sidecar path is free for the metadata to be stored: when there is
    metadata to write no directory stands there and the path is one that
    the system takes, and when there is none no file of an earlier put
    is there. *)
Definition sidecar_free (fs : FS) (objectPath : path)
    (metadata : gmap string string) : bool :=
  if decide (base.size metadata = O)
  then negb (is_file (files fs !! metadataPath objectPath))
  else negb (is_dir (files fs !! metadataPath objectPath))
       && valid_path (metadataPath objectPath).

(** The line written for a metadata entry is read back as that entry: the
    key has no equals sign, neither key nor value has a line feed, and
    trimming white space leaves the line as it is. *)
Definition clean_entry (k v : string) : bool :=
  negb (strings.Contains k "=") && negb (strings.Contains k LF)
  && negb (strings.Contains v LF)
  && String.eqb (strings.TrimSpace (k +:+ "=" +:+ v)) (k +:+ "=" +:+ v).

(** The entries whose name carries the metadata prefix, as the request
    handler selects them. *)
Definition with_metadata_prefix (metadata : gmap string string)
    : gmap string string :=
  filter (fun kv => strings.HasPrefix (strings.ToLower (fst kv)) "x-amz-meta-" = true)
         metadata.

Definition set_line (m : gmap string string) (p : string * string)
    : gmap string string :=
  <[fst p := snd p]> m.




Definition has_key {V : Type} (k : string) (p : string * V) : bool :=
  String.eqb (fst p) k.

(** The bytes staged for a part: what reading its file in the staging
    directory gives. *)
Definition staged (fs : FS) (uploadDir : path) (p : CompletePart) : bytes :=
  match os.ReadFile fs (partPath uploadDir (CPartNumber p)) with
  | Ok data => data
  | Err _ => []
  end.

Definition all_staged (fs : FS) (uploadDir : path) (parts : list CompletePart)
    : bool :=
  forallb
    (fun p => match os.Stat fs (partPath uploadDir (CPartNumber p)) with
              | Ok (File _ _) => true
              | _ => false
              end)
    parts.

(** ** The listing, in the words of its description *)

Module Listing.

(** A key that takes no part in the listing: the sidecar files, the keys
    that do not start with a non-empty prefix, and the keys that are not
    after a non-empty marker. *)
Definition discarded (prefix marker key : string) : bool :=
  strings.HasSuffix key ".metadata"
  || (negb (String.eqb prefix "") && negb (strings.HasPrefix key prefix))
  || (negb (String.eqb marker "") && String.leb key marker).

(** The remainder of a key after the prefix it starts with: the key
    without as many bytes as the prefix has. *)
Fixpoint remainder (prefix key : string) : string :=
  match prefix, key with
  | String _ prefix', String _ key' => remainder prefix' key'
  | _, _ => key
  end.

(** The text up through and including the first occurrence of the
    delimiter, if it occurs. *)
Fixpoint through_first (delimiter text : string) : option string :=
  if String.prefix delimiter text then Some delimiter
  else match text with
       | "" => None
       | String c text' => String c <$> through_first delimiter text'
       end.

(** The common prefix of a key: the prefix and the remainder of the key up
    through and including the first delimiter in it. *)
Definition common_prefix (prefix delimiter key : string) : option string :=
  if String.eqb delimiter "" then None
  else append prefix <$> through_first delimiter (remainder prefix key).

Inductive outcome :=
| Skipped
| RolledUp (commonPrefix : string)
| Listed (info : ObjectInfo).

Definition classify (bucketPath : path) (prefix delimiter marker : string) (fs : FS)
    (e : path * node) : outcome :=
  match snd e with
  | Dir => Skipped
  | File data mtime =>
      let key := key_of bucketPath (fst e) in
      if discarded prefix marker key then Skipped
      else match common_prefix prefix delimiter key with
           | Some cp => RolledUp cp
           | None =>
               Listed (objectInfo key (Z.of_nat (length data)) mtime
                         (loadMetadata (fst e) fs))
           end
  end.

Definition listed_entry (o : outcome) : option ObjectInfo :=
  match o with Listed info => Some info | _ => None end.

Definition rolled_entry (o : outcome) : option string :=
  match o with RolledUp cp => Some cp | _ => None end.

(** The entries that are listed one by one, in the order of the walk. *)
Definition listed (bucketPath : path) (prefix delimiter marker : string) (fs : FS)
    : list ObjectInfo :=
  omap (fun e => listed_entry (classify bucketPath prefix delimiter marker fs e))
       (os.Walk fs bucketPath).

(** The common prefixes of the keys that are rolled up, one for each such
    key, in the order of the walk. *)
Definition rolled_up (bucketPath : path) (prefix delimiter marker : string) (fs : FS)
    : list string :=
  omap (fun e => rolled_entry (classify bucketPath prefix delimiter marker fs e))
       (os.Walk fs bucketPath).

(** A list without its repetitions: of equal elements the first stays. *)
Fixpoint first_occurrences (l : list string) : list string :=
  match l with
  | [] => []
  | x :: l' => x :: filter (fun y => y <> x) (first_occurrences l')
  end.

(** What the walk function does with an entry of each kind. *)
Definition apply_outcome (st : walk_state) (o : outcome) : walk_state :=
  match o with
  | Skipped => st
  | RolledUp cp =>
      if default false (ws_prefixMap st !! cp) then st
      else {| ws_objects := ws_objects st;
              ws_commonPrefixes := ws_commonPrefixes st ++ [cp];
              ws_prefixMap := <[cp := true]> (ws_prefixMap st) |}
  | Listed info =>
      {| ws_objects := ws_objects st ++ [info];
         ws_commonPrefixes := ws_commonPrefixes st;
         ws_prefixMap := ws_prefixMap st |}
  end.

(** The map of the prefixes seen holds exactly the prefixes collected. *)
Definition seen_ok (st : walk_state) : Prop :=
  forall cp, default false (ws_prefixMap st !! cp) = true <-> cp ∈ ws_commonPrefixes st.

End Listing.

(** The bucket [b] with the objects [a/x], [a/y] and [top]. *)
Definition listing_fs : FS := put "top" "3" (put "a/y" "2" (put "a/x" "1" bucket_fs)).

(** The bucket [b] with the objects [a/x], [a/y] and [b/z]. *)
Definition listing_fs' : FS := put "b/z" "3" (put "a/y" "2" (put "a/x" "1" bucket_fs)).

(** The bucket [b] with the objects [a/b/y], [a/b/z], [a/c/w], [top] and,
    with metadata, [a/x]. *)
Definition nested_fs : FS :=
  fst (PutObject map_to_list example_store "b" "a/x" (bytes_of_string "4") 1
         {[ "x-amz-meta-a" := "1" ]}
         (put "top" "5" (put "a/c/w" "3" (put "a/b/z" "2" (put "a/b/y" "1" bucket_fs))))).

Definition common_prefixes (r : result ListObjectsResult) : list string :=
  match r with
  | Ok res => CommonPrefixes res
  | Err _ => []
  end.

From Stdlib Require Import DecimalZ DecimalPos.

(** ** Buckets: deleting and listing *)

Definition name_le (a b : string * node) : Prop := str_le (fst a) (fst b).

#[global] Instance name_le_dec a b : Decision (name_le a b).
Proof. unfold name_le. apply _. Defined.

(** The entry of the directory [p] that the path of [e] names, if it is a
    path directly below [p]. *)
Definition child_of (p : path) (e : path * node) : option (string * node) :=
  if decide (fst e <> [] /\ removelast (fst e) = p)
  then Some (List.last (fst e) "", snd e)
  else None.

Definition children (m : gmap path node) (p : path) : list (string * node) :=
  omap (child_of p) (map_to_list m).

(** [os.ReadDir]: the entries of the directory, sorted by name. *)
Definition ReadDir (fs : FS) (p : path) : result (list (string * node)) :=
  match os.Stat fs p with
  | Ok Dir => Ok (merge_sort name_le (children (files fs) p))
  | Ok (File _ _) => Err os.ENOTDIR
  | Err e => Err e
  end.

Definition DeleteBucket (s : FileSystemStorage) (bucket : string) (fs : FS)
    : FS * error :=
  let bucketPath := filepath.Join (basePath s) [bucket] in
  match ReadDir fs bucketPath with
  | Err e =>
      if os.IsNotExist e then (fs, Some "bucket does not exist") else (fs, Some e)
  | Ok entries =>
      if (0 <? length entries)%nat then (fs, Some "bucket is not empty")
      else os.Remove fs bucketPath
  end.

(** [ListBuckets], the names of the buckets it returns. The creation date
    of a bucket is the time of its directory, which is not modelled. *)
Definition ListBuckets (s : FileSystemStorage) (fs : FS) : result (list string) :=
  match ReadDir fs (basePath s) with
  | Err e => if os.IsNotExist e then Ok [] else Err e
  | Ok entries =>
      Ok (omap (fun e => match snd e with
                         | Dir => Some (fst e)
                         | File _ _ => None
                         end) entries)
  end.

(** Nothing lies below the path [p]. *)
Definition nothing_below (fs : FS) (p : path) : bool :=
  bool_decide (map_Forall (fun q _ => q = p \/ ~ p `prefix_of` q) (files fs)).

(** A name that is one component of a clean path: it has no slash and is
    neither empty nor a dot nor two dots. *)
Definition plain_name (name : string) : bool :=
  negb (strings.Contains name "/") && negb (String.eqb name "")
  && negb (String.eqb name ".") && negb (String.eqb name "..").


(** The last byte of a string. *)
Fixpoint last_byte (s : string) : option ascii :=
  match s with
  | "" => None
  | String c "" => Some c
  | String _ s' => last_byte s'
  end.

Definition is_digit (c : ascii) : bool :=
  Nat.leb 48 (nat_of_ascii c) && Nat.leb (nat_of_ascii c) 57.

(** The signed-header list that the Authorization header of a request
    names: its [SignedHeaders] field, empty when there is none. *)
Definition signed_header_list (r : http.Request) : string :=
  default ""
    (parseAuthHeader (http.Get (http.Headers r) "Authorization")
       ≫= (fun parts => parts !! "SignedHeaders")).

(** The signature of a request computed with the standard HMAC-SHA256 and
    SHA-256 throughout, over the canonical request that the code builds. *)
Definition standard_signature (secret : string) (r : http.Request)
    (date region service signedHeaders : string) : string :=
  let hashed :=
    EncodeToString
      (SHA256.Sum256 (bytes_of_string (createCanonicalRequest r signedHeaders))) in
  let stringToSign :=
    "AWS4-HMAC-SHA256" +:+ LF +:+ Spec.timestamp r +:+ LF
    +:+ (date +:+ "/" +:+ region +:+ "/" +:+ service +:+ "/aws4_request") +:+ LF
    +:+ hashed in
  EncodeToString
    (HMAC.Sum (Spec.signing_key secret date region service)
       (bytes_of_string stringToSign)).

(** ** Package strconv *)

Module strconv.

(** The value of a run of decimal digits, most significant first, on top
    of [acc]; [None] when a byte is not a digit. *)
Fixpoint digits (s : string) (acc : Z) : option Z :=
  match s with
  | "" => Some acc
  | String c s' =>
      if is_digit c
      then digits s' (10 * acc + (Z.of_nat (nat_of_ascii c) - 48))
      else None
  end.

(** [strconv.Atoi] on a 64-bit platform: an optional sign and at least one
    decimal digit, the value within the range of [int]. [None] stands for
    an error, of syntax or of range. *)
Definition Atoi (s : string) : option Z :=
  let '(neg, ds) :=
    match s with
    | String "+" rest => (false, rest)
    | String "-" rest => (true, rest)
    | _ => (false, s)
    end in
  match ds with
  | "" => None
  | _ =>
      match digits ds 0 with
      | None => None
      | Some n =>
          let v := if neg then - n else n in
          if (- 2 ^ 63 <=? v) && (v <=? 2 ^ 63 - 1) then Some v else None
      end
  end.

End strconv.

(** ** internal/handlers/handlers.go *)

Module handlers.

(** The handler; its authentication provider is the AWS V4 provider, the
    only one there is. *)
Record Handler := {
  storage : FileSystemStorage;
  auth : AWSV4Auth;
  region : string;
  baseDomain : string;
  disableAuth : bool
}.

(** [Handler.authenticate] *)
Definition authenticate (h : Handler) (r : http.Request) : error :=
  if String.eqb (url.Path (http.URL r)) "/health" then None
  else if disableAuth h then None
  else if String.eqb (http.Get (http.Headers r) "Authorization") "" then None
  else Authenticate (auth h) r.

(** [url.Values.Get]: the first value of the key, or the empty string. *)
Definition query_get (values : url.Values) (key : string) : string :=
  match values !! key with
  | Some (v :: _) => v
  | _ => ""
  end.

(** What a handler answers, before it is encoded: an error with its code,
    message and status, or the result of a listing with the parameters
    that are echoed. The XML encoding, the formatting of the times and the
    headers of the response are not modelled. *)
Inductive response :=
| ErrorResponse (code message : string) (statusCode : Z)
| ListBucketResult (name prefix marker : string) (maxKeys : Z)
    (result : ListObjectsResult) (owner : string).

(** [Handler.ListObjects]; [bucket] is the variable of the route. *)
Definition ListObjects (h : Handler) (bucket : string) (r : http.Request) (fs : FS)
    : response :=
  match authenticate h r with
  | Some err => ErrorResponse "AccessDenied" err 403
  | None =>
      if negb (BucketExists (storage h) bucket fs)
      then ErrorResponse "NoSuchBucket" "Bucket does not exist" 404
      else
        let prefix := query_get (url.Query (http.URL r)) "prefix" in
        let delimiter := query_get (url.Query (http.URL r)) "delimiter" in
        let marker := query_get (url.Query (http.URL r)) "marker" in
        let maxKeysStr := query_get (url.Query (http.URL r)) "max-keys" in
        let maxKeys :=
          if String.eqb maxKeysStr "" then 1000
          else match strconv.Atoi maxKeysStr with
               | Some mk => if 0 <? mk then mk else 1000
               | None => 1000
               end in
        match ListObjects (storage h) bucket prefix delimiter marker maxKeys fs with
        | Err err => ErrorResponse "InternalError" err 500
        | Ok result =>
            ListBucketResult bucket prefix marker maxKeys result (accessKey (auth h))
        end
  end.

End handlers.

(** A handler over the example store that checks the signatures, and a
    request for a listing of at most two keys that carries no
    Authorization header. *)
Definition example_handler : handlers.Handler :=
  {| handlers.storage := example_store; handlers.auth := example_auth;
     handlers.region := "us-east-1"; handlers.baseDomain := "localhost";
     handlers.disableAuth := false |}.

Definition listing_request : http.Request :=
  {| http.Method := "GET";
     http.URL := {| url.Path := "/b"; url.RawQuery := [("max-keys", "2")] |};
     http.Host := "localhost:3000";
     http.Headers := ∅ |}.

(** * Properties *)

(** ** Test vectors and examples of the library models *)

(** Published test vectors. *)
Example sha256_empty :
  EncodeToString (SHA256.Sum256 []) =
  "e3b0c44298fc1c149afbf4c8996fb92427ae41e4649b934ca495991b7852b855".
Proof. vm_compute. reflexivity. Qed.

Example sha256_abc :
  EncodeToString (SHA256.Sum256 (bytes_of_string "abc")) =
  "ba7816bf8f01cfea414140de5dae2223b00361a396177a9cb410ff61f20015ad".
Proof. vm_compute. reflexivity. Qed.

Example sha256_two_blocks :
  EncodeToString (SHA256.Sum256 (bytes_of_string
    "abcdbcdecdefdefgefghfghighijhijkijkljklmklmnlmnomnopnopq")) =
  "248d6a61d20638b8e5c026930c3e6039a33ce45964ff2167f6ecedd419db06c1".
Proof. vm_compute. reflexivity. Qed.

(** RFC 4231, test case 2. *)
Example hmac_rfc4231_2 :
  EncodeToString (HMAC.Sum (bytes_of_string "Jefe")
                    (bytes_of_string "what do ya want for nothing?")) =
  "5bdcc146bf60754e6a042426089575c75a003f089d2739839dec58b964ec3843".
Proof. vm_compute. reflexivity. Qed.

Example split_credential :
  strings.Split "AKID/20130524/us-east-1/s3/aws4_request" "/" =
  ["AKID"; "20130524"; "us-east-1"; "s3"; "aws4_request"].
Proof. vm_compute. reflexivity. Qed.

Example split_empty : strings.Split "" "/" = [""].
Proof. reflexivity. Qed.

Example trim_space_unicode :
  strings.TrimSpace (" " +:+ String (ascii_of_nat 194) (String (ascii_of_nat 160) "a b ")
                     +:+ String (ascii_of_nat 226) (String (ascii_of_nat 128) (String (ascii_of_nat 168) "")))
  = "a b".
Proof. vm_compute. reflexivity. Qed.

Example sort_strings_ex : sort_Strings ["b"; "a.txt"; "a/x"; "B"] = ["B"; "a.txt"; "a/x"; "b"].
Proof. vm_compute. reflexivity. Qed.

Example canonical_key : http.CanonicalMIMEHeaderKey "x-amz-content-sha256" = "X-Amz-Content-Sha256".
Proof. reflexivity. Qed.

Example canonical_key_space : http.CanonicalMIMEHeaderKey "x amz" = "x amz".
Proof. reflexivity. Qed.

Example query_escape_ex : url.QueryEscape "a b/c~d" = "a+b%2Fc~d".
Proof. reflexivity. Qed.

(** ** The keyed-hash primitives (C2) *)

Lemma hmacSHA256_elsewhere (key : bytes) (data : string) :
  string_of_bytes key <> "test-key" \/ data <> "test-data" ->
  hmacSHA256 key data = HMAC.Sum key (bytes_of_string data).
Proof.
  intros H. unfold hmacSHA256.
  destruct (String.eqb_spec (string_of_bytes key) "test-key") as [Hk|Hk];
    destruct (String.eqb_spec data "test-data") as [Hd|Hd]; simpl; try reflexivity.
  destruct H; contradiction.
Qed.

Lemma sha256Hex_elsewhere (data : string) :
  data <> "test-data" ->
  sha256Hex data = EncodeToString (SHA256.Sum256 (bytes_of_string data)).
Proof.
  intros H. unfold sha256Hex.
  destruct (String.eqb_spec data "test-data"); [contradiction | reflexivity].
Qed.

(** C2 (defect of the code): on the special-cased inputs the two primitives
    return the constants written in the code, and these are not the
    HMAC-SHA256 of "test-data" under "test-key" nor the SHA-256 of
    "test-data"; so neither [hmacSHA256] nor [sha256Hex] is the standard
    function on every input. *)
Theorem C2_hard_coded_digests_differ :
  EncodeToString (hmacSHA256 (bytes_of_string "test-key") "test-data")
    = "5ddec1b9778c9fedfab82465239256e4c254b6adf37675c5390536dadbc67328"
  /\ EncodeToString (HMAC.Sum (bytes_of_string "test-key") (bytes_of_string "test-data"))
    = "21a286fd6fd9f52676007c66d0f883db46d06158c266d33fb537c23bc618e567"
  /\ sha256Hex "test-data"
    = "9e0e8a93105f51a967406ded7fb08f649a97376eb5f8ae4e2bec7d4e5b67feb8"
  /\ EncodeToString (SHA256.Sum256 (bytes_of_string "test-data"))
    = "a186000422feab857329c684e9fe91412b1a5db084100b37a98cfc95b62aa867"
  /\ ~ (forall key data, hmacSHA256 key data = HMAC.Sum key (bytes_of_string data))
  /\ ~ (forall s, sha256Hex s = EncodeToString (SHA256.Sum256 (bytes_of_string s))).
Proof.
  assert (E1 : EncodeToString (hmacSHA256 (bytes_of_string "test-key") "test-data")
    = "5ddec1b9778c9fedfab82465239256e4c254b6adf37675c5390536dadbc67328")
    by (vm_compute; reflexivity).
  assert (E2 : EncodeToString (HMAC.Sum (bytes_of_string "test-key") (bytes_of_string "test-data"))
    = "21a286fd6fd9f52676007c66d0f883db46d06158c266d33fb537c23bc618e567")
    by (vm_compute; reflexivity).
  assert (E3 : sha256Hex "test-data"
    = "9e0e8a93105f51a967406ded7fb08f649a97376eb5f8ae4e2bec7d4e5b67feb8")
    by reflexivity.
  assert (E4 : EncodeToString (SHA256.Sum256 (bytes_of_string "test-data"))
    = "a186000422feab857329c684e9fe91412b1a5db084100b37a98cfc95b62aa867")
    by (vm_compute; reflexivity).
  repeat (split; [assumption|]). split.
  - intros H. rewrite H, E2 in E1. discriminate E1.
  - intros H. rewrite H, E4 in E3. discriminate E3.
Qed.

(** ** The order of the checks in [Authenticate] (C7, C8) *)

Lemma split_fuel_length_pos fuel s sep : (0 < length (strings.split_fuel fuel s sep))%nat.
Proof. destruct fuel; simpl; [lia|]. destruct (strings.Cut s sep) as [[? ?]|]; simpl; lia. Qed.

Lemma parseAuthHeader_never_nil (h : string) : parseAuthHeader h <> None.
Proof. unfold parseAuthHeader. discriminate. Qed.

Lemma calculateSignature_terminator a r cred sh :
  length (strings.Split cred "/") = 5%nat ->
  nth 4 (strings.Split cred "/") "" <> "aws4_request" ->
  calculateSignature a r cred sh = Err "invalid credential terminator".
Proof.
  intros Hlen Hterm. unfold calculateSignature.
  destruct (strings.Split cred "/") as [|p0 [|p1 [|p2 [|p3 [|p4 [|p5 l]]]]]];
    simpl in Hlen; try discriminate.
  simpl in Hterm.
  destruct (String.eqb_spec p4 "aws4_request"); [contradiction | reflexivity].
Qed.

Lemma Authenticate_after_parse (a : AWSV4Auth) (r : http.Request)
    (parts : gmap string string) :
  http.Get (http.Headers r) "Authorization" <> "" ->
  strings.HasPrefix (http.Get (http.Headers r) "Authorization") "AWS4-HMAC-SHA256" = true ->
  parseAuthHeader (http.Get (http.Headers r) "Authorization") = Some parts ->
  Authenticate a r =
    let credential := default "" (parts !! "Credential") in
    if String.eqb credential "" then Some "missing credential"
    else
      let credentialParts := strings.Split credential "/" in
      if negb (Nat.eqb (length credentialParts) 5)
      then Some "invalid credential format"
      else
        if negb (String.eqb (nth 0 credentialParts "") (accessKey a))
        then Some "invalid access key"
        else
          match calculateSignature a r credential
                  (default "" (parts !! "SignedHeaders")) with
          | Err err => Some ("failed to calculate signature: " +:+ err)
          | Ok expectedSignature =>
              if negb (String.eqb (default "" (parts !! "Signature")) expectedSignature)
              then Some "signature mismatch"
              else None
          end.
Proof.
  intros Hne Hpre Hparse. unfold Authenticate.
  destruct (String.eqb_spec (http.Get (http.Headers r) "Authorization") "");
    [contradiction|].
  rewrite Hpre, Hparse. reflexivity.
Qed.

(** C7 (amended): once the header has the scheme prefix and its fields are
    parsed, a credential descriptor that does not split into exactly five
    components is rejected as malformed before the access key is looked at;
    a five-component descriptor with a foreign access key is rejected with
    the access-key error whatever its terminator; and a wrong terminator is
    reported (as a failure to calculate the signature) only when the access
    key is the configured one. *)
Theorem C7_credential_check_order (a : AWSV4Auth) (r : http.Request)
    (parts : gmap string string) :
  http.Get (http.Headers r) "Authorization" <> "" ->
  strings.HasPrefix (http.Get (http.Headers r) "Authorization") "AWS4-HMAC-SHA256" = true ->
  parseAuthHeader (http.Get (http.Headers r) "Authorization") = Some parts ->
  let components := strings.Split (default "" (parts !! "Credential")) "/" in
  (length components <> 5%nat ->
     fails_with a r MalformedCredential)
  /\ (length components = 5%nat -> nth 0 components "" <> accessKey a ->
     Authenticate a r = Some "invalid access key"
     /\ fails_with a r AccessKeyMismatch)
  /\ (length components = 5%nat -> nth 0 components "" = accessKey a ->
      nth 4 components "" <> "aws4_request" ->
     Authenticate a r = Some "failed to calculate signature: invalid credential terminator"
     /\ fails_with a r MalformedCredential).
Proof.
  intros Hne Hpre Hparse components. unfold fails_with.
  rewrite (Authenticate_after_parse a r parts Hne Hpre Hparse). cbv zeta.
  fold components.
  assert (Hcred : length components = 5%nat ->
                  String.eqb (default "" (parts !! "Credential")) "" = false).
  { intros Hlen. destruct (String.eqb_spec (default "" (parts !! "Credential")) "") as [E|]; [|reflexivity].
    subst components. rewrite E in Hlen. discriminate Hlen. }
  split; [|split].
  - intros Hlen.
    destruct (String.eqb_spec (default "" (parts !! "Credential")) "").
    + eexists; split; reflexivity.
    + destruct (Nat.eqb_spec (length components) 5); [contradiction|].
      eexists; split; reflexivity.
  - intros Hlen Hkey. rewrite (Hcred Hlen), Hlen. simpl.
    destruct (String.eqb_spec (nth 0 components "") (accessKey a)); [contradiction|].
    simpl. split; [reflexivity|]. eexists; split; reflexivity.
  - intros Hlen Hkey Hterm. rewrite (Hcred Hlen), Hlen. simpl.
    destruct (String.eqb_spec (nth 0 components "") (accessKey a)); [|contradiction].
    simpl. subst components.
    rewrite calculateSignature_terminator by assumption.
    split; [reflexivity|]. eexists; split; reflexivity.
Qed.

(** A request with a wrong terminator and the configured access key. *)
Lemma C7_credential_check_order_witness :
  Authenticate example_auth
    (authorized_request
       "AWS4-HMAC-SHA256 Credential=AKID/20130524/us-east-1/s3/aws4, SignedHeaders=host, Signature=00")
  = Some "failed to calculate signature: invalid credential terminator".
Proof.
  refine (proj1 (proj2 (proj2 (C7_credential_check_order example_auth
    (authorized_request
       "AWS4-HMAC-SHA256 Credential=AKID/20130524/us-east-1/s3/aws4, SignedHeaders=host, Signature=00")
    _ _ _ eq_refl)) _ _ _)).
  - vm_compute. discriminate.
  - vm_compute. reflexivity.
  - vm_compute. reflexivity.
  - vm_compute. reflexivity.
  - vm_compute. discriminate.
Defined.

(** C7 (counterexample): the header parses and the terminator of its
    credential descriptor is not the fixed constant, yet the request is
    rejected for its access key, not as a malformed credential. *)
Lemma C7_counterexample :
  (parseAuthHeader
     "AWS4-HMAC-SHA256 Credential=OTHER/20130524/us-east-1/s3/aws4, SignedHeaders=host, Signature=00"
     ≫= (.!! "Credential"))
  = Some "OTHER/20130524/us-east-1/s3/aws4"
  /\ strings.Split "OTHER/20130524/us-east-1/s3/aws4" "/"
     = ["OTHER"; "20130524"; "us-east-1"; "s3"; "aws4"]
  /\ Authenticate example_auth
       (authorized_request
          "AWS4-HMAC-SHA256 Credential=OTHER/20130524/us-east-1/s3/aws4, SignedHeaders=host, Signature=00")
     = Some "invalid access key"
  /\ failure_of "invalid access key" = Some AccessKeyMismatch
  /\ ~ fails_with example_auth
       (authorized_request
          "AWS4-HMAC-SHA256 Credential=OTHER/20130524/us-east-1/s3/aws4, SignedHeaders=host, Signature=00")
       MalformedCredential.
Proof.
  split; [vm_compute; reflexivity|].
  split; [vm_compute; reflexivity|].
  split; [vm_compute; reflexivity|].
  split; [vm_compute; reflexivity|].
  intros [msg [H1 H2]].
  assert (E : Authenticate example_auth
       (authorized_request
          "AWS4-HMAC-SHA256 Credential=OTHER/20130524/us-east-1/s3/aws4, SignedHeaders=host, Signature=00")
     = Some "invalid access key") by (vm_compute; reflexivity).
  rewrite E in H1. injection H1 as <-. discriminate H2.
Qed.

(** C8 (defect of the code): [parseAuthHeader] never reports a failure, so
    the test for a [nil] map in [Authenticate] never fires. A header with
    the scheme token and no key=value field is rejected for a missing
    credential, and one that carries a credential but neither signed
    headers nor a signature is rejected for a signature mismatch. *)
Theorem C8_unparsable_fields_not_reported_as_malformed_header :
  (forall h, parseAuthHeader h <> None)
  /\ Authenticate example_auth (authorized_request "AWS4-HMAC-SHA256 garbage")
     = Some "missing credential"
  /\ (parseAuthHeader "AWS4-HMAC-SHA256 Credential=AKID/20130524/us-east-1/s3/aws4_request"
      ≫= (.!! "Signature")) = None
  /\ Authenticate example_auth
       (authorized_request "AWS4-HMAC-SHA256 Credential=AKID/20130524/us-east-1/s3/aws4_request")
     = Some "signature mismatch"
  /\ ~ fails_with example_auth
       (authorized_request "AWS4-HMAC-SHA256 Credential=AKID/20130524/us-east-1/s3/aws4_request")
       MalformedAuthorization.
Proof.
  split; [exact parseAuthHeader_never_nil|].
  split; [vm_compute; reflexivity|].
  split; [vm_compute; reflexivity|].
  split; [vm_compute; reflexivity|].
  intros [msg [H1 H2]].
  assert (E : Authenticate example_auth
       (authorized_request "AWS4-HMAC-SHA256 Credential=AKID/20130524/us-east-1/s3/aws4_request")
     = Some "signature mismatch") by (vm_compute; reflexivity).
  rewrite E in H1. injection H1 as <-. discriminate H2.
Qed.

(** ** Lemmas on the string functions *)

Section StringLemmas.

Local Open Scope nat_scope.

Lemma sprefix_nil (s : string) : String.prefix "" s = true.
Proof. destruct s; reflexivity. Qed.

Lemma sprefix_cons c p d s :
  String.prefix (String c p) (String d s) = bool_decide (c = d) && String.prefix p s.
Proof.
  simpl. destruct (ascii_dec c d) as [->|Hne].
  - rewrite bool_decide_eq_true_2 by reflexivity. reflexivity.
  - rewrite bool_decide_eq_false_2 by assumption. reflexivity.
Qed.

Lemma sprefix_length p s : String.prefix p s = true -> String.length p <= String.length s.
Proof.
  revert s. induction p as [|c p IH]; intros [|d s]; simpl; try lia; try discriminate.
  destruct (ascii_dec c d); [|discriminate]. intros H. apply IH in H. lia.
Qed.

Lemma app_nil_l_s (b : string) : "" +:+ b = b.
Proof. reflexivity. Qed.

Lemma app_cons_s c (a b : string) : String c a +:+ b = String c (a +:+ b).
Proof. reflexivity. Qed.

Lemma sprefix_app p s : String.prefix p (p +:+ s) = true.
Proof.
  induction p as [|c p IH]; rewrite ?app_nil_l_s, ?app_cons_s; simpl;
    [apply sprefix_nil|].
  destruct (ascii_dec c c); [assumption | contradiction].
Qed.

Lemma slength_app (a b : string) :
  String.length (a +:+ b) = String.length a + String.length b.
Proof. induction a; rewrite ?app_nil_l_s, ?app_cons_s; simpl; congruence. Qed.

Lemma app_assoc_s (a b c : string) : (a +:+ b) +:+ c = a +:+ (b +:+ c).
Proof. induction a; rewrite ?app_nil_l_s, ?app_cons_s; congruence. Qed.

Lemma app_nil_r_s (a : string) : a +:+ "" = a.
Proof. induction a; rewrite ?app_nil_l_s, ?app_cons_s; congruence. Qed.

Lemma take_app (a b : string) : strings.take (String.length a) (a +:+ b) = a.
Proof.
  induction a; rewrite ?app_nil_l_s, ?app_cons_s; simpl;
    [destruct b; reflexivity | congruence].
Qed.

Lemma drop_app (a b : string) : strings.drop (String.length a) (a +:+ b) = b.
Proof.
  induction a; rewrite ?app_nil_l_s, ?app_cons_s; simpl;
    [destruct b; reflexivity | assumption].
Qed.

Lemma drop_add n m s : strings.drop (n + m) s = strings.drop m (strings.drop n s).
Proof.
  revert s. induction n as [|n IH]; intros s; simpl.
  - destruct m, s; reflexivity.
  - destruct s; [destruct m; reflexivity | apply IH].
Qed.

Lemma drop_length n s : String.length (strings.drop n s) = String.length s - n.
Proof.
  revert s. induction n as [|n IH]; intros [|c s]; simpl; try lia. apply IH.
Qed.

Lemma Index_bound s sep i :
  strings.Index s sep = Some i -> i + String.length sep <= String.length s.
Proof.
  revert i. induction s as [|c s IH]; intros i; cbn [strings.Index].
  - destruct sep; simpl; [intros [= <-]; simpl; lia | discriminate].
  - destruct (String.prefix sep (String c s)) eqn:Hp.
    + intros [= <-]. apply sprefix_length in Hp. simpl in *. lia.
    + destruct (strings.Index s sep) as [j|]; simpl; [|discriminate].
      intros [= <-]. specialize (IH j eq_refl). simpl. lia.
Qed.

(** The separator does not occur in [a], nor across the end of [a] when
    [a] is followed by the separator: it is one byte, or two different
    bytes. *)
Lemma Index_app_1 a c r :
  strings.Contains a (String c "") = false ->
  strings.Index (a +:+ String c r) (String c "") = Some (String.length a).
Proof.
  unfold strings.Contains. induction a as [|x a IH]; intros H.
  - rewrite app_nil_l_s. simpl.
    destruct (ascii_dec c c); [|contradiction]. rewrite sprefix_nil. reflexivity.
  - rewrite app_cons_s.
    cbn [strings.Index] in *.
    rewrite sprefix_cons, sprefix_nil, andb_true_r in *.
    destruct (bool_decide (c = x)); [discriminate H|].
    destruct (strings.Index a (String c "")); [discriminate H|].
    rewrite IH by reflexivity. reflexivity.
Qed.


Lemma Cut_app_1 a c r :
  strings.Contains a (String c "") = false ->
  strings.Cut (a +:+ String c r) (String c "") = Some (a, r).
Proof.
  intros H. unfold strings.Cut. rewrite Index_app_1 by assumption.
  rewrite take_app, drop_add, drop_app. reflexivity.
Qed.


Lemma Cut_none s sep : strings.Contains s sep = false -> strings.Cut s sep = None.
Proof.
  unfold strings.Contains, strings.Cut.
  destruct (strings.Index s sep); [discriminate | reflexivity].
Qed.

Lemma Cut_shorter s sep b a :
  sep <> "" -> strings.Cut s sep = Some (b, a) -> String.length a < String.length s.
Proof.
  intros Hsep. unfold strings.Cut.
  destruct (strings.Index s sep) as [i|] eqn:Hi; [|discriminate].
  intros [= <- <-]. apply Index_bound in Hi. rewrite drop_length.
  destruct sep; [contradiction|]. simpl in *. lia.
Qed.

Lemma split_fuel_enough sep f1 f2 s :
  sep <> "" -> String.length s <= f1 -> String.length s <= f2 ->
  strings.split_fuel f1 s sep = strings.split_fuel f2 s sep.
Proof.
  intros Hsep. revert f2 s. induction f1 as [|f1 IH]; intros f2 s H1 H2.
  - destruct s; [|simpl in H1; lia].
    destruct f2; simpl; [reflexivity|].
    unfold strings.Cut. destruct sep; [contradiction | reflexivity].
  - destruct f2 as [|f2].
    + destruct s; [|simpl in H2; lia]. simpl.
      unfold strings.Cut. destruct sep; [contradiction | reflexivity].
    + simpl. destruct (strings.Cut s sep) as [[b a]|] eqn:Hc; [|reflexivity].
      apply Cut_shorter in Hc; [|assumption].
      f_equal. apply IH; lia.
Qed.

Lemma Split_cut s sep b a :
  sep <> "" -> strings.Cut s sep = Some (b, a) ->
  strings.Split s sep = b :: strings.Split a sep.
Proof.
  intros Hsep Hc. unfold strings.Split.
  pose proof (Cut_shorter _ _ _ _ Hsep Hc) as Hlt.
  destruct (String.length s) as [|n] eqn:Hn; [lia|].
  simpl. rewrite Hc. f_equal. apply split_fuel_enough; [assumption|lia|lia].
Qed.

Lemma Split_none s sep : strings.Contains s sep = false -> strings.Split s sep = [s].
Proof.
  intros H. unfold strings.Split. destruct (String.length s); simpl; [reflexivity|].
  rewrite Cut_none by assumption. reflexivity.
Qed.

Lemma Split_app_1 a c r :
  strings.Contains a (String c "") = false ->
  strings.Split (a +:+ String c r) (String c "") = a :: strings.Split r (String c "").
Proof. intros H. apply Split_cut; [discriminate|]. apply Cut_app_1, H. Qed.



End StringLemmas.

(** ** The byte-wise order on strings and sorting *)

Lemma leb_cons c1 s1 c2 s2 :
  String.leb (String c1 s1) (String c2 s2) =
  match N.compare (N_of_ascii c1) (N_of_ascii c2) with
  | Lt => true
  | Eq => String.leb s1 s2
  | Gt => false
  end.
Proof.
  unfold String.leb. simpl. unfold Ascii.compare.
  destruct (N.compare (N_of_ascii c1) (N_of_ascii c2)); reflexivity.
Qed.

Lemma leb_trans s1 s2 s3 :
  String.leb s1 s2 = true -> String.leb s2 s3 = true -> String.leb s1 s3 = true.
Proof.
  revert s2 s3. induction s1 as [|c1 s1 IH]; intros [|c2 s2] [|c3 s3];
    try reflexivity; try discriminate.
  rewrite !leb_cons.
  destruct (N.compare_spec (N_of_ascii c1) (N_of_ascii c2)) as [E12|L12|G12];
    destruct (N.compare_spec (N_of_ascii c2) (N_of_ascii c3)) as [E23|L23|G23];
    destruct (N.compare_spec (N_of_ascii c1) (N_of_ascii c3)) as [E13|L13|G13];
    try reflexivity; try discriminate; try lia.
  apply IH.
Qed.

#[global] Instance str_le_trans : Transitive str_le.
Proof. intros a b c. apply leb_trans. Qed.

#[global] Instance str_le_total : Total str_le.
Proof. intros a b. apply String.leb_total. Qed.

#[global] Instance str_le_antisym : AntiSymm eq str_le.
Proof. intros a b. apply String.leb_antisym. Qed.


Lemma sort_Strings_sorted l : StronglySorted str_le (sort_Strings l).
Proof. apply StronglySorted_merge_sort; apply _. Qed.

Lemma sort_Strings_perm l : sort_Strings l ≡ₚ l.
Proof. apply merge_sort_Permutation. Qed.

(** Sorting does not depend on the order in which a map is ranged over. *)
Lemma sort_Strings_order_irrelevant l1 l2 :
  l1 ≡ₚ l2 -> sort_Strings l1 = sort_Strings l2.
Proof.
  intros H. apply (StronglySorted_unique str_le); try apply sort_Strings_sorted.
  rewrite !sort_Strings_perm. assumption.
Qed.

Lemma flat_map_ext_elem {A B : Type} (f g : A -> list B) (l : list A) :
  (forall a, a ∈ l -> f a = g a) -> flat_map f l = flat_map g l.
Proof.
  induction l as [|a l IH]; intros H; [reflexivity|]. simpl.
  rewrite (H a) by apply list_elem_of_here.
  rewrite IH; [reflexivity|]. intros b Hb. apply H, list_elem_of_further, Hb.
Qed.

(** ** The specification's stable sort *)

Section SortByKey.

Context {V : Type}.
Implicit Types (p q : string * V) (l : list (string * V)) (k : string).

Lemma has_key_true k p : has_key k p = true <-> fst p = k.
Proof. apply String.eqb_eq. Qed.

Lemma has_key_false k p : has_key k p = false <-> fst p <> k.
Proof. apply String.eqb_neq. Qed.











End SortByKey.

(** ** The canonical query string of the code is that of the specification *)

Lemma add_pair_lookup (l : list (string * string)) (m : url.Values) (k : string) :
  fold_left url.add_pair l m !! k =
  match map snd (List.filter (has_key k) l) with
  | [] => m !! k
  | vs => Some (default [] (m !! k) ++ vs)
  end.
Proof.
  revert m. induction l as [|p l IH]; intros m; [reflexivity|].
  cbn [fold_left List.filter]. rewrite IH. unfold url.add_pair.
  destruct (has_key k p) eqn:E.
  - apply has_key_true in E. rewrite E, lookup_insert_eq. cbn [map default].
    destruct (map snd (List.filter (has_key k) l)) as [|v vs]; [reflexivity|].
    unfold id. rewrite <- app_assoc. reflexivity.
  - apply has_key_false in E. rewrite lookup_insert_ne by exact E. reflexivity.
Qed.






(** A string without a byte starts with another byte and goes on without it. *)
Lemma Contains_cons_ne c s c1 sep :
  c <> c1 ->
  strings.Contains (String c s) (String c1 sep) = strings.Contains s (String c1 sep).
Proof.
  intros Hne. unfold strings.Contains. cbn [strings.Index].
  rewrite sprefix_cons, bool_decide_eq_false_2 by congruence. simpl.
  destruct (strings.Index s (String c1 sep)); reflexivity.
Qed.

Lemma Contains_cons_inv (c d : ascii) (s : string) :
  strings.Contains (String c s) (String d "") = false ->
  c <> d /\ strings.Contains s (String d "") = false.
Proof.
  intros H. destruct (decide (c = d)) as [->|Hne].
  - exfalso. unfold strings.Contains in H. cbn [strings.Index] in H.
    rewrite sprefix_cons, bool_decide_eq_true_2, sprefix_nil in H by reflexivity.
    discriminate H.
  - split; [exact Hne|]. rewrite Contains_cons_ne in H by exact Hne. exact H.
Qed.




(** ** The canonical headers of the code are those of the specification *)




Lemma set_line_to_list (lines : list (string * string)) (m : gmap string string) :
  NoDup (map fst lines) ->
  Forall (fun p => m !! fst p = None) lines ->
  map_to_list (fold_left set_line lines m) ≡ₚ lines ++ map_to_list m.
Proof.
  revert m. induction lines as [|p lines IH]; intros m Hnd Hm; [reflexivity|].
  cbn [map] in Hnd. apply NoDup_cons in Hnd as [Hp Hnd].
  inversion Hm as [|? ? Hmp Hm']; subst.
  cbn [fold_left]. rewrite IH.
  - unfold set_line. rewrite map_to_list_insert by exact Hmp.
    rewrite <- Permutation_middle. destruct p; reflexivity.
  - exact Hnd.
  - rewrite Forall_forall in *. intros q Hq. unfold set_line.
    rewrite lookup_insert_ne; [apply Hm', Hq|].
    intros E. apply Hp. rewrite E. apply list_elem_of_fmap. exists q. split; [reflexivity | exact Hq].
Qed.




(** ** The special cases of the hash primitives are not met while signing *)

Lemma fold_left_compress_length (bs : list (list Z)) (h : list Z) :
  length h = 8%nat -> length (fold_left SHA256.compress bs h) = 8%nat.
Proof.
  revert h. induction bs as [|b bs IH]; intros h Hh; [exact Hh|].
  simpl. apply IH. reflexivity.
Qed.

Lemma be_bytes_length n x : length (SHA256.be_bytes n x) = n.
Proof. induction n; simpl; congruence. Qed.

Lemma Sum256_length (msg : bytes) : length (SHA256.Sum256 msg) = 32%nat.
Proof.
  unfold SHA256.Sum256, SHA256.digest_words. rewrite length_map.
  pose proof (fold_left_compress_length
    (SHA256.blocks (length (SHA256.pad (map Z_of_byte msg)) / 64)
       (SHA256.pad (map Z_of_byte msg))) SHA256.H0 eq_refl) as H.
  destruct (fold_left _ _ _) as [|a [|b [|c [|d [|e [|f [|g [|h [|i l]]]]]]]]];
    try discriminate H.
  reflexivity.
Qed.

Lemma HMAC_Sum_length (key data : bytes) : length (HMAC.Sum key data) = 32%nat.
Proof. apply Sum256_length. Qed.

Lemma hmacSHA256_long_key (key : bytes) (data : string) :
  length key <> 8%nat -> hmacSHA256 key data = HMAC.Sum key (bytes_of_string data).
Proof.
  intros H. apply hmacSHA256_elsewhere. left. intros E.
  apply H. rewrite <- (list_byte_of_string_of_list_byte key).
  unfold string_of_bytes in E. rewrite E. reflexivity.
Qed.

Lemma hmacSHA256_secret (secret data : string) :
  hmacSHA256 (bytes_of_string ("AWS4" +:+ secret)) data
  = HMAC.Sum (bytes_of_string ("AWS4" +:+ secret)) (bytes_of_string data).
Proof.
  apply hmacSHA256_elsewhere. left.
  unfold string_of_bytes, bytes_of_string. rewrite string_of_list_byte_of_string.
  discriminate.
Qed.

Lemma getSigningKey_spec (a : AWSV4Auth) (date region service : string) :
  getSigningKey a date region service
  = Spec.signing_key (secretKey a) date region service.
Proof.
  unfold getSigningKey, Spec.signing_key.
  rewrite hmacSHA256_secret.
  do 3 (rewrite (hmacSHA256_long_key (HMAC.Sum _ _))
          by (rewrite HMAC_Sum_length; discriminate)).
  reflexivity.
Qed.

Lemma Index_line_feed (a b : string) : strings.Index (a +:+ LF +:+ b) LF <> None.
Proof.
  induction a as [|c a IH].
  - rewrite app_nil_l_s. unfold LF at 1 2. rewrite app_cons_s.
    cbn [strings.Index]. rewrite sprefix_cons, sprefix_nil.
    rewrite bool_decide_eq_true_2 by reflexivity. discriminate.
  - rewrite app_cons_s. cbn [strings.Index].
    destruct (String.prefix LF (String c (a +:+ LF +:+ b))); [discriminate|].
    destruct (strings.Index (a +:+ LF +:+ b) LF); [discriminate | contradiction].
Qed.

Lemma sha256Hex_lines (a b : string) :
  sha256Hex (a +:+ LF +:+ b)
  = EncodeToString (SHA256.Sum256 (bytes_of_string (a +:+ LF +:+ b))).
Proof.
  apply sha256Hex_elsewhere. intros E.
  apply (Index_line_feed a b). rewrite E. reflexivity.
Qed.



(** ** Parsing the Authorization header a client sends *)

Lemma Contains_app_1 a b c :
  strings.Contains a (String c "") = false ->
  strings.Contains b (String c "") = false ->
  strings.Contains (a +:+ b) (String c "") = false.
Proof.
  intros Ha Hb. induction a as [|x a IH]; [exact Hb|].
  rewrite app_cons_s. unfold strings.Contains in *. cbn [strings.Index] in *.
  rewrite sprefix_cons, sprefix_nil, andb_true_r in *.
  destruct (bool_decide (c = x)); [discriminate Ha|].
  destruct (strings.Index a (String c "")); [discriminate Ha|].
  destruct (strings.Index (a +:+ b) (String c "")); [discriminate IH; reflexivity|].
  reflexivity.
Qed.










(** ** Requests signed as the specification describes (C1) *)




(** ** Path resolution *)

Lemma same_kind_refl a : same_kind a a.
Proof. left. reflexivity. Qed.

Lemma resolve_agree (m m' : gmap path node) (cur rest : path) :
  (forall q, q `prefix_of` rest -> q <> rest ->
     same_kind (os.node_at m (cur ++ q)) (os.node_at m' (cur ++ q))) ->
  os.node_at m (cur ++ rest) = os.node_at m' (cur ++ rest) ->
  os.resolve m cur rest = os.resolve m' cur rest.
Proof.
  revert cur. induction rest as [|c rest IH]; intros cur Hpre Hend.
  - simpl. rewrite app_nil_r in Hend. rewrite Hend. reflexivity.
  - cbn [os.resolve].
    pose proof (Hpre [] (prefix_nil _) ltac:(discriminate)) as H0.
    rewrite app_nil_r in H0.
    assert (Hrec : os.resolve m (cur ++ [c]) rest = os.resolve m' (cur ++ [c]) rest).
    { apply IH.
      - intros q Hq Hne. rewrite <- app_assoc. apply Hpre.
        + apply prefix_cons, Hq.
        + intros [= E]. exact (Hne E).
      - rewrite <- !app_assoc. exact Hend. }
    destruct H0 as [H0 | (d & t & d' & t' & Ha & Hb)].
    + rewrite <- H0. destruct (os.node_at m cur) as [[|]|]; [reflexivity | exact Hrec | reflexivity].
    + rewrite Ha, Hb. reflexivity.
Qed.

Lemma resolve_ok (m : gmap path node) (cur rest : path) (n : node) :
  (forall q, q `prefix_of` rest -> q <> rest -> os.node_at m (cur ++ q) = Some Dir) ->
  os.node_at m (cur ++ rest) = Some n ->
  os.resolve m cur rest = Ok n.
Proof.
  revert cur. induction rest as [|c rest IH]; intros cur Hpre Hend.
  - simpl. rewrite app_nil_r in Hend. rewrite Hend. reflexivity.
  - cbn [os.resolve].
    pose proof (Hpre [] (prefix_nil _) ltac:(discriminate)) as H0.
    rewrite app_nil_r in H0. rewrite H0. apply IH.
    + intros q Hq Hne. rewrite <- app_assoc. apply Hpre; [apply prefix_cons, Hq | intros [= E]; exact (Hne E)].
    + rewrite <- app_assoc. exact Hend.
Qed.

Lemma resolve_ok_inv (m : gmap path node) (cur rest : path) (n : node) :
  os.resolve m cur rest = Ok n ->
  os.node_at m (cur ++ rest) = Some n
  /\ forall q, q `prefix_of` rest -> q <> rest -> os.node_at m (cur ++ q) = Some Dir.
Proof.
  revert cur. induction rest as [|c rest IH]; intros cur H.
  - simpl in H. rewrite app_nil_r.
    destruct (os.node_at m cur); [|discriminate]. injection H as ->.
    split; [reflexivity|]. intros q Hq Hne. apply prefix_nil_inv in Hq. contradiction.
  - cbn [os.resolve] in H.
    destruct (os.node_at m cur) as [[|]|] eqn:E; try discriminate.
    apply IH in H as [Hend Hpre]. rewrite <- app_assoc in Hend.
    split; [exact Hend|].
    intros q Hq Hne. destruct q as [|c' q].
    + rewrite app_nil_r. exact E.
    + apply prefix_cons_inv_1 in Hq as Hc. subst c'.
      apply prefix_cons_inv_2 in Hq.
      specialize (Hpre q Hq ltac:(intros E'; apply Hne; rewrite E'; reflexivity)). rewrite <- app_assoc in Hpre. exact Hpre.
Qed.

Lemma has_NUL_app (p q : path) :
  os.has_NUL (p ++ q) = os.has_NUL p || os.has_NUL q.
Proof. unfold os.has_NUL. apply existsb_app. Qed.

Lemma has_NUL_prefix (q p : path) :
  q `prefix_of` p -> os.has_NUL p = false -> os.has_NUL q = false.
Proof.
  intros [r ->]. rewrite has_NUL_app. intros H. apply orb_false_iff in H. apply H.
Qed.

Lemma has_NUL_removelast (p : path) :
  os.has_NUL p = false -> os.has_NUL (removelast p) = false.
Proof.
  destruct (decide (p = [])) as [->|Hp]; [trivial|].
  rewrite (app_removelast_last "" Hp) at 1. rewrite has_NUL_app.
  intros H. apply orb_false_iff in H. apply H.
Qed.

Lemma Stat_NUL (fs : FS) (p : path) (n : node) :
  os.Stat fs p = Ok n -> os.has_NUL p = false.
Proof. unfold os.Stat. destruct (os.has_NUL p); [discriminate | reflexivity]. Qed.

Lemma Stat_resolve (fs : FS) (p : path) :
  os.has_NUL p = false -> os.Stat fs p = os.resolve (files fs) [] p.
Proof. unfold os.Stat. intros ->. reflexivity. Qed.

Lemma Stat_ok (fs : FS) (p : path) (n : node) :
  os.Stat fs p = Ok n ->
  os.node_at (files fs) p = Some n
  /\ forall q, q `prefix_of` p -> q <> p -> os.node_at (files fs) q = Some Dir.
Proof.
  intros H. pose proof (Stat_NUL _ _ _ H) as Hn. rewrite Stat_resolve in H by exact Hn.
  apply resolve_ok_inv in H. exact H.
Qed.

Lemma Stat_intro (fs : FS) (p : path) (n : node) :
  os.has_NUL p = false ->
  os.node_at (files fs) p = Some n ->
  (forall q, q `prefix_of` p -> q <> p -> os.node_at (files fs) q = Some Dir) ->
  os.Stat fs p = Ok n.
Proof. intros Hn Hend Hpre. rewrite Stat_resolve by exact Hn. apply resolve_ok; assumption. Qed.

Lemma Stat_agree (fs fs' : FS) (p : path) :
  (forall q, q `prefix_of` p -> q <> p ->
     same_kind (os.node_at (files fs) q) (os.node_at (files fs') q)) ->
  os.node_at (files fs) p = os.node_at (files fs') p ->
  os.Stat fs p = os.Stat fs' p.
Proof.
  intros H1 H2. unfold os.Stat. destruct (os.has_NUL p); [reflexivity|].
  apply resolve_agree; assumption.
Qed.

(** ** The names that the system takes *)

Lemma valid_path_names (p : path) : valid_path p = true -> names_ok p.
Proof.
  unfold valid_path. intros H. apply andb_true_iff in H as [H _].
  rewrite forallb_forall in H. intros c Hc.
  apply list_elem_of_In, H in Hc. apply andb_true_iff in Hc as [H1 H2].
  apply negb_true_iff in H1, H2. split; assumption.
Qed.

Lemma names_ok_NUL (p : path) : names_ok p -> os.has_NUL p = false.
Proof.
  intros H. unfold os.has_NUL. apply not_true_is_false. intros E.
  apply existsb_exists in E as (c & Hc & E). apply list_elem_of_In, H in Hc as [Hc _].
  congruence.
Qed.

Lemma valid_path_NUL (p : path) : valid_path p = true -> os.has_NUL p = false.
Proof. intros H. apply names_ok_NUL, valid_path_names, H. Qed.

Lemma names_ok_prefix (q p : path) : q `prefix_of` p -> names_ok p -> names_ok q.
Proof. intros [r ->] H c Hc. apply H. apply elem_of_app. left. exact Hc. Qed.

Lemma names_ok_cons (c : string) (p : path) :
  names_ok (c :: p) ->
  strings.Contains c os.NUL = false /\ os.too_long c = false /\ names_ok p.
Proof.
  intros H. destruct (H c ltac:(left)) as [H1 H2]. repeat split; try assumption.
  - apply H. right. assumption.
  - apply H. right. assumption.
Qed.

Lemma names_ok_last (p : path) : p <> [] -> names_ok p -> os.too_long (List.last p "") = false.
Proof.
  intros Hp H. apply (H (List.last p "")).
  rewrite (app_removelast_last "" Hp) at 2. apply elem_of_app. right. left.
Qed.

(** ** [MkdirAll] *)

Lemma mkdir_all_lookup (m : gmap path node) (cur rest : path)
    (m' : gmap path node) (e : error) (p : path) :
  os.mkdir_all m cur rest = (m', e) ->
  m' !! p = m !! p
  \/ (m !! p = None /\ m' !! p = Some Dir
      /\ exists q, q `prefix_of` rest /\ q <> [] /\ p = cur ++ q).
Proof.
  revert m cur. induction rest as [|c rest IH]; intros m cur H.
  - injection H as <- <-. left. reflexivity.
  - cbn [os.mkdir_all] in H.
    destruct (strings.Contains c os.NUL); [injection H as <- <-; left; reflexivity|].
    destruct (m !! (cur ++ [c])) as [[|]|] eqn:E.
    + injection H as <- <-. left. reflexivity.
    + apply IH in H as [H | (Hn & Hd & q & Hq & Hne & ->)]; [left; exact H|].
      right. split; [exact Hn|]. split; [exact Hd|].
      exists (c :: q). split; [apply prefix_cons, Hq|]. split; [discriminate|].
      rewrite <- app_assoc. reflexivity.
    + destruct (os.too_long c); [injection H as <- <-; left; reflexivity|].
      apply IH in H as [H | (Hn & Hd & q & Hq & Hne & ->)].
      * destruct (decide (p = cur ++ [c])) as [->|Hp].
        -- right. rewrite H, lookup_insert_eq. split; [exact E|]. split; [reflexivity|].
           exists [c]. split; [apply prefix_cons, prefix_nil|]. split; [discriminate | reflexivity].
        -- left. rewrite H. apply lookup_insert_ne. congruence.
      * right.
        destruct (decide (cur ++ [c] = (cur ++ [c]) ++ q)) as [Heq|Hneq].
        { rewrite <- Heq in Hn. rewrite lookup_insert_eq in Hn. discriminate Hn. }
        rewrite lookup_insert_ne in Hn by exact Hneq.
        split; [exact Hn|]. split; [exact Hd|].
        exists (c :: q). split; [apply prefix_cons, Hq|]. split; [discriminate|].
        rewrite <- app_assoc. reflexivity.
Qed.

Lemma mkdir_all_keeps (m : gmap path node) (cur rest : path)
    (m' : gmap path node) (e : error) (p : path) (n : node) :
  os.mkdir_all m cur rest = (m', e) -> m !! p = Some n -> m' !! p = Some n.
Proof.
  intros H Hp. destruct (mkdir_all_lookup _ _ _ _ _ p H) as [E | (Hn & _)]; congruence.
Qed.

Lemma mkdir_all_dirs (m : gmap path node) (cur rest : path) (m' : gmap path node) :
  os.mkdir_all m cur rest = (m', None) ->
  forall q, q `prefix_of` rest -> q <> [] -> m' !! (cur ++ q) = Some Dir.
Proof.
  revert m cur. induction rest as [|c rest IH]; intros m cur H q Hq Hne.
  - apply prefix_nil_inv in Hq. contradiction.
  - cbn [os.mkdir_all] in H.
    destruct q as [|c' q]; [contradiction|].
    apply prefix_cons_inv_1 in Hq as Hc. subst c'. apply prefix_cons_inv_2 in Hq.
    assert (Hhead : forall m0, os.mkdir_all m0 (cur ++ [c]) rest = (m', None) ->
                     m0 !! (cur ++ [c]) = Some Dir -> m' !! (cur ++ c :: q) = Some Dir).
    { intros m0 H0 Hd. destruct q as [|c2 q].
      - eapply mkdir_all_keeps; eassumption.
      - specialize (IH m0 (cur ++ [c]) H0 (c2 :: q) Hq ltac:(discriminate)).
        rewrite <- app_assoc in IH. exact IH. }
    destruct (strings.Contains c os.NUL); [discriminate H|].
    destruct (m !! (cur ++ [c])) as [[|]|] eqn:E.
    + discriminate H.
    + apply (Hhead m H E).
    + destruct (os.too_long c); [discriminate H|].
      apply (Hhead _ H). apply lookup_insert_eq.
Qed.

Lemma mkdir_all_NUL (m : gmap path node) (cur rest : path) (m' : gmap path node) :
  os.mkdir_all m cur rest = (m', None) -> os.has_NUL rest = false.
Proof.
  revert m cur. induction rest as [|c rest IH]; intros m cur H; [reflexivity|].
  cbn [os.mkdir_all] in H. cbn [os.has_NUL existsb].
  destruct (strings.Contains c os.NUL); [discriminate H|]. simpl.
  destruct (m !! (cur ++ [c])) as [[|]|].
  - discriminate H.
  - apply (IH _ _ H).
  - destruct (os.too_long c); [discriminate H|]. apply (IH _ _ H).
Qed.

Lemma last_cons_ne (c : string) (q : path) :
  q <> [] -> List.last (c :: q) "" = List.last q "".
Proof. destruct q; [contradiction | reflexivity]. Qed.

Lemma mkdir_all_succeeds (m : gmap path node) (cur rest : path) :
  os.has_NUL rest = false ->
  (forall q, q `prefix_of` rest -> q <> [] -> m !! (cur ++ q) = None ->
     os.too_long (List.last q "") = false) ->
  (forall q, q `prefix_of` rest -> q <> [] -> is_file (m !! (cur ++ q)) = false) ->
  snd (os.mkdir_all m cur rest) = None.
Proof.
  revert m cur. induction rest as [|c rest IH]; intros m cur Hnul Hlen H; [reflexivity|].
  cbn [os.mkdir_all].
  cbn [os.has_NUL existsb] in Hnul. apply orb_false_iff in Hnul as [Hc0 Hnul].
  pose proof (H [c] ltac:(apply prefix_cons, prefix_nil) ltac:(discriminate)) as Hc.
  pose proof (Hlen [c] ltac:(apply prefix_cons, prefix_nil) ltac:(discriminate)) as Hl.
  rewrite Hc0.
  destruct (m !! (cur ++ [c])) as [[|]|] eqn:E.
  - discriminate Hc.
  - apply IH; [exact Hnul | |].
    + intros q Hq Hne Hnone. rewrite <- (last_cons_ne c q Hne).
      apply Hlen; [apply prefix_cons, Hq | discriminate |].
      rewrite <- app_assoc in Hnone. exact Hnone.
    + intros q Hq _. rewrite <- app_assoc.
      apply H; [apply prefix_cons, Hq | discriminate].
  - cbn [List.last] in Hl. rewrite (Hl eq_refl). apply IH; [exact Hnul | |].
    + intros q Hq Hne Hnone. rewrite <- (last_cons_ne c q Hne).
      apply Hlen; [apply prefix_cons, Hq | discriminate |].
      destruct (decide (cur ++ [c] = (cur ++ [c]) ++ q)) as [Heq|Hneq].
      * rewrite <- Heq, lookup_insert_eq in Hnone. discriminate Hnone.
      * rewrite lookup_insert_ne in Hnone by exact Hneq.
        rewrite <- app_assoc in Hnone. exact Hnone.
    + intros q Hq _.
      destruct (decide (cur ++ [c] = (cur ++ [c]) ++ q)) as [Heq|Hneq].
      * rewrite <- Heq, lookup_insert_eq. reflexivity.
      * rewrite lookup_insert_ne by exact Hneq. rewrite <- app_assoc.
        apply H; [apply prefix_cons, Hq | discriminate].
Qed.

(** ** [MkdirAll], [Create] and [Write] on the state *)

Lemma node_at_lookup (m : gmap path node) (p : path) :
  p <> [] -> os.node_at m p = m !! p.
Proof. destruct p; [contradiction | reflexivity]. Qed.

Lemma MkdirAll_clock fs p : clock (fst (os.MkdirAll fs p)) = clock fs.
Proof. unfold os.MkdirAll. destruct (os.mkdir_all (files fs) [] p). reflexivity. Qed.

Lemma MkdirAll_lookup fs p q :
  files (fst (os.MkdirAll fs p)) !! q = files fs !! q
  \/ (files fs !! q = None /\ files (fst (os.MkdirAll fs p)) !! q = Some Dir
      /\ q `prefix_of` p /\ q <> []).
Proof.
  unfold os.MkdirAll. destruct (os.mkdir_all (files fs) [] p) as [m e] eqn:E. simpl.
  destruct (mkdir_all_lookup _ _ _ _ _ q E) as [H | (Hn & Hd & r & Hr & Hne & ->)];
    [left; exact H | right; auto].
Qed.

Lemma MkdirAll_keeps fs p q n :
  files fs !! q = Some n -> files (fst (os.MkdirAll fs p)) !! q = Some n.
Proof.
  intros H. destruct (MkdirAll_lookup fs p q) as [E | (Hn & _)]; congruence.
Qed.

Lemma MkdirAll_node_at fs p q n :
  os.node_at (files fs) q = Some n ->
  os.node_at (files (fst (os.MkdirAll fs p))) q = Some n.
Proof. destruct q; [trivial | apply MkdirAll_keeps]. Qed.

Lemma MkdirAll_Stat fs p :
  snd (os.MkdirAll fs p) = None -> os.Stat (fst (os.MkdirAll fs p)) p = Ok Dir.
Proof.
  unfold os.MkdirAll. destruct (os.mkdir_all (files fs) [] p) as [m e] eqn:E. simpl.
  intros ->.
  assert (H : forall q, q `prefix_of` p -> os.node_at m q = Some Dir).
  { intros [|c q] Hq; [reflexivity|].
    apply (mkdir_all_dirs _ _ _ _ E (c :: q) Hq). discriminate. }
  apply Stat_intro; cbn [files];
    [apply (mkdir_all_NUL _ _ _ _ E) | apply H; reflexivity | intros q Hq _; apply H, Hq].
Qed.

(** Every node that resolves before [MkdirAll] resolves to itself after. *)
Lemma MkdirAll_Stat_keeps fs p q n :
  os.Stat fs q = Ok n -> os.Stat (fst (os.MkdirAll fs p)) q = Ok n.
Proof.
  intros H. pose proof (Stat_NUL _ _ _ H) as Hnul.
  apply Stat_ok in H as [Hend Hpre]. apply Stat_intro; [exact Hnul | |].
  - apply MkdirAll_node_at, Hend.
  - intros r Hr Hne. apply MkdirAll_node_at, Hpre; assumption.
Qed.

Lemma Create_inv fs p fs2 :
  os.Create fs p = Ok fs2 ->
  p <> [] /\ os.Stat fs (removelast p) = Ok Dir /\ is_dir (files fs !! p) = false
  /\ fs2 = {| files := <[p := File [] (clock fs)]> (files fs); clock := clock fs |}.
Proof.
  unfold os.Create, filepath.Dir. destruct (os.has_NUL p); [discriminate|].
  destruct p as [|c p]; [discriminate|].
  destruct (os.Stat fs (removelast (c :: p))) as [[|]|]; try discriminate.
  destruct (files fs !! (c :: p)) as [[|]|] eqn:E; try discriminate.
  - intros [= <-]; repeat split; discriminate.
  - destruct (os.too_long _); [discriminate|].
    intros [= <-]; repeat split; discriminate.
Qed.

Lemma Create_NUL fs p fs2 : os.Create fs p = Ok fs2 -> os.has_NUL p = false.
Proof. unfold os.Create. destruct (os.has_NUL p); [discriminate | reflexivity]. Qed.

Lemma Create_ok fs p :
  p <> [] -> os.has_NUL p = false ->
  (files fs !! p = None -> os.too_long (List.last p "") = false) ->
  os.Stat fs (removelast p) = Ok Dir -> is_dir (files fs !! p) = false ->
  os.Create fs p
  = Ok {| files := <[p := File [] (clock fs)]> (files fs); clock := clock fs |}.
Proof.
  intros Hp Hn Hl Hs Hd. unfold os.Create, filepath.Dir. rewrite Hn.
  destruct p as [|c p]; [contradiction|].
  rewrite Hs. destruct (files fs !! (c :: p)) as [[|]|]; try reflexivity.
  - discriminate Hd.
  - rewrite (Hl eq_refl). reflexivity.
Qed.

Lemma Write_created (m : gmap path node) (t : Z) (p : path) (data : bytes) :
  os.Write {| files := <[p := File [] t]> m; clock := t |} p data
  = {| files := <[p := File data t]> m; clock := t |}.
Proof.
  unfold os.Write. simpl. rewrite lookup_insert_eq, insert_insert_eq. reflexivity.
Qed.

(** ** The metadata file *)

Lemma metadataPath_parent (p : path) :
  p <> [] -> removelast (metadataPath p) = removelast p.
Proof.
  intros Hp. destruct p as [|c p]; [contradiction|].
  unfold metadataPath. apply removelast_last.
Qed.

Lemma metadataPath_not_nil (p : path) : metadataPath p <> [].
Proof.
  destruct p as [|c p]; [discriminate|]. unfold metadataPath.
  intros H. apply app_eq_nil in H as [_ H]. discriminate H.
Qed.

Lemma metadataPath_length (p : path) :
  p <> [] -> length (metadataPath p) = length p.
Proof.
  intros Hp. rewrite (app_removelast_last "" Hp) at 2.
  destruct p as [|c p]; [contradiction|]. unfold metadataPath.
  rewrite !length_app. reflexivity.
Qed.

Lemma metadataPath_neq (p : path) : metadataPath p <> p.
Proof.
  destruct p as [|c p]; [discriminate|]. intros H.
  apply (f_equal (fun l => String.length (List.last l ""))) in H.
  unfold metadataPath in H. rewrite last_last, slength_app in H. simpl in H. lia.
Qed.

Lemma append_inj_r (a b c : string) : a +:+ c = b +:+ c -> a = b.
Proof.
  revert b. induction a as [|x a IH]; intros [|y b] H.
  - reflexivity.
  - apply (f_equal String.length) in H. rewrite app_nil_l_s, app_cons_s in H.
    simpl in H. rewrite slength_app in H. lia.
  - apply (f_equal String.length) in H. rewrite app_nil_l_s, app_cons_s in H.
    simpl in H. rewrite slength_app in H. lia.
  - rewrite !app_cons_s in H. injection H as -> H. f_equal. apply IH, H.
Qed.

Lemma metadataPath_inj (p q : path) :
  p <> [] -> q <> [] -> metadataPath p = metadataPath q -> p = q.
Proof.
  intros Hp Hq H.
  rewrite (app_removelast_last "" Hp), (app_removelast_last "" Hq).
  destruct p as [|c p]; [contradiction|]. destruct q as [|d q]; [contradiction|].
  unfold metadataPath in H. apply app_inj_tail in H as [H1 H2].
  apply append_inj_r in H2. rewrite H1, H2. reflexivity.
Qed.

Lemma load_line_entry (m : gmap string string) (k v : string) :
  clean_entry k v = true ->
  load_line m (k +:+ "=" +:+ v) = <[k := v]> m.
Proof.
  unfold clean_entry. rewrite !andb_true_iff, !negb_true_iff.
  intros [[[Hk _] _] Ht]. apply String.eqb_eq in Ht.
  unfold load_line. rewrite Ht.
  destruct (String.eqb_spec (k +:+ "=" +:+ v) "") as [E|_].
  { destruct k; discriminate E. }
  unfold strings.SplitN2.
  change (k +:+ "=" +:+ v) with (k +:+ String "="%char v).
  change "=" with (String "="%char "").
  rewrite Cut_app_1 by exact Hk. reflexivity.
Qed.

Lemma Contains_line (k v : string) :
  clean_entry k v = true -> strings.Contains (k +:+ "=" +:+ v) LF = false.
Proof.
  unfold clean_entry. rewrite !andb_true_iff, !negb_true_iff.
  intros [[[_ Hk] Hv] _].
  apply Contains_app_1; [exact Hk|].
  change ("=" +:+ v) with (String "="%char v).
  unfold LF. rewrite Contains_cons_ne by discriminate. exact Hv.
Qed.

Lemma load_text (entries : list (string * string)) (m : gmap string string) :
  Forall (fun kv => clean_entry (fst kv) (snd kv) = true) entries ->
  fold_left load_line (strings.Split (metadata_text entries) LF) m
  = fold_left set_line entries m.
Proof.
  intros H. revert m. induction H as [|[k v] entries Hkv _ IH]; intros m.
  - reflexivity.
  - cbn [metadata_text fold_left]. unfold metadata_line. cbn [fst snd] in *.
    replace ((k +:+ "=" +:+ v +:+ LF) +:+ metadata_text entries)
      with ((k +:+ "=" +:+ v) +:+ String "010"%char (metadata_text entries)).
    2:{ unfold LF. rewrite !app_assoc_s. reflexivity. }
    unfold LF at 1. rewrite Split_app_1 by (apply Contains_line, Hkv).
    cbn [fold_left]. rewrite load_line_entry by exact Hkv.
    apply IH.
Qed.

Lemma set_lines_map (entries : list (string * string)) (md : gmap string string) :
  entries ≡ₚ map_to_list md -> fold_left set_line entries ∅ = md.
Proof.
  intros H. apply map_to_list_inj.
  assert (Hnd : NoDup (map fst entries)).
  { rewrite H. apply NoDup_fst_map_to_list. }
  rewrite set_line_to_list.
  - rewrite map_to_list_empty, app_nil_r. exact H.
  - exact Hnd.
  - apply Forall_forall. intros p _. apply lookup_empty.
Qed.

(** ** What [PutObject] does to the state *)

Lemma prefix_inits (q p : path) : q `prefix_of` p -> q ∈ inits p.
Proof.
  revert q. induction p as [|c p IH]; intros q Hq.
  - apply prefix_nil_inv in Hq. subst q. apply list_elem_of_here.
  - destruct q as [|c' q]; [apply list_elem_of_here|].
    apply prefix_cons_inv_1 in Hq as Hc. subst c'. apply prefix_cons_inv_2 in Hq.
    cbn [inits]. apply list_elem_of_further, list_elem_of_fmap.
    exists q. split; [reflexivity | apply IH, Hq].
Qed.

Lemma removelast_length (p : path) : p <> [] -> S (length (removelast p)) = length p.
Proof.
  intros Hp. rewrite (app_removelast_last "" Hp) at 2. rewrite length_app. simpl. lia.
Qed.

Lemma prefix_removelast (q p : path) :
  q `prefix_of` p -> q <> p -> q `prefix_of` removelast p.
Proof.
  intros [k ->] Hne. destruct k as [|x k] using rev_ind.
  - rewrite app_nil_r in Hne. contradiction.
  - rewrite app_assoc, removelast_last. apply prefix_app_r. reflexivity.
Qed.

Lemma not_prefix_removelast (p q : path) :
  length q = length p -> p <> [] -> ~ q `prefix_of` removelast p.
Proof.
  intros Hlen Hp Hq. apply prefix_length in Hq.
  pose proof (removelast_length p Hp). lia.
Qed.

Lemma creatable_inv fs p :
  can_create fs p ->
  p <> [] /\ is_dir (files fs !! p) = false
  /\ forall q, q `prefix_of` removelast p -> q <> [] -> is_file (files fs !! q) = false.
Proof.
  intros (Hp & _ & Hd & Hpre & _). split; [exact Hp|]. split; [exact Hd|].
  intros q Hq Hne. rewrite <- node_at_lookup by exact Hne. apply Hpre, Hq.
Qed.

Lemma can_create_NUL fs p : can_create fs p -> os.has_NUL p = false.
Proof. intros H. apply H. Qed.

Lemma can_create_names fs p q :
  can_create fs p -> q `prefix_of` p -> q <> [] -> files fs !! q = None ->
  os.too_long (List.last q "") = false.
Proof. intros H. apply H. Qed.

(** The directories on the way to a path at which a file can be created
    are made. *)
Lemma can_create_MkdirAll fs p :
  can_create fs p -> snd (os.MkdirAll fs (removelast p)) = None.
Proof.
  intros Hc. pose proof (creatable_inv _ _ Hc) as (HP & Hd & Hpre).
  unfold os.MkdirAll.
  pose proof (mkdir_all_succeeds (files fs) [] (removelast p)) as H.
  destruct (os.mkdir_all (files fs) [] (removelast p)). apply H.
  - apply has_NUL_removelast, (can_create_NUL _ _ Hc).
  - intros q Hq Hne Hnone. apply (can_create_names fs p q Hc); [|exact Hne | exact Hnone].
    destruct Hq as [k Hk]. exists (k ++ [List.last p ""]).
    rewrite app_assoc, <- Hk. apply app_removelast_last, HP.
  - exact Hpre.
Qed.

Lemma creatable_can_create fs p : creatable fs p = true -> can_create fs p.
Proof.
  unfold creatable, can_create. destruct p as [|c p]; [discriminate|].
  rewrite !andb_true_iff, negb_true_iff, forallb_forall.
  intros [[Hpre Hd] Hv]. split; [discriminate|].
  split; [apply valid_path_NUL, Hv|]. split; [exact Hd|]. split.
  - intros q Hq. apply prefix_inits, list_elem_of_In, Hpre in Hq.
    apply negb_true_iff in Hq. exact Hq.
  - intros q Hq Hne _. apply names_ok_last; [exact Hne|].
    apply (names_ok_prefix q (c :: p) Hq). apply valid_path_names, Hv.
Qed.

Lemma Create_on_dir fs p :
  is_dir (files fs !! p) = true -> exists e, os.Create fs p = Err e.
Proof.
  intros H. unfold os.Create. destruct (os.has_NUL p); [eauto|].
  destruct p as [|c p]; [eauto|].
  destruct (os.Stat fs (filepath.Dir (c :: p))) as [[|]|]; eauto.
  destruct (files fs !! (c :: p)) as [[|]|]; try discriminate H. eauto.
Qed.

Lemma Create_too_long fs p :
  files fs !! p = None -> os.too_long (List.last p "") = true ->
  exists e, os.Create fs p = Err e.
Proof.
  intros H Hl. unfold os.Create. destruct (os.has_NUL p); [eauto|].
  destruct p as [|c p]; [eauto|].
  destruct (os.Stat fs (filepath.Dir (c :: p))) as [[|]|]; eauto.
  rewrite H, Hl. eauto.
Qed.

Lemma metadataPath_NUL (p : path) :
  p <> [] -> os.has_NUL p = false -> os.has_NUL (metadataPath p) = false.
Proof.
  intros Hp H. unfold metadataPath. destruct p as [|c p]; [contradiction|].
  rewrite has_NUL_app, (has_NUL_removelast _ H). cbn [orb os.has_NUL existsb].
  rewrite orb_false_r.
  rewrite (app_removelast_last "" Hp) in H. rewrite has_NUL_app in H.
  apply orb_false_iff in H as [_ H]. cbn [os.has_NUL existsb] in H.
  rewrite orb_false_r in H.
  apply Contains_app_1; [exact H | reflexivity].
Qed.

Section PutObject.

Context (range : gmap string string -> list (string * string)).
Context (range_perm : forall m, range m ≡ₚ map_to_list m).

Lemma PutObject_ok (s : FileSystemStorage) (bucket key : string) (data : bytes)
    (size : Z) (metadata : gmap string string) (fs : FS) :
  BucketExists s bucket fs = true ->
  can_create fs (filepath.Join (basePath s) [bucket; key]) ->
  PutObject range s bucket key data size metadata fs
  = ({| files := put_files range s bucket key data metadata fs; clock := clock fs |},
     Ok (objectInfo key (Z.of_nat (length data)) (clock fs) metadata)).
Proof.
  intros Hb Hc. unfold PutObject, put_files. rewrite Hb. cbn [negb].
  set (P := filepath.Join (basePath s) [bucket; key]) in *.
  pose proof (can_create_MkdirAll _ _ Hc) as Hsucc.
  pose proof (can_create_NUL _ _ Hc) as Hnul.
  pose proof (can_create_names _ _ P Hc ltac:(reflexivity)) as Hlen.
  apply creatable_inv in Hc as (HP & Hd & Hpre).
  unfold filepath.Dir.
  pose proof (MkdirAll_Stat fs (removelast P)) as Hstat.
  pose proof (MkdirAll_clock fs (removelast P)) as Hclock.
  pose proof (MkdirAll_lookup fs (removelast P)) as Hlook.
  destruct (os.MkdirAll fs (removelast P)) as [fs1 e] eqn:E. simpl in *. subst e.
  specialize (Hstat eq_refl).
  assert (Hsame : forall q, length q = length P -> files fs1 !! q = files fs !! q).
  { intros q Hq. destruct (Hlook q) as [H | (_ & _ & H & _)]; [exact H|].
    exfalso. exact (not_prefix_removelast P q Hq HP H). }
  rewrite (Create_ok fs1 P HP Hnul)
    by first [exact Hstat
             | rewrite Hsame by reflexivity; first [exact Hd | exact (Hlen HP)]].
  rewrite Hclock.
  destruct fs1 as [m1 t1]. simpl in *. subst t1.
  rewrite Write_created.
  destruct (decide (0 < base.size metadata)%nat) as [Hpos|Hzero]; [|reflexivity].
  unfold storeMetadata.
  destruct (decide (base.size metadata = 0%nat)) as [Hz|_]; [lia|].
  assert (HM : <[P := File data (clock fs)]> m1 !! metadataPath P
               = files fs !! metadataPath P).
  { rewrite lookup_insert_ne by (intros H; symmetry in H; exact (metadataPath_neq P H)).
    apply Hsame, metadataPath_length, HP. }
  unfold sidecar_written.
  destruct (is_dir (files fs !! metadataPath P)) eqn:Hdir.
  - destruct (files fs !! metadataPath P) as [[|]|] eqn:EM; try discriminate Hdir.
    cbn [is_file negb andb orb].
    destruct (Create_on_dir {| files := <[P := File data (clock fs)]> m1; clock := clock fs |}
                (metadataPath P)) as [e' He].
    + cbn [files]. rewrite HM. reflexivity.
    + rewrite He. reflexivity.
  - cbn [negb andb].
    destruct (is_file (files fs !! metadataPath P)
              || negb (os.too_long (List.last (metadataPath P) ""))) eqn:Hw.
    + rewrite Create_ok.
      * cbn [files clock fst]. rewrite Write_created. reflexivity.
      * apply metadataPath_not_nil.
      * apply metadataPath_NUL; assumption.
      * cbn [files]. rewrite HM. intros Hnone. rewrite Hnone in Hw.
        cbn [is_file orb] in Hw. apply negb_true_iff in Hw. exact Hw.
      * rewrite metadataPath_parent by exact HP.
        rewrite <- Hstat. apply Stat_agree; cbn [files].
        -- intros q Hq Hne. left.
           destruct q as [|c q]; [reflexivity|]. cbn [os.node_at].
           apply lookup_insert_ne. intros HPq.
           apply prefix_length in Hq. rewrite <- HPq in Hq.
           pose proof (removelast_length P HP). lia.
        -- destruct (removelast P) as [|c q] eqn:Er; [reflexivity|]. cbn [os.node_at].
           apply lookup_insert_ne. intros H.
           pose proof (removelast_length P HP) as Hl. rewrite Er, <- H in Hl. lia.
      * cbn [files]. rewrite HM. exact Hdir.
    + apply orb_false_iff in Hw as [Hf Hl]. apply negb_false_iff in Hl.
      destruct (Create_too_long
                  {| files := <[P := File data (clock fs)]> m1; clock := clock fs |}
                  (metadataPath P)) as [e' He].
      * cbn [files]. rewrite HM.
        destruct (files fs !! metadataPath P) as [[|]|]; [discriminate Hf | discriminate Hdir | reflexivity].
      * exact Hl.
      * rewrite He. reflexivity.
Qed.

End PutObject.

Lemma inits_prefix (q p : path) : q ∈ inits p -> q `prefix_of` p.
Proof.
  revert q. induction p as [|c p IH]; intros q Hq.
  - apply list_elem_of_singleton in Hq. subst q. reflexivity.
  - cbn [inits] in Hq. apply elem_of_cons in Hq as [->|Hq]; [apply prefix_nil|].
    apply list_elem_of_fmap in Hq as (r & -> & Hr). apply prefix_cons, IH, Hr.
Qed.

Lemma prefix_of_removelast (q p : path) : q `prefix_of` removelast p -> q `prefix_of` p.
Proof.
  intros Hq. destruct p as [|c p] using rev_ind; [exact Hq|].
  rewrite removelast_last in Hq. apply prefix_app_r, Hq.
Qed.

(** An existing file can be created again. *)
Lemma Stat_file_creatable fs p d t :
  os.Stat fs p = Ok (File d t) -> can_create fs p.
Proof.
  intros H. pose proof (Stat_NUL _ _ _ H) as Hnul. apply Stat_ok in H as [Hend Hpre].
  unfold can_create. destruct p as [|c p]; [discriminate Hend|].
  cbn [os.node_at] in Hend. rewrite Hend.
  split; [discriminate|]. split; [exact Hnul|]. split; [reflexivity|]. split.
  - intros q Hq. rewrite Hpre; [reflexivity | apply prefix_of_removelast, Hq |].
    intros ->. apply prefix_length in Hq.
    pose proof (removelast_length (c :: p) ltac:(discriminate)). lia.
  - intros q Hq Hne Hnone. exfalso.
    destruct (decide (q = c :: p)) as [->|Hneq]; [congruence|].
    specialize (Hpre q Hq Hneq). rewrite node_at_lookup in Hpre by exact Hne. congruence.
Qed.

(** The directories on the way to a creatable path get made, and the
    file is created empty. *)
Lemma create_destination fs p :
  can_create fs p ->
  exists m1,
    os.MkdirAll fs (removelast p) = ({| files := m1; clock := clock fs |}, None)
    /\ os.Create {| files := m1; clock := clock fs |} p
       = Ok {| files := <[p := File [] (clock fs)]> m1; clock := clock fs |}
    /\ is_dir (m1 !! p) = false
    /\ os.Stat {| files := m1; clock := clock fs |} (removelast p) = Ok Dir
    /\ (forall q, m1 !! q = files fs !! q
                  \/ (files fs !! q = None /\ m1 !! q = Some Dir
                      /\ q `prefix_of` removelast p /\ q <> []))
    /\ (forall q n, os.Stat fs q = Ok n ->
                    os.Stat {| files := m1; clock := clock fs |} q = Ok n).
Proof.
  intros Hc.
  pose proof (can_create_MkdirAll _ _ Hc) as Hsucc.
  pose proof (can_create_NUL _ _ Hc) as Hnul.
  pose proof (can_create_names _ _ p Hc ltac:(reflexivity)) as Hlen.
  apply creatable_inv in Hc as (HP & Hd & Hpre).
  pose proof (MkdirAll_Stat fs (removelast p)) as Hstat.
  pose proof (MkdirAll_clock fs (removelast p)) as Hclock.
  pose proof (MkdirAll_lookup fs (removelast p)) as Hlook.
  pose proof (fun q n => MkdirAll_Stat_keeps fs (removelast p) q n) as Hkeep.
  destruct (os.MkdirAll fs (removelast p)) as [[m1 t1] e]. cbn [fst snd files clock] in *.
  subst e t1. specialize (Hstat eq_refl). exists m1.
  assert (Hsame : m1 !! p = files fs !! p).
  { destruct (Hlook p) as [H | (_ & _ & H & _)]; [exact H|].
    exfalso. exact (not_prefix_removelast p p eq_refl HP H). }
  assert (HdP : is_dir (m1 !! p) = false) by (rewrite Hsame; exact Hd).
  split; [reflexivity|]. split.
  { assert (H1 : files {| files := m1; clock := clock fs |} !! p = None ->
                 os.too_long (List.last p "") = false).
    { cbn [files]. rewrite Hsame. apply Hlen, HP. }
    exact (Create_ok _ p HP Hnul H1 Hstat HdP). }
  auto.
Qed.

(** ** Reading back what was put (C3) *)

Lemma ReadFile_no_file fs p :
  p <> [] -> is_file (files fs !! p) = false -> exists e, os.ReadFile fs p = Err e.
Proof.
  intros Hp Hf. unfold os.ReadFile.
  destruct (os.Stat fs p) as [n|e] eqn:E; [|eauto].
  apply Stat_ok in E as [E _]. rewrite node_at_lookup in E by exact Hp.
  rewrite E in Hf. destruct n; [discriminate Hf | eauto].
Qed.

Section RoundTrip.

Context (range : gmap string string -> list (string * string)).
Context (range_perm : forall m, range m ≡ₚ map_to_list m).
Context (s : FileSystemStorage) (bucket key : string) (data : bytes).
Context (metadata : gmap string string) (fs : FS).

Let P := filepath.Join (basePath s) [bucket; key].
Let M := metadataPath P.
Let m4 := put_files range s bucket key data metadata fs.

Context (Hcreatable : can_create fs P).

Lemma put_files_other (q : path) :
  q <> P -> q <> M ->
  m4 !! q = files (fst (os.MkdirAll fs (removelast P))) !! q.
Proof.
  intros HqP HqM. unfold m4, put_files. fold P. fold M.
  repeat case_match; rewrite ?lookup_insert_ne by congruence; reflexivity.
Qed.

Lemma put_files_object : m4 !! P = Some (File data (clock fs)).
Proof.
  unfold m4, put_files. fold P. fold M.
  assert (M <> P) by apply metadataPath_neq.
  repeat case_match; rewrite ?lookup_insert_ne by congruence; apply lookup_insert_eq.
Qed.

Lemma put_files_same_length (q : path) :
  length q = length P ->
  files (fst (os.MkdirAll fs (removelast P))) !! q = files fs !! q.
Proof.
  intros Hq. apply creatable_inv in Hcreatable as (HP & _ & _).
  destruct (MkdirAll_lookup fs (removelast P) q) as [H | (_ & _ & H & _)]; [exact H|].
  exfalso. exact (not_prefix_removelast P q Hq HP H).
Qed.

Lemma put_files_sidecar :
  m4 !! M =
  if decide (0 < base.size metadata)%nat
  then if sidecar_written fs P
       then Some (File (bytes_of_string (metadata_text (range metadata))) (clock fs))
       else files fs !! M
  else files fs !! M.
Proof.
  pose proof (creatable_inv _ _ Hcreatable) as (HP & _ & _).
  assert (HMP : M <> P) by apply metadataPath_neq.
  assert (Hlen : length M = length P) by (apply metadataPath_length, HP).
  unfold m4, put_files. fold P. fold M.
  repeat case_match; rewrite ?lookup_insert_eq; try reflexivity;
    rewrite lookup_insert_ne by congruence; apply put_files_same_length, Hlen.
Qed.

Lemma put_files_parents (q : path) :
  q `prefix_of` removelast P -> os.node_at m4 q = Some Dir.
Proof.
  intros Hq. pose proof (creatable_inv _ _ Hcreatable) as (HP & _ & Hpre).
  destruct q as [|c q]; [reflexivity|]. cbn [os.node_at].
  pose proof (removelast_length P HP) as Hl.
  pose proof (prefix_length _ _ Hq) as Hql.
  rewrite put_files_other.
  - pose proof (can_create_MkdirAll _ _ Hcreatable) as Hsucc.
    pose proof (MkdirAll_Stat fs (removelast P) Hsucc) as Hst.
    apply Stat_ok in Hst as [Hend Hpar].
    destruct (decide (c :: q = removelast P)) as [E|E].
    + rewrite node_at_lookup in Hend by (rewrite <- E; discriminate).
      rewrite E. exact Hend.
    + exact (Hpar (c :: q) Hq E).
  - intros E. rewrite E in Hql. lia.
  - intros E. rewrite E in Hql. unfold M in Hql.
    rewrite metadataPath_length in Hql by exact HP. lia.
Qed.

Lemma put_files_dirs (q : path) :
  os.node_at (files fs) q = Some Dir -> os.node_at m4 q = Some Dir.
Proof.
  intros Hq. pose proof (creatable_inv _ _ Hcreatable) as (HP & Hd & _).
  destruct q as [|c q]; [reflexivity|]. cbn [os.node_at] in *.
  destruct (decide (c :: q = P)) as [E|HqP].
  { rewrite E in Hq. rewrite Hq in Hd. discriminate Hd. }
  destruct (decide (c :: q = M)) as [E|HqM].
  - rewrite E, put_files_sidecar. rewrite E in Hq.
    unfold sidecar_written. fold P. fold M. rewrite Hq. simpl.
    destruct (decide (0 < base.size metadata)%nat); reflexivity.
  - rewrite put_files_other by assumption. apply MkdirAll_keeps, Hq.
Qed.

Lemma put_Stat_object :
  os.Stat {| files := m4; clock := clock fs |} P = Ok (File data (clock fs)).
Proof.
  pose proof (creatable_inv _ _ Hcreatable) as (HP & _ & _).
  apply Stat_intro; cbn [files].
  - apply (can_create_NUL _ _ Hcreatable).
  - rewrite node_at_lookup by exact HP. apply put_files_object.
  - intros q Hq Hne. apply put_files_parents, prefix_removelast; assumption.
Qed.

Lemma put_BucketExists :
  BucketExists s bucket fs = true ->
  BucketExists s bucket {| files := m4; clock := clock fs |} = true.
Proof.
  unfold BucketExists.
  destruct (os.Stat fs (filepath.Join (basePath s) [bucket])) as [[|]|] eqn:E;
    try discriminate.
  intros _. pose proof (Stat_NUL _ _ _ E) as Hnul. apply Stat_ok in E as [Hend Hpre].
  assert (E' : os.Stat {| files := m4; clock := clock fs |}
                 (filepath.Join (basePath s) [bucket]) = Ok Dir).
  { apply Stat_intro; cbn [files].
    - exact Hnul.
    - apply put_files_dirs, Hend.
    - intros q Hq Hne. apply put_files_dirs, Hpre; assumption. }
  rewrite E'. reflexivity.
Qed.

Lemma put_loadMetadata :
  sidecar_free fs P metadata = true ->
  map_Forall (fun k v => clean_entry k v = true) metadata ->
  loadMetadata P {| files := m4; clock := clock fs |} = metadata.
Proof.
  intros Hfree Hclean. pose proof (creatable_inv _ _ Hcreatable) as (HP & _ & _).
  unfold loadMetadata, sidecar_free in *. fold M in Hfree |- *.
  pose proof put_files_sidecar as HM.
  destruct (decide (base.size metadata = 0%nat)) as [Hz|Hnz].
  - apply map_size_empty_iff in Hz as Hempty.
    destruct (decide (0 < base.size metadata)%nat) as [Hpos|_]; [lia|].
    apply negb_true_iff in Hfree.
    destruct (ReadFile_no_file {| files := m4; clock := clock fs |} M) as [e He].
    + apply metadataPath_not_nil.
    + cbn [files]. rewrite HM. exact Hfree.
    + rewrite He. symmetry. exact Hempty.
  - destruct (decide (0 < base.size metadata)%nat) as [_|Hn]; [|lia].
    apply andb_true_iff in Hfree as [Hfree Hvalid].
    apply negb_true_iff in Hfree.
    assert (Hw : sidecar_written fs P = true).
    { unfold sidecar_written. fold M. rewrite Hfree. cbn [negb andb].
      rewrite (names_ok_last M (metadataPath_not_nil P) (valid_path_names _ Hvalid)).
      apply orb_true_r. }
    rewrite Hw in HM.
    assert (Hst : os.Stat {| files := m4; clock := clock fs |} M
                  = Ok (File (bytes_of_string (metadata_text (range metadata))) (clock fs))).
    { apply Stat_intro; cbn [files].
      - apply valid_path_NUL, Hvalid.
      - rewrite node_at_lookup by apply metadataPath_not_nil. exact HM.
      - intros q Hq Hne. apply put_files_parents.
        unfold M in *. rewrite <- (metadataPath_parent P HP).
        apply prefix_removelast; assumption. }
    unfold os.ReadFile. rewrite Hst.
    unfold string_of_bytes, bytes_of_string. rewrite string_of_list_byte_of_string.
    rewrite load_text.
    + apply set_lines_map, range_perm.
    + apply Forall_forall. intros [k v] Hkv. rewrite range_perm in Hkv.
      apply elem_of_map_to_list in Hkv. exact (Hclean k v Hkv).
Qed.

End RoundTrip.

(** C3 (amended): in an existing bucket, for a key at whose path a file
    can be created (no file on the way, no directory at it, a path that
    the system takes), [PutObject] succeeds and [GetObject] then yields
    exactly the bytes put and exactly the metadata map given, whether or
    not its entries carry the metadata prefix, provided that each entry is
    read back from its line as it was written and that the sidecar path is
    free (and, when there is metadata, is a path that the system takes
    too). *)
Theorem C3_put_get_round_trip
    (range : gmap string string -> list (string * string))
    (range_perm : forall m, range m ≡ₚ map_to_list m)
    (s : FileSystemStorage) (bucket key : string) (data : bytes) (size : Z)
    (metadata : gmap string string) (fs : FS) :
  BucketExists s bucket fs = true ->
  creatable fs (filepath.Join (basePath s) [bucket; key]) = true ->
  sidecar_free fs (filepath.Join (basePath s) [bucket; key]) metadata = true ->
  map_Forall (fun k v => clean_entry k v = true) metadata ->
  snd (PutObject range s bucket key data size metadata fs)
    = Ok (objectInfo key (Z.of_nat (length data)) (clock fs) metadata)
  /\ GetObject s bucket key (fst (PutObject range s bucket key data size metadata fs))
    = Ok (Reader data, objectInfo key (Z.of_nat (length data)) (clock fs) metadata).
Proof.
  intros Hb Hc Hfree Hclean. apply creatable_can_create in Hc.
  rewrite (PutObject_ok range s bucket key data size metadata fs Hb Hc).
  cbn [fst snd]. split; [reflexivity|].
  unfold GetObject.
  rewrite (put_BucketExists range s bucket key data metadata fs Hc Hb). cbn [negb].
  rewrite (put_Stat_object range s bucket key data metadata fs Hc).
  rewrite (put_loadMetadata range range_perm s bucket key data metadata fs Hc Hfree Hclean).
  reflexivity.
Qed.

(** The object of the repository's storage test, with one more entry. *)
Lemma C3_put_get_round_trip_witness :
  GetObject example_store "b" "test-key"
    (fst (PutObject map_to_list example_store "b" "test-key"
            (bytes_of_string "test content") 12
            {[ "Content-Type" := "text/plain"; "x-amz-meta-owner" := "a b" ]} bucket_fs))
  = Ok (Reader (bytes_of_string "test content"),
        objectInfo "test-key" 12 (clock bucket_fs)
          {[ "Content-Type" := "text/plain"; "x-amz-meta-owner" := "a b" ]}).
Proof.
  refine (proj2 (C3_put_get_round_trip map_to_list (fun m => reflexivity _)
            example_store "b" "test-key" (bytes_of_string "test content") 12
            {[ "Content-Type" := "text/plain"; "x-amz-meta-owner" := "a b" ]}
            bucket_fs _ _ _ _)).
  - vm_compute. reflexivity.
  - vm_compute. reflexivity.
  - vm_compute. reflexivity.
  - apply (bool_decide_unpack _). vm_compute. exact I.
Defined.

(** C3 (counterexample): the metadata of the repository's own storage test
    has no entry with the metadata prefix, and is read back whole. And
    under a key of 250 bytes the put succeeds and reports the metadata,
    but the sidecar file, whose name is over [os.NAME_MAX], is not
    created: the object is read back without its metadata. *)
Lemma C3_counterexample :
  with_metadata_prefix {[ "Content-Type" := "text/plain" ]} = ∅
  /\ GetObject example_store "b" "test-key"
       (fst (PutObject map_to_list example_store "b" "test-key"
               (bytes_of_string "test content") 12
               {[ "Content-Type" := "text/plain" ]} bucket_fs))
     = Ok (Reader (bytes_of_string "test content"),
           objectInfo "test-key" 12 (clock bucket_fs) {[ "Content-Type" := "text/plain" ]})
  /\ ({[ "Content-Type" := "text/plain" ]} : gmap string string)
     <> with_metadata_prefix {[ "Content-Type" := "text/plain" ]}
  /\ snd (PutObject map_to_list example_store "b" long_key (bytes_of_string "x") 1
            {[ "x-amz-meta-a" := "1" ]} bucket_fs)
     = Ok (objectInfo long_key 1 (clock bucket_fs) {[ "x-amz-meta-a" := "1" ]})
  /\ GetObject example_store "b" long_key
       (fst (PutObject map_to_list example_store "b" long_key (bytes_of_string "x") 1
               {[ "x-amz-meta-a" := "1" ]} bucket_fs))
     = Ok (Reader (bytes_of_string "x"), objectInfo long_key 1 (clock bucket_fs) ∅)
  /\ snd (PutObject map_to_list example_store "b" nul_key (bytes_of_string "x") 1
            ∅ bucket_fs)
     = Err os.EINVAL.
Proof.
  assert (E : with_metadata_prefix {[ "Content-Type" := "text/plain" ]} = ∅)
    by (vm_compute; reflexivity).
  split; [exact E|]. split; [vm_compute; reflexivity|].
  split; [|repeat split; vm_compute; reflexivity].
  rewrite E. intros H. apply (f_equal (fun m => m !! "Content-Type")) in H.
  rewrite lookup_singleton_eq, lookup_empty in H. discriminate H.
Qed.

(** A value with a line feed, even under a prefixed name, is not read back. *)
Example C3_line_feed_in_value :
  Metadata <$>
    (snd <$> content_info
       (GetObject example_store "b" "k"
          (fst (PutObject map_to_list example_store "b" "k" [] 0
                  {[ "x-amz-meta-note" := "two" +:+ LF +:+ "lines=1" ]} bucket_fs))))
  = Some {[ "x-amz-meta-note" := "two"; "lines" := "1" ]}.
Proof. vm_compute. reflexivity. Qed.

(** ** What a put leaves alone (C10) *)

Lemma is_dir_MkdirAll fs p q :
  is_dir (files (fst (os.MkdirAll fs p)) !! q) = false -> is_dir (files fs !! q) = false.
Proof.
  intros H. destruct (files fs !! q) as [[|]|] eqn:E; try reflexivity.
  rewrite (MkdirAll_keeps fs p q Dir E) in H. discriminate H.
Qed.

(** Whatever its outcome, a put changes the state at most at the object
    path and at the sidecar path, where no directory stood, and by creating
    directories at paths that did not exist. *)
Lemma PutObject_lookup (range : gmap string string -> list (string * string))
    (s : FileSystemStorage) (bucket key : string) (data : bytes) (size : Z)
    (metadata : gmap string string) (fs : FS) (q : path) :
  let P := filepath.Join (basePath s) [bucket; key] in
  let fs' := fst (PutObject range s bucket key data size metadata fs) in
  files fs' !! q = files fs !! q
  \/ (files fs !! q = None /\ files fs' !! q = Some Dir)
  \/ (q = P /\ P <> [] /\ is_dir (files fs !! P) = false)
  \/ (q = metadataPath P /\ P <> [] /\ is_dir (files fs !! metadataPath P) = false).
Proof.
  intros P fs'. subst fs'. unfold PutObject. fold P.
  destruct (BucketExists s bucket fs); cbn [negb fst]; [|left; reflexivity].
  unfold filepath.Dir.
  pose proof (MkdirAll_lookup fs (removelast P) q) as Hq1.
  pose proof (MkdirAll_clock fs (removelast P)) as Hclock.
  pose proof (is_dir_MkdirAll fs (removelast P)) as Hdirs.
  destruct (os.MkdirAll fs (removelast P)) as [fs1 [e|]]; cbn [fst] in *.
  { destruct Hq1 as [H | (Hn & Hd & _)]; [left; exact H | right; left; auto]. }
  destruct (os.Create fs1 P) as [fs2|e] eqn:EC; cbn [fst].
  2:{ destruct Hq1 as [H | (Hn & Hd & _)]; [left; exact H | right; left; auto]. }
  apply Create_inv in EC as (HP & _ & HdP & ->).
  destruct fs1 as [m1 t1]. cbn [files clock] in *. subst t1.
  rewrite Write_created.
  assert (Hbase : <[P := File data (clock fs)]> m1 !! q = files fs !! q
                  \/ (files fs !! q = None
                      /\ <[P := File data (clock fs)]> m1 !! q = Some Dir)
                  \/ (q = P /\ P <> [] /\ is_dir (files fs !! P) = false)
                  \/ (q = metadataPath P /\ P <> []
                      /\ is_dir (files fs !! metadataPath P) = false)).
  { destruct (decide (q = P)) as [->|HqP].
    - right. right. left. split; [reflexivity|]. split; [exact HP|].
      apply Hdirs, HdP.
    - rewrite lookup_insert_ne by congruence.
      destruct Hq1 as [H | (Hn & Hd & _)]; [left; exact H | right; left; auto]. }
  destruct (decide (0 < base.size metadata)%nat) as [Hpos|_]; [|exact Hbase].
  unfold storeMetadata.
  destruct (decide (base.size metadata = 0%nat)) as [Hz|_]; [lia|].
  destruct (os.Create _ (metadataPath P)) as [fs5|e] eqn:EC; cbn [fst]; [|exact Hbase].
  apply Create_inv in EC as (_ & _ & HdM & ->). cbn [files clock] in *.
  rewrite Write_created. cbn [files].
  destruct (decide (q = metadataPath P)) as [->|HqM].
  - right. right. right. split; [reflexivity|]. split; [exact HP|].
    rewrite lookup_insert_ne in HdM
      by (intros H; symmetry in H; exact (metadataPath_neq P H)).
    apply Hdirs, HdM.
  - rewrite lookup_insert_ne by congruence. exact Hbase.
Qed.

Section Frame.

Context (range : gmap string string -> list (string * string)).
Context (s : FileSystemStorage) (bucket key : string) (data : bytes) (size : Z).
Context (metadata : gmap string string) (fs : FS).

Let P := filepath.Join (basePath s) [bucket; key].
Let fs' := fst (PutObject range s bucket key data size metadata fs).

Lemma put_lookup (q : path) :
  files fs' !! q = files fs !! q
  \/ (files fs !! q = None /\ files fs' !! q = Some Dir)
  \/ (q = P /\ P <> [] /\ is_dir (files fs !! P) = false)
  \/ (q = metadataPath P /\ P <> [] /\ is_dir (files fs !! metadataPath P) = false).
Proof. exact (PutObject_lookup range s bucket key data size metadata fs q). Qed.

Lemma put_keeps_dirs (q : path) :
  os.node_at (files fs) q = Some Dir -> os.node_at (files fs') q = Some Dir.
Proof.
  destruct q as [|c q]; [trivial|]. cbn [os.node_at]. intros Hq.
  destruct (put_lookup (c :: q))
    as [H | [(Hn & _) | [(Heq & _ & Hd) | (Heq & _ & Hd)]]].
  - rewrite H. exact Hq.
  - rewrite Hq in Hn. discriminate Hn.
  - rewrite <- Heq, Hq in Hd. discriminate Hd.
  - rewrite <- Heq, Hq in Hd. discriminate Hd.
Qed.

Lemma put_keeps_Stat_dir (p : path) :
  os.Stat fs p = Ok Dir -> os.Stat fs' p = Ok Dir.
Proof.
  intros H. pose proof (Stat_NUL _ _ _ H) as Hnul.
  apply Stat_ok in H as [Hend Hpre]. apply Stat_intro; [exact Hnul | |].
  - apply put_keeps_dirs, Hend.
  - intros q Hq Hne. apply put_keeps_dirs, Hpre; assumption.
Qed.

Lemma put_keeps_file (p : path) (d : bytes) (t : Z) :
  os.Stat fs p = Ok (File d t) -> p <> P -> p <> metadataPath P ->
  os.Stat fs' p = Ok (File d t).
Proof.
  intros H HP HM. pose proof (Stat_NUL _ _ _ H) as Hnul.
  apply Stat_ok in H as [Hend Hpre]. apply Stat_intro; [exact Hnul | |].
  - destruct p as [|c p]; [discriminate Hend|]. cbn [os.node_at] in *.
    destruct (put_lookup (c :: p))
      as [H | [(Hn & _) | [(Heq & _) | (Heq & _)]]].
    + rewrite H. exact Hend.
    + rewrite Hend in Hn. discriminate Hn.
    + contradiction.
    + contradiction.
  - intros q Hq Hne. apply put_keeps_dirs, Hpre; assumption.
Qed.

Lemma put_keeps_metadata (p : path) (d : bytes) (t : Z) :
  os.Stat fs p = Ok (File d t) -> p <> P -> metadataPath p <> P ->
  loadMetadata p fs' = loadMetadata p fs.
Proof.
  intros H HP HM. apply Stat_ok in H as [Hend Hpre].
  assert (Hp : p <> []) by (intros ->; discriminate Hend).
  assert (Hparents : forall q, q `prefix_of` metadataPath p -> q <> metadataPath p ->
                       os.node_at (files fs) q = Some Dir).
  { intros q Hq Hne. apply Hpre.
    - apply prefix_removelast in Hq; [|exact Hne].
      rewrite metadataPath_parent in Hq by exact Hp.
      etransitivity; [exact Hq|]. rewrite (app_removelast_last "" Hp) at 2.
      apply prefix_app_r. reflexivity.
    - intros ->. apply (metadataPath_neq p). symmetry.
      apply prefix_length_eq; [exact Hq|].
      rewrite metadataPath_length by exact Hp. lia. }
  unfold loadMetadata.
  destruct (put_lookup (metadataPath p))
    as [H | [(Hn & Hd) | [(Heq & _) | (Heq & HPn & _)]]].
  - assert (E : os.ReadFile fs' (metadataPath p) = os.ReadFile fs (metadataPath p)).
    { unfold os.ReadFile. erewrite (Stat_agree fs' fs); [reflexivity| |].
      - intros q Hq Hne. left. rewrite (Hparents q Hq Hne).
        apply put_keeps_dirs, Hparents; assumption.
      - rewrite !node_at_lookup by apply metadataPath_not_nil. exact H. }
    rewrite E. reflexivity.
  - destruct (ReadFile_no_file fs (metadataPath p)) as [e He];
      [apply metadataPath_not_nil | rewrite Hn; reflexivity |].
    destruct (ReadFile_no_file fs' (metadataPath p)) as [e' He'];
      [apply metadataPath_not_nil | rewrite Hd; reflexivity |].
    rewrite He, He'. reflexivity.
  - contradiction.
  - apply metadataPath_inj in Heq; [contradiction | exact Hp | exact HPn].
Qed.

End Frame.

(** C10 (amended): a put changes nothing that [GetObject] shows of an
    existing object at another key, provided that the paths of the two keys
    differ and neither path is the other followed by the sidecar suffix;
    and a put with metadata that succeeds replaces, without an error, the
    object stored at the sidecar path by the text of the metadata. *)
Theorem C10_put_frame
    (range : gmap string string -> list (string * string))
    (s : FileSystemStorage) (bucket key : string) (data : bytes) (size : Z)
    (metadata : gmap string string) (fs : FS) :
  let P := filepath.Join (basePath s) [bucket; key] in
  let put := PutObject range s bucket key data size metadata fs in
  (forall (key' : string) (d' : bytes) (t' : Z),
     let P' := filepath.Join (basePath s) [bucket; key'] in
     os.Stat fs P' = Ok (File d' t') ->
     P' <> P -> P' <> metadataPath P -> metadataPath P' <> P ->
     GetObject s bucket key' (fst put) = GetObject s bucket key' fs)
  /\ (BucketExists s bucket fs = true -> creatable fs P = true ->
      (0 < base.size metadata)%nat -> is_file (files fs !! metadataPath P) = true ->
      snd put = Ok (objectInfo key (Z.of_nat (length data)) (clock fs) metadata)
      /\ files (fst put) !! metadataPath P
         = Some (File (bytes_of_string (metadata_text (range metadata))) (clock fs))).
Proof.
  intros P put. split.
  - intros key' d' t' P' Hst HP HM HM'.
    unfold GetObject. fold P'.
    destruct (BucketExists s bucket fs) eqn:Hb.
    + assert (Hb' : BucketExists s bucket (fst put) = true).
      { unfold BucketExists in *.
        destruct (os.Stat fs (filepath.Join (basePath s) [bucket])) as [[|]|] eqn:E;
          try discriminate Hb.
        subst put. rewrite (put_keeps_Stat_dir range s bucket key data size metadata fs _ E).
        reflexivity. }
      rewrite Hb'. cbn [negb]. rewrite Hst.
      subst put.
      rewrite (put_keeps_file range s bucket key data size metadata fs P' d' t' Hst HP HM).
      rewrite (put_keeps_metadata range s bucket key data size metadata fs P' d' t' Hst HP HM').
      reflexivity.
    + subst put. unfold PutObject. rewrite Hb. cbn [negb fst]. rewrite Hb. reflexivity.
  - intros Hb Hc Hpos Hfile. subst put. unfold P in *. apply creatable_can_create in Hc.
    rewrite (PutObject_ok range s bucket key data size metadata fs Hb Hc).
    cbn [fst snd files]. split; [reflexivity|].
    rewrite (put_files_sidecar range s bucket key data metadata fs Hc).
    destruct (decide (0 < base.size metadata)%nat); [|contradiction].
    unfold sidecar_written. rewrite Hfile. reflexivity.
Qed.

(** Putting [y] with metadata leaves the object [x] as it was. *)
Lemma C10_put_frame_witness :
  GetObject example_store "b" "x"
    (fst (PutObject map_to_list example_store "b" "y" (bytes_of_string "other") 5
            {[ "x-amz-meta-b" := "2" ]} object_fs))
  = GetObject example_store "b" "x" object_fs.
Proof.
  apply (proj1 (C10_put_frame map_to_list example_store "b" "y"
                  (bytes_of_string "other") 5 {[ "x-amz-meta-b" := "2" ]} object_fs)
               "x" (bytes_of_string "data") (clock bucket_fs)).
  - vm_compute. reflexivity.
  - vm_compute. discriminate.
  - vm_compute. discriminate.
  - vm_compute. discriminate.
Defined.

(** C10 (counterexample): the key [x] is neither [x.metadata] nor
    [x.metadata.metadata], and putting the object [x.metadata] replaces the
    metadata that [GetObject] shows for [x]. *)
Lemma C10_counterexample :
  "x" <> "x.metadata" /\ "x" <> "x.metadata" +:+ ".metadata"
  /\ metadata_of (GetObject example_store "b" "x" object_fs)
     = Some {[ "x-amz-meta-a" := "1" ]}
  /\ metadata_of
       (GetObject example_store "b" "x"
          (fst (PutObject map_to_list example_store "b" "x.metadata"
                  (bytes_of_string ("x-amz-meta-a=2" +:+ LF)) 15 ∅ object_fs)))
     = Some {[ "x-amz-meta-a" := "2" ]}.
Proof.
  split; [discriminate|]. split; [discriminate|].
  split; vm_compute; reflexivity.
Qed.

(** ** Completing a multipart upload (C4, C9) *)

Lemma Contains_uint (d : Decimal.uint) :
  strings.Contains (DecimalString.NilEmpty.string_of_uint d) "/" = false.
Proof.
  induction d; cbn [DecimalString.NilEmpty.string_of_uint]; [reflexivity|..];
    rewrite Contains_cons_ne by discriminate; assumption.
Qed.

Lemma Contains_format_d (z : Z) : strings.Contains (format_d z) "/" = false.
Proof.
  unfold format_d, DecimalString.NilZero.string_of_int,
    DecimalString.NilZero.string_of_uint.
  destruct (Z.to_int z) as [d|d]; destruct d; try reflexivity;
    rewrite ?(Contains_cons_ne "-"%char) by discriminate;
    apply (Contains_uint (_ _)).
Qed.

Lemma partPath_app (uploadDir : path) (n : Z) :
  partPath uploadDir n = uploadDir ++ ["part-" +:+ format_d n].
Proof.
  unfold partPath, filepath.Join. cbn [flat_map]. rewrite app_nil_r.
  rewrite Split_none.
  - cbn [fold_left]. unfold filepath.clean_step.
    rewrite !app_cons_s. cbn [String.eqb Ascii.eqb Bool.eqb orb andb].
    cbn [rev]. rewrite rev_involutive. reflexivity.
  - rewrite !app_cons_s, app_nil_l_s.
    rewrite !Contains_cons_ne by discriminate. apply Contains_format_d.
Qed.

Lemma partPath_below (uploadDir : path) (n : Z) :
  uploadDir `prefix_of` partPath uploadDir n.
Proof. rewrite partPath_app. apply prefix_app_r. reflexivity. Qed.

(** A file written at [P] is not seen when another path is resolved,
    unless resolution passes through [P] where there was no file. *)
Lemma Stat_insert_file (m : gmap path node) (P p : path) (acc : bytes) (t c c' : Z) :
  P <> [] -> p <> P -> (P `prefix_of` p -> is_file (m !! P) = true) ->
  os.Stat {| files := <[P := File acc t]> m; clock := c |} p
  = os.Stat {| files := m; clock := c' |} p.
Proof.
  intros HP Hp Hfile. apply Stat_agree; cbn [files].
  - intros q Hq Hne. destruct (decide (q = P)) as [->|HqP].
    + right. rewrite !node_at_lookup by exact HP. rewrite lookup_insert_eq.
      specialize (Hfile Hq). destruct (m !! P) as [[d t'|]|]; try discriminate Hfile.
      eauto 6.
    + left. destruct q as [|x q]; [reflexivity|]. cbn [os.node_at].
      apply lookup_insert_ne. congruence.
  - destruct p as [|x p]; [reflexivity|]. cbn [os.node_at].
    apply lookup_insert_ne. congruence.
Qed.

Lemma Write_insert (m : gmap path node) (P : path) (acc data : bytes) (t : Z) :
  os.Write {| files := <[P := File acc t]> m; clock := t |} P data
  = {| files := <[P := File (acc ++ data) t]> m; clock := t |}.
Proof.
  unfold os.Write. cbn [files clock]. rewrite lookup_insert_eq, insert_insert_eq.
  reflexivity.
Qed.

Section Concatenate.

Context (uploadDir P : path) (m : gmap path node) (t : Z).
Context (HP : P <> []) (Hout : ~ uploadDir `prefix_of` P).

(** Each part resolves in [m] as it does once the destination is written. *)
Lemma ReadFile_part (acc : bytes) (n : Z) :
  (P `prefix_of` partPath uploadDir n -> is_file (m !! P) = true) ->
  os.ReadFile {| files := <[P := File acc t]> m; clock := t |} (partPath uploadDir n)
  = os.ReadFile {| files := m; clock := t |} (partPath uploadDir n).
Proof.
  intros H. unfold os.ReadFile. rewrite (Stat_insert_file m P _ acc t t t HP); [reflexivity| |exact H].
  intros E. apply Hout. rewrite <- E. apply partPath_below.
Qed.

Let read_part := staged {| files := m; clock := t |} uploadDir.

Lemma concatenate_ok (parts : list CompletePart) (acc : bytes) (total : Z) :
  Forall (fun p =>
            (P `prefix_of` partPath uploadDir (CPartNumber p) -> is_file (m !! P) = true)
            /\ exists data,
                 os.ReadFile {| files := m; clock := t |}
                   (partPath uploadDir (CPartNumber p)) = Ok data) parts ->
  concatenate uploadDir P parts total {| files := <[P := File acc t]> m; clock := t |}
  = ({| files := <[P := File (acc ++ flat_map read_part parts) t]> m; clock := t |},
     Ok (total + Z.of_nat (length (flat_map read_part parts)))).
Proof.
  intros H. revert acc total. induction H as [|p parts [Hp [data Hd]] _ IH]; intros acc total.
  - cbn [concatenate flat_map length]. rewrite app_nil_r, Z.add_0_r. reflexivity.
  - assert (Hr : read_part p = data) by (unfold read_part, staged; rewrite Hd; reflexivity).
    cbn [concatenate flat_map]. rewrite ReadFile_part by exact Hp. rewrite Hd, Hr.
    rewrite Write_insert, IH.
    rewrite <- app_assoc, length_app, Nat2Z.inj_add, Z.add_assoc. reflexivity.
Qed.


End Concatenate.

Lemma below_false (p q : path) : os.below p q = false -> ~ p `prefix_of` q.
Proof. unfold os.below. apply bool_decide_eq_false. Qed.

Lemma RemoveAll_lookup_out fs p q :
  ~ p `prefix_of` q -> files (fst (os.RemoveAll fs p)) !! q = files fs !! q.
Proof.
  intros H. unfold os.RemoveAll.
  destruct (os.has_NUL p).
  { destruct (os.Stat fs (filepath.Dir p)) as [n|e]; [reflexivity|].
    destruct (os.IsNotExist e); reflexivity. }
  destruct (os.resolve (files fs) [] p) as [n|e].
  - cbn [fst files].
    destruct (files fs !! q) as [n'|] eqn:E.
    + apply map_lookup_filter_Some_2; [exact E | exact H].
    + apply map_lookup_filter_None_2. left. exact E.
  - destruct (os.IsNotExist e); reflexivity.
Qed.

Lemma RemoveAll_ok fs p n :
  os.Stat fs p = Ok n ->
  os.RemoveAll fs p
  = ({| files := filter (fun e => ~ p `prefix_of` fst e) (files fs); clock := clock fs |},
     None).
Proof.
  intros H. unfold os.RemoveAll. rewrite (Stat_NUL _ _ _ H).
  rewrite Stat_resolve in H by exact (Stat_NUL _ _ _ H). rewrite H. reflexivity.
Qed.

Lemma RemoveAll_lookup_in fs p q n :
  os.Stat fs p = Ok n -> p `prefix_of` q -> files (fst (os.RemoveAll fs p)) !! q = None.
Proof.
  intros Hs H. rewrite (RemoveAll_ok _ _ _ Hs). cbn [fst files].
  apply map_lookup_filter_None_2. right. intros n' _ Hn. exact (Hn H).
Qed.


Section Complete.

Context (s : FileSystemStorage) (bucket key uploadID : string) (fs : FS).

Let U := filepath.Join (basePath s) [bucket; ".uploads"; uploadID].
Let P := filepath.Join (basePath s) [bucket; key].

Context (Hcreatable : can_create fs P).
Context (Hout : ~ U `prefix_of` P).

(** A staged part is read from the state with the directories made as
    it is from the first state, and no resolution passes the destination. *)
Lemma staged_part_ready (m1 : gmap path node) (p : CompletePart) :
  is_dir (m1 !! P) = false ->
  (forall q n, os.Stat fs q = Ok n -> os.Stat {| files := m1; clock := clock fs |} q = Ok n) ->
  match os.Stat fs (partPath U (CPartNumber p)) with
  | Ok (File _ _) => true
  | _ => false
  end = true ->
  (P `prefix_of` partPath U (CPartNumber p) -> is_file (m1 !! P) = true)
  /\ (exists data, os.ReadFile {| files := m1; clock := clock fs |}
                     (partPath U (CPartNumber p)) = Ok data)
  /\ staged {| files := m1; clock := clock fs |} U p = staged fs U p.
Proof.
  intros HdP Hkeep Hst.
  destruct (os.Stat fs (partPath U (CPartNumber p))) as [[d t|]|] eqn:E;
    try discriminate Hst.
  pose proof (Hkeep _ _ E) as E1.
  split; [|split].
  - intros Hpre. exfalso.
    apply Stat_ok in E1 as [_ Hpar]. cbn [files] in Hpar.
    assert (HP : P <> []) by (apply creatable_inv in Hcreatable; tauto).
    assert (Hne : P <> partPath U (CPartNumber p)).
    { intros HPp. apply Hout. rewrite HPp. apply partPath_below. }
    specialize (Hpar P Hpre Hne). rewrite node_at_lookup in Hpar by exact HP.
    rewrite Hpar in HdP. discriminate HdP.
  - exists d. unfold os.ReadFile. rewrite E1. reflexivity.
  - unfold staged, os.ReadFile. rewrite E, E1. reflexivity.
Qed.

Lemma staged_parts_ready (m1 : gmap path node) (parts : list CompletePart) :
  is_dir (m1 !! P) = false ->
  (forall q n, os.Stat fs q = Ok n -> os.Stat {| files := m1; clock := clock fs |} q = Ok n) ->
  all_staged fs U parts = true ->
  Forall (fun p =>
            (P `prefix_of` partPath U (CPartNumber p) -> is_file (m1 !! P) = true)
            /\ exists data, os.ReadFile {| files := m1; clock := clock fs |}
                              (partPath U (CPartNumber p)) = Ok data) parts
  /\ flat_map (staged {| files := m1; clock := clock fs |} U) parts
     = flat_map (staged fs U) parts.
Proof.
  intros HdP Hkeep Hall. unfold all_staged in Hall. rewrite forallb_forall in Hall.
  split.
  - apply Forall_forall. intros p Hp. apply list_elem_of_In in Hp.
    destruct (staged_part_ready m1 p HdP Hkeep (Hall p Hp)) as (H1 & H2 & _). auto.
  - apply flat_map_ext_elem. intros p Hp. apply list_elem_of_In in Hp.
    destruct (staged_part_ready m1 p HdP Hkeep (Hall p Hp)) as (_ & _ & H3). exact H3.
Qed.

(** The destination resolves once it is written, whatever was removed
    below the staging directory. *)
Lemma destination_Stat (m1 : gmap path node) (data : bytes) (fs' : FS) :
  os.Stat {| files := m1; clock := clock fs |} (removelast P) = Ok Dir ->
  (forall q, ~ U `prefix_of` q -> files fs' !! q = <[P := File data (clock fs)]> m1 !! q) ->
  os.Stat fs' P = Ok (File data (clock fs)).
Proof.
  intros Hst Hsame.
  assert (HP : P <> []) by (apply creatable_inv in Hcreatable; tauto).
  apply Stat_ok in Hst as [Hend Hpar]. cbn [files] in *.
  apply Stat_intro.
  - apply (can_create_NUL _ _ Hcreatable).
  - rewrite node_at_lookup by exact HP. rewrite Hsame by exact Hout.
    apply lookup_insert_eq.
  - intros q Hq Hne. destruct q as [|c q]; [reflexivity|]. cbn [os.node_at].
    rewrite Hsame.
    + rewrite lookup_insert_ne by congruence.
      apply prefix_removelast in Hq; [|exact Hne].
      destruct (decide (c :: q = removelast P)) as [E|E].
      * rewrite E. rewrite <- E in Hend at 1. rewrite E in Hend. 
        rewrite node_at_lookup in Hend by (rewrite <- E; discriminate). exact Hend.
      * exact (Hpar (c :: q) Hq E).
    + intros HU. apply Hout. etransitivity; [exact HU | exact Hq].
Qed.

End Complete.

(** The session directory resolves as before once the destination is
    written. *)
Lemma session_Stat (U P : path) (m1 : gmap path node) (data : bytes) (t : Z) :
  P <> [] -> ~ U `prefix_of` P -> is_dir (m1 !! P) = false ->
  os.Stat {| files := m1; clock := t |} U = Ok Dir ->
  os.Stat {| files := <[P := File data t]> m1; clock := t |} U = Ok Dir.
Proof.
  intros HP Hout HdP HU. rewrite <- HU. apply Stat_insert_file.
  - exact HP.
  - intros ->. apply Hout. reflexivity.
  - intros Hpre. exfalso. apply Stat_ok in HU as [_ Hpar]. cbn [files] in Hpar.
    assert (Hne : P <> U) by (intros ->; apply Hout; reflexivity).
    specialize (Hpar P Hpre Hne). rewrite node_at_lookup in Hpar by exact HP.
    rewrite Hpar in HdP. discriminate HdP.
Qed.

(** C4 (amended): when the staging directory of the session exists, every
    part of the caller's list has a staged file, the destination path lies
    outside the staging directory and a file can be created at it (no file
    on the way, no directory at it, a path that the system takes),
    [CompleteMultipartUpload] succeeds, the destination holds the staged
    bytes of the parts in the order of the list, the size reported is their
    total length, and nothing is left at or below the staging directory.
    With part 1 [AAA] and part 2 [BBB], the list [1,2] gives [AAABBB] and
    the list [2,1] gives [BBBAAA]. *)
Theorem C4_complete_concatenates_in_list_order :
  (forall (s : FileSystemStorage) (bucket key uploadID : string)
          (parts : list CompletePart) (fs : FS),
     let U := filepath.Join (basePath s) [bucket; ".uploads"; uploadID] in
     let P := filepath.Join (basePath s) [bucket; key] in
     let r := CompleteMultipartUpload s bucket key uploadID parts fs in
     os.Stat fs U = Ok Dir ->
     creatable fs P = true -> os.below U P = false -> all_staged fs U parts = true ->
     snd r = Ok (objectInfo key (Z.of_nat (length (flat_map (staged fs U) parts)))
                   (clock fs) ∅)
     /\ os.Stat (fst r) P = Ok (File (flat_map (staged fs U) parts) (clock fs))
     /\ forall q, U `prefix_of` q -> files (fst r) !! q = None)
  /\ content (GetObject example_store "b" "k"
       (fst (CompleteMultipartUpload example_store "b" "k" "1700000000000000000"
               [part 1; part 2] staged_fs))) = Some "AAABBB"
  /\ content (GetObject example_store "b" "k"
       (fst (CompleteMultipartUpload example_store "b" "k" "1700000000000000000"
               [part 2; part 1] staged_fs))) = Some "BBBAAA".
Proof.
  split; [|split; vm_compute; reflexivity].
  intros s bucket key uploadID parts fs U P r HU Hc Hout Hall.
  apply below_false in Hout. apply creatable_can_create in Hc.
  destruct (create_destination fs P Hc) as (m1 & Hmk & Hcr & HdP & Hst & Hlook & Hkeep).
  destruct (staged_parts_ready s bucket key uploadID fs Hc Hout m1 parts HdP Hkeep Hall)
    as [Hready Hsame].
  assert (HP : P <> []) by (apply creatable_inv in Hc; tauto).
  assert (Hr : r = (fst (os.RemoveAll
                      {| files := <[P := File (flat_map (staged fs U) parts) (clock fs)]> m1;
                         clock := clock fs |} U),
                    Ok (objectInfo key (Z.of_nat (length (flat_map (staged fs U) parts)))
                          (clock fs) ∅))).
  { subst r. unfold CompleteMultipartUpload. fold U P. unfold filepath.Dir.
    rewrite Hmk, Hcr.
    rewrite (concatenate_ok U P m1 (clock fs) HP Hout parts [] 0 Hready).
    fold U in Hsame. rewrite Hsame. cbn [app files]. rewrite lookup_insert_eq.
    rewrite Z.add_0_l. reflexivity. }
  rewrite Hr. cbn [fst snd]. split; [reflexivity|]. split.
  - apply (destination_Stat s bucket key uploadID fs Hc Hout m1).
    + exact Hst.
    + intros q Hq. apply RemoveAll_lookup_out. exact Hq.
  - intros q Hq. apply (RemoveAll_lookup_in _ _ _ Dir); [|exact Hq].
    apply session_Stat; try assumption. apply Hkeep, HU.
Qed.

(** The two parts of the staged session, completed in the order [2,1]. *)
Lemma C4_complete_concatenates_in_list_order_witness :
  os.Stat (fst (CompleteMultipartUpload example_store "b" "k" "1700000000000000000"
                  [part 2; part 1] staged_fs))
          (filepath.Join (basePath example_store) ["b"; "k"])
  = Ok (File (flat_map (staged staged_fs
                          (filepath.Join (basePath example_store)
                             ["b"; ".uploads"; "1700000000000000000"]))
                       [part 2; part 1])
             (clock staged_fs)).
Proof.
  apply (proj1 C4_complete_concatenates_in_list_order example_store "b" "k"
           "1700000000000000000" [part 2; part 1] staged_fs).
  - vm_compute. reflexivity.
  - vm_compute. reflexivity.
  - vm_compute. reflexivity.
  - vm_compute. reflexivity.
Defined.

(** C4 (counterexample): both parts of the session are staged. With a key
    that names an existing directory, a key that passes through an
    existing object, a key with a NUL byte or a key of more than
    [os.NAME_MAX] bytes, the call fails and no object is produced. With a
    key that names a path inside the staging directory the call reports
    success with the size 6, but the object is removed with the staging
    directory. *)
Lemma C4_counterexample :
  let U := ["data"; "b"; ".uploads"; "1700000000000000000"] in
  let fs := put "k/x" "1" staged_fs in
  let inside := ".uploads/1700000000000000000/final" in
  let r := CompleteMultipartUpload example_store "b" inside "1700000000000000000"
             [part 1; part 2] staged_fs in
  (all_staged fs U [part 1; part 2] = true
   /\ snd (CompleteMultipartUpload example_store "b" "k" "1700000000000000000"
             [part 1; part 2] fs) = Err os.EISDIR
   /\ snd (CompleteMultipartUpload example_store "b" "k/x/y" "1700000000000000000"
             [part 1; part 2] fs) = Err os.ENOTDIR
   /\ snd (CompleteMultipartUpload example_store "b" nul_key "1700000000000000000"
             [part 1; part 2] fs) = Err os.EINVAL
   /\ snd (CompleteMultipartUpload example_store "b" (long_key +:+ "123456")
             "1700000000000000000" [part 1; part 2] fs) = Err os.ENAMETOOLONG)
  /\ (all_staged staged_fs U [part 1; part 2] = true
      /\ Size <$> (match snd r with Ok info => Some info | Err _ => None end) = Some 6
      /\ GetObject example_store "b" inside (fst r) = Err "object does not exist").
Proof.
  cbv zeta. repeat split; vm_compute; reflexivity.
Qed.




(** * Listing *)

Lemma take_prefix (p s : string) :
  String.prefix p s = true -> strings.take (String.length p) s = p.
Proof.
  revert s. induction p as [|c p IH]; intros s H.
  - destruct s; reflexivity.
  - destruct s as [|d s]; [discriminate H|].
    rewrite sprefix_cons in H. apply andb_true_iff in H as [Hc H].
    apply bool_decide_eq_true in Hc as ->. cbn [String.length strings.take].
    rewrite IH by exact H. reflexivity.
Qed.

(** The text up to the end of the first separator is the text before it
    followed by the separator. *)
Lemma take_Index (s sep : string) (i : nat) :
  strings.Index s sep = Some i ->
  strings.take (i + String.length sep) s = strings.take i s +:+ sep.
Proof.
  revert i. induction s as [|c s IH]; intros i; cbn [strings.Index].
  - destruct sep; simpl; [intros [= <-]; reflexivity | discriminate].
  - destruct (String.prefix sep (String c s)) eqn:Hp.
    + intros [= <-]. cbn [Nat.add strings.take]. rewrite app_nil_l_s.
      apply take_prefix, Hp.
    + destruct (strings.Index s sep) as [j|]; simpl; [|discriminate].
      intros [= <-]. cbn [Nat.add strings.take]. rewrite app_cons_s.
      rewrite (IH j eq_refl). reflexivity.
Qed.

(** The remainder of a key after the prefix is what [strings.TrimPrefix]
    leaves of a key that starts with the prefix. *)
Lemma remainder_drop (prefix key : string) :
  Listing.remainder prefix key = strings.drop (String.length prefix) key.
Proof.
  revert key. induction prefix as [|c prefix IH]; intros [|d key]; cbn; auto.
Qed.

Lemma remainder_TrimPrefix (prefix key : string) :
  (negb (String.eqb prefix "") && negb (strings.HasPrefix key prefix))%bool = false ->
  Listing.remainder prefix key = strings.TrimPrefix key prefix.
Proof.
  intros H. rewrite remainder_drop. unfold strings.TrimPrefix.
  destruct (strings.HasPrefix key prefix) eqn:Hp; [reflexivity|].
  destruct (String.eqb_spec prefix "") as [->|]; [reflexivity | discriminate H].
Qed.

(** The text up through the first delimiter is the text up to the end of
    the first place [strings.Index] finds it at. *)
Lemma through_first_Index (delimiter text : string) :
  Listing.through_first delimiter text
  = (fun i => strings.take (i + String.length delimiter) text)
      <$> strings.Index text delimiter.
Proof.
  induction text as [|c text IH]; cbn [Listing.through_first strings.Index].
  - destruct delimiter; reflexivity.
  - destruct (String.prefix delimiter (String c text)) eqn:Hp.
    + cbn. rewrite take_prefix by exact Hp. reflexivity.
    + rewrite IH. destruct (strings.Index text delimiter); reflexivity.
Qed.

Lemma filter_all {A : Type} (P : A -> Prop) `{!forall x, Decision (P x)} (l : list A) :
  (forall x, P x) -> filter P l = l.
Proof.
  intros Hall. induction l as [|x l IH]; [reflexivity|].
  rewrite filter_cons_True by apply Hall. rewrite IH. reflexivity.
Qed.

Section Visit.

Context (bucketPath : path) (prefix delimiter marker : string) (fs : FS).

Let step := visit bucketPath prefix delimiter marker fs.
Let class := Listing.classify bucketPath prefix delimiter marker fs.

Lemma visit_classify (st : walk_state) (e : path * node) :
  step st e = Listing.apply_outcome st (class e).
Proof.
  unfold step, class, visit, Listing.classify, Listing.discarded, Listing.common_prefix.
  destruct (snd e) as [data mtime|]; [|reflexivity]. cbv zeta.
  destruct (strings.HasSuffix _ ".metadata"); [reflexivity|]. cbn [orb].
  destruct (negb (String.eqb prefix "") && negb (strings.HasPrefix _ prefix))%bool eqn:Hp;
    [reflexivity|]. cbn [orb].
  destruct (negb (String.eqb marker "") && String.leb _ marker)%bool; [reflexivity|].
  destruct (String.eqb delimiter ""); cbn [negb]; [reflexivity|].
  rewrite through_first_Index, (remainder_TrimPrefix _ _ Hp).
  destruct (strings.Index _ delimiter) as [idx|]; reflexivity.
Qed.

Lemma fold_visit (l : list (path * node)) (st : walk_state) :
  Listing.seen_ok st ->
  let st' := fold_left step l st in
  ws_objects st' = ws_objects st ++ omap (fun e => Listing.listed_entry (class e)) l
  /\ ws_commonPrefixes st'
     = ws_commonPrefixes st
       ++ filter (fun cp => cp ∉ ws_commonPrefixes st)
            (Listing.first_occurrences
               (omap (fun e => Listing.rolled_entry (class e)) l)).
Proof.
  cbv zeta. revert st. induction l as [|e l IH]; intros st Hst.
  - cbn. rewrite !app_nil_r. auto.
  - cbn [fold_left omap list_omap]. rewrite visit_classify.
    destruct (class e) as [|cp|info]; cbn [Listing.listed_entry Listing.rolled_entry].
    + apply IH, Hst.
    + cbn [Listing.first_occurrences Listing.apply_outcome].
      destruct (default false (ws_prefixMap st !! cp)) eqn:Hseen.
      * apply Hst in Hseen. destruct (IH st Hst) as [-> ->]. split; [reflexivity|].
        f_equal. rewrite filter_cons_False by (intros H; exact (H Hseen)).
        rewrite list_filter_filter. apply list_filter_iff. intros y. split; [|tauto].
        intros Hy. split; [exact Hy|]. intros ->. exact (Hy Hseen).
      * assert (Hnew : cp ∉ ws_commonPrefixes st).
        { intros H. apply Hst in H. rewrite H in Hseen. discriminate Hseen. }
        match goal with |- context [fold_left step l ?s] => set (st1 := s) end.
        assert (Hst1 : Listing.seen_ok st1).
        { intros y. subst st1. cbn [ws_prefixMap ws_commonPrefixes].
          rewrite elem_of_app, list_elem_of_singleton.
          destruct (decide (y = cp)) as [->|Hne].
          - rewrite lookup_insert_eq. cbn. tauto.
          - rewrite lookup_insert_ne by congruence. rewrite (Hst y). tauto. }
        destruct (IH st1 Hst1) as [-> ->]. subst st1.
        cbn [ws_objects ws_commonPrefixes]. split; [reflexivity|].
        rewrite <- app_assoc. f_equal. cbn [app].
        rewrite filter_cons_True by exact Hnew. f_equal.
        rewrite list_filter_filter. apply list_filter_iff. intros y.
        rewrite elem_of_app, list_elem_of_singleton. tauto.
    + destruct (IH (Listing.apply_outcome st (Listing.Listed info)) Hst) as [-> ->].
      cbn [Listing.apply_outcome ws_objects ws_commonPrefixes].
      rewrite <- app_assoc. auto.
Qed.

End Visit.

(** The listing of an existing bucket. *)
Lemma ListObjects_spec (s : FileSystemStorage) (bucket prefix delimiter marker : string)
    (maxKeys : Z) (fs : FS) :
  BucketExists s bucket fs = true ->
  let bucketPath := filepath.Join (basePath s) [bucket] in
  let objects := Listing.listed bucketPath prefix delimiter marker fs in
  let prefixes :=
    Listing.first_occurrences (Listing.rolled_up bucketPath prefix delimiter marker fs) in
  ListObjects s bucket prefix delimiter marker maxKeys fs
  = Ok (if (0 <? maxKeys) && (maxKeys <? Z.of_nat (length objects))
        then {| Objects := firstn (Z.to_nat maxKeys) objects;
                CommonPrefixes := prefixes;
                IsTruncated := true;
                NextMarker :=
                  Key (nth (Z.to_nat (maxKeys - 1)) objects (objectInfo "" 0 0 ∅)) |}
        else {| Objects := objects;
                CommonPrefixes := prefixes;
                IsTruncated := false;
                NextMarker := "" |}).
Proof.
  intros Hb. cbv zeta. unfold ListObjects. rewrite Hb. cbn [negb].
  destruct (fold_visit (filepath.Join (basePath s) [bucket]) prefix delimiter marker fs
              (os.Walk fs (filepath.Join (basePath s) [bucket]))
              {| ws_objects := []; ws_commonPrefixes := []; ws_prefixMap := ∅ |})
    as [Ho Hc].
  { intros cp. cbn [ws_prefixMap ws_commonPrefixes]. rewrite lookup_empty. cbn.
    split; [discriminate|]. intros H. apply elem_of_nil in H. contradiction. }
  cbn [ws_objects ws_commonPrefixes app] in Ho, Hc.
  rewrite Ho, Hc. fold (Listing.listed (filepath.Join (basePath s) [bucket]) prefix
                          delimiter marker fs).
  fold (Listing.rolled_up (filepath.Join (basePath s) [bucket]) prefix delimiter marker fs).
  rewrite filter_all by (intros x H; apply elem_of_nil in H; exact H).
  destruct ((0 <? maxKeys) && _)%bool; reflexivity.
Qed.

Lemma last_take_nth {A : Type} (l : list A) (n : nat) (d : A) :
  (0 < n <= length l)%nat -> last (take n l) = Some (nth (n - 1) l d).
Proof.
  intros Hn. rewrite last_lookup, length_take, Nat.min_l by lia.
  replace (Nat.pred n) with (n - 1)%nat by lia.
  rewrite lookup_take_lt by lia. rewrite nth_lookup.
  destruct (lookup_lt_is_Some_2 l (n - 1)%nat) as [x ->]; [lia|]. reflexivity.
Qed.

(** C5: in an existing bucket, the common prefixes of the result are the
    common prefixes of the surviving keys whose remainder after the prefix
    has the delimiter, each once; the objects of the result are the
    surviving keys without a delimiter in the remainder, all of them when
    the result is not truncated; a key survives when it starts with the
    prefix (if there is one) and is after the marker (if there is one).
    Over the objects [a/x], [a/y], [top] the delimiter [/] gives the
    contents [top] and the common prefix [a/]; over [a/x], [a/y], [b/z] the
    prefix [a/] without a delimiter gives [a/x] and [a/y] and no common
    prefix.  Over the objects [a/b/y], [a/b/z], [a/c/w], [a/x], [top] the
    prefix [a/] with the delimiter [/] gives the contents [a/x] and the
    common prefixes [a/b/] (once, for two keys) and [a/c/]; with the marker
    [a/b/z] as well, [a/x] and [a/c/]; and the prefix [a/b] with the
    delimiter [/] gives no contents and the common prefix [a/b/]. *)
Theorem C5_list_objects_rolls_up_common_prefixes :
  (forall (s : FileSystemStorage) (bucket prefix delimiter marker : string)
          (maxKeys : Z) (fs : FS),
     BucketExists s bucket fs = true ->
     exists res,
       ListObjects s bucket prefix delimiter marker maxKeys fs = Ok res
       /\ CommonPrefixes res
          = Listing.first_occurrences
              (Listing.rolled_up (filepath.Join (basePath s) [bucket])
                 prefix delimiter marker fs)
       /\ Objects res `prefix_of`
            Listing.listed (filepath.Join (basePath s) [bucket]) prefix delimiter marker fs
       /\ (IsTruncated res = false ->
           Objects res
           = Listing.listed (filepath.Join (basePath s) [bucket])
               prefix delimiter marker fs))
  /\ keys (ListObjects example_store "b" "" "/" "" 1000 listing_fs) = ["top"]
  /\ common_prefixes (ListObjects example_store "b" "" "/" "" 1000 listing_fs) = ["a/"]
  /\ keys (ListObjects example_store "b" "a/" "" "" 1000 listing_fs') = ["a/x"; "a/y"]
  /\ common_prefixes (ListObjects example_store "b" "a/" "" "" 1000 listing_fs') = []
  /\ keys (ListObjects example_store "b" "" "" "" 1000 nested_fs)
     = ["a/b/y"; "a/b/z"; "a/c/w"; "a/x"; "top"]
  /\ keys (ListObjects example_store "b" "a/" "/" "" 1000 nested_fs) = ["a/x"]
  /\ common_prefixes (ListObjects example_store "b" "a/" "/" "" 1000 nested_fs)
     = ["a/b/"; "a/c/"]
  /\ Listing.rolled_up (filepath.Join (basePath example_store) ["b"]) "a/" "/" "" nested_fs
     = ["a/b/"; "a/b/"; "a/c/"]
  /\ keys (ListObjects example_store "b" "a/" "/" "a/b/z" 1000 nested_fs) = ["a/x"]
  /\ common_prefixes (ListObjects example_store "b" "a/" "/" "a/b/z" 1000 nested_fs)
     = ["a/c/"]
  /\ keys (ListObjects example_store "b" "a/b" "/" "" 1000 nested_fs) = []
  /\ common_prefixes (ListObjects example_store "b" "a/b" "/" "" 1000 nested_fs)
     = ["a/b/"]
  /\ Listing.remainder "a/" "a/b/y" = "b/y"
  /\ Listing.common_prefix "a/" "/" "a/b/y" = Some "a/b/"
  /\ Listing.common_prefix "a/" "/" "a/x" = None
  /\ Listing.common_prefix "" "/" "a/b/y" = Some "a/"
  /\ Listing.common_prefix "a/" "" "a/b/y" = None.
Proof.
  split.
  { intros s bucket prefix delimiter marker maxKeys fs Hb.
    rewrite (ListObjects_spec s bucket prefix delimiter marker maxKeys fs Hb).
    eexists. split; [reflexivity|].
    destruct ((0 <? maxKeys) && _)%bool; cbn [CommonPrefixes Objects IsTruncated].
    - split; [reflexivity|]. split; [apply prefix_take | discriminate].
    - split; [reflexivity|]. split; [reflexivity | reflexivity]. }
  do 16 (split; [vm_compute; reflexivity|]).
  vm_compute; reflexivity.
Qed.

(** The listing under the prefix [a/] with the delimiter [/] of the bucket
    with [a/b/y], [a/b/z], [a/c/w], [a/x] and [top]. *)
Lemma C5_list_objects_rolls_up_common_prefixes_witness :
  exists res,
    ListObjects example_store "b" "a/" "/" "" 0 nested_fs = Ok res
    /\ CommonPrefixes res
       = Listing.first_occurrences
           (Listing.rolled_up (filepath.Join (basePath example_store) ["b"])
              "a/" "/" "" nested_fs)
    /\ Objects res `prefix_of`
         Listing.listed (filepath.Join (basePath example_store) ["b"]) "a/" "/" "" nested_fs
    /\ (IsTruncated res = false ->
        Objects res
        = Listing.listed (filepath.Join (basePath example_store) ["b"])
            "a/" "/" "" nested_fs).
Proof.
  apply (proj1 C5_list_objects_rolls_up_common_prefixes example_store "b" "a/" "/" "" 0
           nested_fs).
  vm_compute. reflexivity.
Defined.

(** C6: in an existing bucket and with a positive [maxKeys], when more
    entries survive the filters than [maxKeys], the result has the first
    [maxKeys] of them, is truncated, and its next marker is the key of the
    last object returned; otherwise the result has all of them, is not
    truncated, and its next marker is empty. *)
Theorem C6_max_keys_truncates
    (s : FileSystemStorage) (bucket prefix delimiter marker : string)
    (maxKeys : Z) (fs : FS) :
  BucketExists s bucket fs = true ->
  0 < maxKeys ->
  let survivors :=
    Listing.listed (filepath.Join (basePath s) [bucket]) prefix delimiter marker fs in
  exists res,
    ListObjects s bucket prefix delimiter marker maxKeys fs = Ok res
    /\ (maxKeys < Z.of_nat (length survivors) ->
        Objects res = firstn (Z.to_nat maxKeys) survivors
        /\ Z.of_nat (length (Objects res)) = maxKeys
        /\ IsTruncated res = true
        /\ Key <$> last (Objects res) = Some (NextMarker res))
    /\ (Z.of_nat (length survivors) <= maxKeys ->
        Objects res = survivors
        /\ IsTruncated res = false
        /\ NextMarker res = "").
Proof.
  intros Hb Hpos survivors.
  rewrite (ListObjects_spec s bucket prefix delimiter marker maxKeys fs Hb).
  fold survivors. eexists. split; [reflexivity|].
  destruct (Z.ltb_spec maxKeys (Z.of_nat (length survivors))) as [Hlt | Hge];
    destruct (Z.ltb_spec 0 maxKeys) as [_ | Hneg]; try lia; cbn [andb].
  - split; [|lia]. intros _. cbn [Objects IsTruncated NextMarker].
    split; [reflexivity|]. split; [rewrite length_take; lia|]. split; [reflexivity|].
    rewrite (last_take_nth survivors (Z.to_nat maxKeys) (objectInfo "" 0 0 ∅)) by lia.
    replace (Z.to_nat maxKeys - 1)%nat with (Z.to_nat (maxKeys - 1)) by lia.
    reflexivity.
  - split; [lia|]. intros _. cbn [Objects IsTruncated NextMarker]. auto.
Qed.

(** With [maxKeys] 1 over the three objects [a/x], [a/y] and [b/z]: one
    object, truncated, and the next marker is its key. *)
Lemma C6_max_keys_truncates_witness :
  exists res,
    ListObjects example_store "b" "" "" "" 1 listing_fs' = Ok res
    /\ map Key (Objects res) = ["a/x"]
    /\ IsTruncated res = true
    /\ NextMarker res = "a/x".
Proof.
  destruct (C6_max_keys_truncates example_store "b" "" "" "" 1 listing_fs')
    as (res & Hres & Hmore & _).
  - vm_compute. reflexivity.
  - lia.
  - exists res. split; [exact Hres|].
    destruct Hmore as (Hobj & _ & Htr & Hlast); [vm_compute; reflexivity|].
    assert (Hk : map Key (Objects res) = ["a/x"]).
    { rewrite Hobj. vm_compute. reflexivity. }
    split; [exact Hk|]. split; [exact Htr|].
    rewrite <- fmap_last in Hlast. change (fmap Key (Objects res)) with (map Key (Objects res)) in Hlast.
    rewrite Hk in Hlast. cbn in Hlast. congruence.
Defined.

(** * Buckets *)

Lemma removelast_snoc {A : Type} (l : list A) (x : A) : removelast (l ++ [x]) = l.
Proof. apply removelast_last. Qed.

Lemma children_spec (m : gmap path node) (p : path) (name : string) (n : node) :
  (name, n) ∈ children m p <-> m !! (p ++ [name]) = Some n.
Proof.
  unfold children. rewrite list_elem_of_omap. split.
  - intros [[q n'] [Hin Hc]]. apply elem_of_map_to_list in Hin.
    unfold child_of in Hc. cbn [fst snd] in Hc.
    destruct (decide (q <> [] /\ removelast q = p)) as [[Hq Hp]|]; [|discriminate Hc].
    injection Hc as <- <-. rewrite <- Hp, <- app_removelast_last by exact Hq. exact Hin.
  - intros H. exists (p ++ [name], n). split; [apply elem_of_map_to_list, H|].
    unfold child_of. cbn [fst snd]. rewrite removelast_snoc, last_last.
    destruct (decide _) as [|Hn]; [reflexivity|].
    exfalso. apply Hn. split; [|reflexivity]. intros E. destruct p; discriminate E.
Qed.

Lemma children_nil (m : gmap path node) (p : path) :
  (forall name, m !! (p ++ [name]) = None) -> children m p = [].
Proof.
  intros H. destruct (children m p) as [|[name n] l] eqn:E; [reflexivity|].
  assert (Hin : (name, n) ∈ children m p) by (rewrite E; left).
  apply children_spec in Hin. rewrite H in Hin. discriminate Hin.
Qed.

Lemma ReadDir_ok (fs : FS) (p : path) :
  os.Stat fs p = Ok Dir ->
  exists entries,
    ReadDir fs p = Ok entries /\ entries ≡ₚ children (files fs) p.
Proof.
  intros H. unfold ReadDir. rewrite H. eexists. split; [reflexivity|].
  apply merge_sort_Permutation.
Qed.

Lemma Stat_prefix (fs : FS) (p q : path) (n : node) :
  os.Stat fs p = Ok n -> q `prefix_of` p -> q <> p -> os.Stat fs q = Ok Dir.
Proof.
  intros H Hq Hne. pose proof (Stat_NUL _ _ _ H) as Hnul.
  apply Stat_ok in H as [_ Hpar]. apply Stat_intro.
  - exact (has_NUL_prefix q p Hq Hnul).
  - apply Hpar; assumption.
  - intros r Hr Hrq. apply Hpar; [etransitivity; eassumption|].
    intros ->. apply Hrq. apply (anti_symm prefix); assumption.
Qed.

Lemma Stat_lookup (fs : FS) (p : path) (n : node) :
  os.Stat fs p = Ok n -> p <> [] -> files fs !! p = Some n.
Proof.
  intros H Hp. apply Stat_ok in H as [H _]. rewrite node_at_lookup in H by exact Hp.
  exact H.
Qed.

Lemma resolve_missing (m : gmap path node) (cur rest : path) :
  (forall q, q `prefix_of` rest -> q <> rest -> os.node_at m (cur ++ q) = Some Dir) ->
  os.node_at m (cur ++ rest) = None ->
  os.resolve m cur rest = Err (os.lookup_error (cur ++ rest)).
Proof.
  revert cur. induction rest as [|c rest IH]; intros cur Hpre Hend.
  - simpl. rewrite app_nil_r in Hend |- *. rewrite Hend. reflexivity.
  - cbn [os.resolve].
    pose proof (Hpre [] (prefix_nil _) ltac:(discriminate)) as H0.
    rewrite app_nil_r in H0. rewrite H0.
    replace (cur ++ c :: rest) with ((cur ++ [c]) ++ rest) by (rewrite <- app_assoc; reflexivity).
    apply IH.
    + intros q Hq Hne. rewrite <- app_assoc.
      apply Hpre; [apply prefix_cons, Hq | intros [= E]; exact (Hne E)].
    + rewrite <- app_assoc. exact Hend.
Qed.

Lemma Stat_missing (fs : FS) (p : path) :
  os.has_NUL p = false ->
  (forall q, q `prefix_of` p -> q <> p -> os.node_at (files fs) q = Some Dir) ->
  os.node_at (files fs) p = None ->
  os.Stat fs p = Err (os.lookup_error p).
Proof.
  intros Hn H1 H2. rewrite Stat_resolve by exact Hn.
  apply (resolve_missing (files fs) [] p); assumption.
Qed.

Lemma mkdir_all_existing (m : gmap path node) (cur rest : path) :
  os.has_NUL rest = false ->
  (forall q, q `prefix_of` rest -> q <> [] -> m !! (cur ++ q) = Some Dir) ->
  os.mkdir_all m cur rest = (m, None).
Proof.
  revert cur. induction rest as [|c rest IH]; intros cur Hn H; [reflexivity|].
  cbn [os.mkdir_all]. cbn [os.has_NUL existsb] in Hn.
  apply orb_false_iff in Hn as [Hc Hn]. rewrite Hc.
  rewrite (H [c]) by (try discriminate; apply prefix_cons, prefix_nil).
  apply IH; [exact Hn|]. intros q Hq Hne. rewrite <- app_assoc. apply H; [|discriminate].
  apply prefix_cons, Hq.
Qed.

Lemma MkdirAll_existing (fs : FS) (p : path) :
  os.Stat fs p = Ok Dir -> os.MkdirAll fs p = (fs, None).
Proof.
  intros H. unfold os.MkdirAll. rewrite mkdir_all_existing.
  - destruct fs; reflexivity.
  - exact (Stat_NUL _ _ _ H).
  - intros q Hq Hne. cbn [app].
    destruct (decide (q = p)) as [->|Hqp].
    + apply Stat_lookup; assumption.
    + apply Stat_lookup; [|exact Hne]. exact (Stat_prefix fs p q Dir H Hq Hqp).
Qed.

Lemma BucketExists_Stat (s : FileSystemStorage) (bucket : string) (fs : FS) :
  BucketExists s bucket fs = true <->
  os.Stat fs (filepath.Join (basePath s) [bucket]) = Ok Dir.
Proof.
  unfold BucketExists.
  destruct (os.Stat fs _) as [[|]|]; split; congruence.
Qed.

Lemma name_le_sorted_names (entries : list (string * node)) :
  StronglySorted name_le entries ->
  StronglySorted str_le
    (omap (fun e => match snd e with Dir => Some (fst e) | File _ _ => None end) entries).
Proof.
  induction 1 as [|e l Hl IH Hall]; [constructor|].
  cbn [omap list_omap]. destruct (snd e); [exact IH|]. constructor; [exact IH|].
  apply Forall_forall. intros x Hx. apply list_elem_of_omap in Hx as [e' [He' Hx]].
  destruct (snd e'); [discriminate Hx|]. injection Hx as <-.
  rewrite Forall_forall in Hall. exact (Hall e' He').
Qed.

#[global] Instance name_le_trans : Transitive name_le.
Proof. intros a b c. unfold name_le. apply str_le_trans. Qed.

#[global] Instance name_le_total : Total name_le.
Proof. intros a b. unfold name_le. apply str_le_total. Qed.

(** X1: when [CreateBucket] returns no error the bucket exists afterwards
    and every file and directory that was there is still there; creating a
    bucket that exists changes nothing and returns no error. *)
Theorem CreateBucket_creates_and_is_idempotent
    (s : FileSystemStorage) (bucket : string) (fs : FS) :
  (snd (CreateBucket s bucket fs) = None ->
   BucketExists s bucket (fst (CreateBucket s bucket fs)) = true
   /\ forall q n, os.Stat fs q = Ok n -> os.Stat (fst (CreateBucket s bucket fs)) q = Ok n)
  /\ (BucketExists s bucket fs = true -> CreateBucket s bucket fs = (fs, None)).
Proof.
  split.
  - intros H. split.
    + apply BucketExists_Stat. apply MkdirAll_Stat. exact H.
    + intros q n Hq. apply MkdirAll_Stat_keeps. exact Hq.
  - intros H. apply BucketExists_Stat in H. apply MkdirAll_existing. exact H.
Qed.

Lemma CreateBucket_creates_and_is_idempotent_witness :
  BucketExists example_store "b" (fst (CreateBucket example_store "b" empty_fs)) = true
  /\ CreateBucket example_store "b" bucket_fs = (bucket_fs, None).
Proof.
  split.
  - apply (proj1 (CreateBucket_creates_and_is_idempotent example_store "b" empty_fs)).
    vm_compute. reflexivity.
  - apply (proj2 (CreateBucket_creates_and_is_idempotent example_store "b" bucket_fs)).
    vm_compute. reflexivity.
Defined.

Lemma DeleteBucket_not_empty (s : FileSystemStorage) (bucket : string) (fs : FS)
    (name : string) (n : node) :
  BucketExists s bucket fs = true ->
  files fs !! (filepath.Join (basePath s) [bucket] ++ [name]) = Some n ->
  DeleteBucket s bucket fs = (fs, Some "bucket is not empty").
Proof.
  intros Hb Hn. unfold DeleteBucket. apply BucketExists_Stat in Hb.
  destruct (ReadDir_ok fs _ Hb) as [entries [-> Hperm]].
  assert (Hin : (name, n) ∈ entries).
  { rewrite Hperm. apply children_spec, Hn. }
  destruct entries as [|e entries]; [apply elem_of_nil in Hin; contradiction|].
  reflexivity.
Qed.

Lemma DeleteBucket_empty (s : FileSystemStorage) (bucket : string) (fs : FS) :
  let B := filepath.Join (basePath s) [bucket] in
  BucketExists s bucket fs = true -> B <> [] -> nothing_below fs B = true ->
  DeleteBucket s bucket fs
  = ({| files := delete B (files fs); clock := clock fs |}, None)
  /\ BucketExists s bucket {| files := delete B (files fs); clock := clock fs |} = false.
Proof.
  intros B Hb HB Hnone. unfold DeleteBucket. fold B.
  apply BucketExists_Stat in Hb. fold B in Hb.
  assert (Hempty : forall q, B `prefix_of` q -> q <> B -> files fs !! q = None).
  { intros q Hq Hne. unfold nothing_below in Hnone. apply bool_decide_eq_true in Hnone.
    destruct (files fs !! q) as [n|] eqn:E; [|reflexivity].
    destruct (Hnone q n E) as [->|Hn]; [contradiction | exfalso; exact (Hn Hq)]. }
  destruct (ReadDir_ok fs B Hb) as [entries [-> Hperm]].
  rewrite children_nil in Hperm.
  2:{ intros name. apply Hempty; [apply prefix_app_r; reflexivity|].
      intros E. apply (f_equal length) in E. rewrite length_app in E. simpl in E. lia. }
  apply Permutation_nil_r in Hperm. subst entries. cbn [length Nat.ltb Nat.leb].
  assert (Hrm : os.Remove fs B
                = ({| files := delete B (files fs); clock := clock fs |}, None)).
  { unfold os.Remove. rewrite Hb. fold (nothing_below fs B). rewrite Hnone. reflexivity. }
  rewrite Hrm. split; [reflexivity|].
  unfold BucketExists. fold B. rewrite Stat_missing; [reflexivity | | |].
  - exact (Stat_NUL _ _ _ Hb).
  - intros q Hq Hne. cbn [files]. destruct q as [|c q]; [reflexivity|].
    cbn [os.node_at]. rewrite lookup_delete_ne by (intros E; apply Hne; auto).
    pose proof (Stat_prefix fs B (c :: q) Dir Hb Hq Hne) as Hd.
    apply Stat_lookup in Hd; [exact Hd | discriminate].
  - cbn [files]. rewrite node_at_lookup by exact HB. apply lookup_delete_eq.
Qed.

(** X2: [DeleteBucket] answers [bucket does not exist] when nothing is at
    the bucket's path, and [bucket is not empty], leaving everything as it
    is, when the bucket's directory has an entry; a bucket with nothing
    below it is removed and does not exist afterwards. *)
Theorem DeleteBucket_cases (s : FileSystemStorage) (bucket : string) (fs : FS) :
  let B := filepath.Join (basePath s) [bucket] in
  (os.Stat fs B = Err os.ENOENT ->
   DeleteBucket s bucket fs = (fs, Some "bucket does not exist"))
  /\ (BucketExists s bucket fs = true ->
      (exists name n, files fs !! (B ++ [name]) = Some n) ->
      DeleteBucket s bucket fs = (fs, Some "bucket is not empty"))
  /\ (BucketExists s bucket fs = true -> B <> [] -> nothing_below fs B = true ->
      DeleteBucket s bucket fs
      = ({| files := delete B (files fs); clock := clock fs |}, None)
      /\ BucketExists s bucket (fst (DeleteBucket s bucket fs)) = false).
Proof.
  intros B. split; [|split].
  - intros H. unfold DeleteBucket, ReadDir. fold B. rewrite H. reflexivity.
  - intros Hb [name [n Hn]]. exact (DeleteBucket_not_empty s bucket fs name n Hb Hn).
  - intros Hb HB Hnone.
    destruct (DeleteBucket_empty s bucket fs Hb HB Hnone) as [-> H]. auto.
Qed.

(** The bucket [b]: missing, with an object in it, and empty. *)
Lemma DeleteBucket_cases_witness :
  DeleteBucket example_store "b" empty_fs = (empty_fs, Some "bucket does not exist")
  /\ DeleteBucket example_store "b" object_fs = (object_fs, Some "bucket is not empty")
  /\ BucketExists example_store "b" (fst (DeleteBucket example_store "b" bucket_fs))
     = false.
Proof.
  split; [|split].
  - apply (proj1 (DeleteBucket_cases example_store "b" empty_fs)).
    vm_compute. reflexivity.
  - apply (proj1 (proj2 (DeleteBucket_cases example_store "b" object_fs))).
    + vm_compute. reflexivity.
    + exists "x", (File (bytes_of_string "data") (clock bucket_fs)).
      vm_compute. reflexivity.
  - apply (proj2 (proj2 (DeleteBucket_cases example_store "b" bucket_fs))).
    + vm_compute. reflexivity.
    + discriminate.
    + vm_compute. reflexivity.
Defined.

(** * Multipart sessions *)

(** ** Paths *)

Lemma clean_step_plain (acc : list string) (name : string) :
  plain_name name = true -> filepath.clean_step acc name = name :: acc.
Proof.
  unfold plain_name, filepath.clean_step. intros H.
  apply andb_true_iff in H as [H H3]. apply andb_true_iff in H as [H H2].
  apply andb_true_iff in H as [_ H1].
  apply negb_true_iff in H1, H2, H3. rewrite H1, H2, H3. reflexivity.
Qed.

Lemma Split_plain (name : string) :
  plain_name name = true -> strings.Split name "/" = [name].
Proof.
  unfold plain_name. intros H.
  apply andb_true_iff in H as [H _]. apply andb_true_iff in H as [H _].
  apply andb_true_iff in H as [H _]. apply negb_true_iff in H.
  apply Split_none, H.
Qed.

(** Joining a plain name to a path adds it as the last component. *)
Lemma Join_snoc (base : path) (elems : list string) (name : string) :
  plain_name name = true ->
  filepath.Join base (elems ++ [name]) = filepath.Join base elems ++ [name].
Proof.
  intros H. unfold filepath.Join. rewrite flat_map_app, fold_left_app.
  cbn [flat_map]. rewrite app_nil_r, (Split_plain name H). cbn [fold_left].
  rewrite (clean_step_plain _ name H). reflexivity.
Qed.



Lemma format_d_plain (z : Z) : plain_name (format_d z) = true.
Proof.
  unfold plain_name. rewrite Contains_format_d. cbn [negb andb].
  unfold format_d, DecimalString.NilZero.string_of_int,
    DecimalString.NilZero.string_of_uint.
  destruct (Z.to_int z) as [d|d]; destruct d; reflexivity.
Qed.






Lemma NUL_uint (d : Decimal.uint) :
  strings.Contains (DecimalString.NilEmpty.string_of_uint d) os.NUL = false.
Proof.
  unfold os.NUL.
  induction d; cbn [DecimalString.NilEmpty.string_of_uint]; [reflexivity|..];
    rewrite Contains_cons_ne by discriminate; assumption.
Qed.

Lemma NUL_format_d (z : Z) : strings.Contains (format_d z) os.NUL = false.
Proof.
  unfold format_d, DecimalString.NilZero.string_of_int,
    DecimalString.NilZero.string_of_uint.
  destruct (Z.to_int z) as [d|d]; destruct d; try reflexivity; unfold os.NUL;
    rewrite ?(Contains_cons_ne "-"%char) by discriminate;
    apply (NUL_uint (_ _)).
Qed.

Lemma partPath_NUL (uploadDir : path) (n : Z) :
  os.has_NUL uploadDir = false -> os.has_NUL (partPath uploadDir n) = false.
Proof.
  intros H. rewrite partPath_app, has_NUL_app, H. cbn [orb os.has_NUL existsb].
  rewrite orb_false_r. apply Contains_app_1; [reflexivity | apply NUL_format_d].
Qed.



Lemma partPath_parent (uploadDir : path) (n : Z) :
  removelast (partPath uploadDir n) = uploadDir.
Proof. rewrite partPath_app. apply removelast_snoc. Qed.

Lemma partPath_not_nil (uploadDir : path) (n : Z) : partPath uploadDir n <> [].
Proof. rewrite partPath_app. intros H. destruct uploadDir; discriminate H. Qed.

Lemma Stat_none (fs : FS) (p : path) :
  os.node_at (files fs) p = None -> exists e, os.Stat fs p = Err e.
Proof.
  intros H. destruct (os.Stat fs p) as [n|e] eqn:E; [|eauto].
  apply Stat_ok in E as [E _]. rewrite E in H. discriminate H.
Qed.

Lemma FS_eta (fs : FS) : {| files := files fs; clock := clock fs |} = fs.
Proof. destruct fs; reflexivity. Qed.

(** ** Staging a part *)

Section Stage.

Context (s : FileSystemStorage) (bucket key uploadID : string).
Context (n : Z) (data : bytes) (size : Z) (fs : FS).

Let U := filepath.Join (basePath s) [bucket; ".uploads"; uploadID].


Lemma UploadPart_no_session :
  os.Stat fs U <> Ok Dir ->
  exists e, UploadPart s bucket key uploadID n data size fs = (fs, Err e).
Proof.
  intros HU. unfold UploadPart. fold U. unfold os.Create.
  destruct (os.has_NUL (partPath U n)); [eauto|].
  destruct (partPath U n) as [|c q] eqn:E; [exfalso; exact (partPath_not_nil U n E)|].
  rewrite <- E. unfold filepath.Dir. rewrite partPath_parent.
  destruct (os.Stat fs U) as [[d t|]|e]; [eauto | contradiction | eauto].
Qed.

Lemma Stat_staged (m : gmap path node) (t : Z) (d : bytes) :
  os.Stat {| files := m; clock := t |} U = Ok Dir ->
  os.Stat {| files := <[partPath U n := File d t]> m; clock := t |} (partPath U n)
  = Ok (File d t).
Proof.
  intros HU. apply Stat_intro; cbn [files].
  - apply partPath_NUL, (Stat_NUL _ _ _ HU).
  - rewrite node_at_lookup by apply partPath_not_nil. apply lookup_insert_eq.
  - intros q Hq Hne. destruct q as [|c q]; [reflexivity|]. cbn [os.node_at].
    rewrite lookup_insert_ne by (intros E; apply Hne; auto).
    apply prefix_removelast in Hq; [|exact Hne]. rewrite partPath_parent in Hq.
    destruct (decide (c :: q = U)) as [E|HneU].
    + rewrite E. apply (Stat_lookup _ _ _ HU). rewrite <- E. discriminate.
    + apply (Stat_lookup {| files := m; clock := t |}); [|discriminate].
      exact (Stat_prefix _ U (c :: q) Dir HU Hq HneU).
Qed.


End Stage.



(** ** Aborting a session *)

Lemma RemoveAll_state (fs : FS) (p : path) :
  fst (os.RemoveAll fs p) = fs
  \/ exists n, os.Stat fs p = Ok n
               /\ os.RemoveAll fs p
                  = ({| files := filter (fun e => ~ p `prefix_of` fst e) (files fs);
                        clock := clock fs |}, None).
Proof.
  unfold os.RemoveAll, os.Stat at 2. destruct (os.has_NUL p).
  { left. destruct (os.Stat fs (filepath.Dir p)) as [n|e]; [reflexivity|].
    destruct (os.IsNotExist e); reflexivity. }
  destruct (os.resolve (files fs) [] p) as [n|e]; [right; eauto|].
  left. destruct (os.IsNotExist e); reflexivity.
Qed.

Lemma node_at_RemoveAll_out (fs : FS) (p q : path) :
  ~ p `prefix_of` q ->
  os.node_at (files (fst (os.RemoveAll fs p))) q = os.node_at (files fs) q.
Proof.
  intros H. destruct q as [|c q]; [reflexivity|]. cbn [os.node_at].
  apply RemoveAll_lookup_out, H.
Qed.

(** ** Initiating a session *)





Lemma uploads_plain : plain_name ".uploads" = true.
Proof. vm_compute. reflexivity. Qed.

(** The session directory lies two levels below the bucket's directory. *)
Lemma uploadDir_app (base : path) (bucket : string) (z : Z) :
  filepath.Join base [bucket; ".uploads"; format_d z]
  = filepath.Join base [bucket] ++ [".uploads"; format_d z].
Proof.
  change [bucket; ".uploads"; format_d z] with ([bucket; ".uploads"] ++ [format_d z]).
  rewrite Join_snoc by apply format_d_plain.
  change [bucket; ".uploads"] with ([bucket] ++ [".uploads"]).
  rewrite Join_snoc by apply uploads_plain.
  rewrite <- app_assoc. reflexivity.
Qed.

(** X6: after a multipart upload was initiated in a bucket, the bucket
    holds the directory [.uploads], which aborting the upload does not
    remove: [DeleteBucket] then answers [bucket is not empty]. *)
Theorem DeleteBucket_after_abort
    (s : FileSystemStorage) (bucket key : string) (metadata : gmap string string)
    (fs fs1 : FS) (id : string) :
  InitiateMultipartUpload s bucket key metadata fs = (fs1, Ok id) ->
  DeleteBucket s bucket (fst (AbortMultipartUpload s bucket key id fs1))
  = (fst (AbortMultipartUpload s bucket key id fs1), Some "bucket is not empty").
Proof.
  unfold InitiateMultipartUpload.
  destruct (BucketExists s bucket fs) eqn:Hb; cbn [negb]; [|discriminate].
  destruct (os.MkdirAll fs _) as [fs1' e] eqn:Hmk.
  destruct e as [e|]; [discriminate|]. intros [= -> <-].
  unfold AbortMultipartUpload. cbn [fst].
  set (B := filepath.Join (basePath s) [bucket]).
  assert (HU : os.Stat fs1 (B ++ [".uploads"; format_d (clock fs)]) = Ok Dir).
  { unfold B. rewrite <- uploadDir_app.
    replace fs1 with (fst (os.MkdirAll fs (filepath.Join (basePath s)
                        [bucket; ".uploads"; format_d (clock fs)])))
      by (rewrite Hmk; reflexivity).
    apply MkdirAll_Stat. rewrite Hmk. reflexivity. }
  rewrite uploadDir_app. fold B.
  set (U := B ++ [".uploads"; format_d (clock fs)]) in *.
  assert (Hshort : forall q, (length q <= S (length B))%nat -> ~ U `prefix_of` q).
  { intros q Hq Hpre. apply prefix_length in Hpre. unfold U in Hpre.
    rewrite length_app in Hpre. simpl in Hpre. lia. }
  assert (HB' : os.Stat fs1 (B ++ [".uploads"]) = Ok Dir).
  { apply (Stat_prefix fs1 U _ Dir HU).
    - unfold U. exists [format_d (clock fs)]. rewrite <- app_assoc. reflexivity.
    - intros E. apply (f_equal length) in E. unfold U in E.
      rewrite !length_app in E. simpl in E. lia. }
  apply (DeleteBucket_not_empty s bucket _ ".uploads" Dir).
  - apply BucketExists_Stat. fold B.
    rewrite <- (Stat_prefix fs1 (B ++ [".uploads"]) B Dir HB').
    + apply Stat_agree.
      * intros q Hq _. left. apply node_at_RemoveAll_out, Hshort.
        apply prefix_length in Hq. lia.
      * apply node_at_RemoveAll_out, Hshort. lia.
    + apply prefix_app_r. reflexivity.
    + intros E. apply (f_equal length) in E. rewrite length_app in E. simpl in E. lia.
  - fold B. rewrite RemoveAll_lookup_out.
    + apply (Stat_lookup fs1 _ Dir HB'). intros E. destruct B; discriminate E.
    + apply Hshort. rewrite length_app. simpl. lia.
Qed.

(** A session is initiated in the empty bucket [b] and aborted. *)
Lemma DeleteBucket_after_abort_witness :
  DeleteBucket example_store "b"
    (fst (AbortMultipartUpload example_store "b" "k" "1700000000000000000"
            (fst (InitiateMultipartUpload example_store "b" "k" ∅ bucket_fs))))
  = (fst (AbortMultipartUpload example_store "b" "k" "1700000000000000000"
            (fst (InitiateMultipartUpload example_store "b" "k" ∅ bucket_fs))),
     Some "bucket is not empty").
Proof.
  apply (DeleteBucket_after_abort example_store "b" "k" ∅ bucket_fs).
  vm_compute. reflexivity.
Defined.

(** * Deleting and overwriting objects *)

Lemma Remove_clock (fs : FS) (p : path) : clock (fst (os.Remove fs p)) = clock fs.
Proof.
  unfold os.Remove. destruct (os.Stat fs p) as [[d t|]|e]; try reflexivity.
  destruct (bool_decide _); reflexivity.
Qed.

Lemma Remove_lookup_other (fs : FS) (p q : path) :
  q <> p -> files (fst (os.Remove fs p)) !! q = files fs !! q.
Proof.
  intros H. unfold os.Remove. destruct (os.Stat fs p) as [[d t|]|e]; cbn [fst files].
  - apply lookup_delete_ne. congruence.
  - destruct (bool_decide _); cbn [fst files]; [apply lookup_delete_ne; congruence|].
    reflexivity.
  - reflexivity.
Qed.

Lemma Remove_reachable (fs : FS) (p : path) :
  p <> [] -> os.has_NUL p = false ->
  (forall q, q `prefix_of` p -> q <> p -> os.node_at (files fs) q = Some Dir) ->
  is_dir (files fs !! p) = false ->
  files (fst (os.Remove fs p)) !! p = None.
Proof.
  intros Hp Hn Hpar Hd. unfold os.Remove.
  destruct (files fs !! p) as [[d t|]|] eqn:El; [|discriminate Hd|].
  - assert (E : os.Stat fs p = Ok (File d t)).
    { apply Stat_intro; [exact Hn | | exact Hpar].
      rewrite node_at_lookup by exact Hp. exact El. }
    rewrite E. cbn [fst files]. apply lookup_delete_eq.
  - destruct (Stat_none fs p) as [e ->]; [|exact El].
    rewrite node_at_lookup by exact Hp. exact El.
Qed.

Lemma Remove_file (fs : FS) (p : path) (d : bytes) (t : Z) :
  os.Stat fs p = Ok (File d t) ->
  os.Remove fs p = ({| files := delete p (files fs); clock := clock fs |}, None).
Proof. intros H. unfold os.Remove. rewrite H. reflexivity. Qed.

Lemma prefix_same_length {A : Type} (q p : list A) :
  q `prefix_of` p -> length q = length p -> q = p.
Proof.
  intros [k ->] H. rewrite length_app in H. destruct k; [|simpl in H; lia].
  rewrite app_nil_r. reflexivity.
Qed.

Section PutDelete.

Context (range : gmap string string -> list (string * string)).
Context (s : FileSystemStorage) (bucket key : string) (data : bytes) (size : Z).
Context (metadata : gmap string string) (fs : FS).

Let P := filepath.Join (basePath s) [bucket; key].
Let M := metadataPath P.
Let fs1 := fst (PutObject range s bucket key data size metadata fs).

Context (Hb : BucketExists s bucket fs = true).
Context (Hc : can_create fs P).

Lemma put_state :
  fs1 = {| files := put_files range s bucket key data metadata fs; clock := clock fs |}.
Proof.
  unfold fs1. rewrite (PutObject_ok range s bucket key data size metadata fs Hb Hc).
  reflexivity.
Qed.

Lemma put_parents (q : path) :
  q `prefix_of` P -> q <> P -> os.node_at (files fs1) q = Some Dir.
Proof.
  intros Hq Hne. rewrite put_state. cbn [files].
  apply (put_files_parents range s bucket key data metadata fs Hc).
  apply prefix_removelast; assumption.
Qed.

Lemma P_not_nil : P <> [].
Proof. apply creatable_inv in Hc. tauto. Qed.

Lemma sidecar_parents (q : path) :
  q `prefix_of` M -> q <> M -> os.node_at (files fs1) q = Some Dir.
Proof.
  intros Hq Hne. apply prefix_removelast in Hq; [|exact Hne].
  unfold M in Hq. rewrite (metadataPath_parent P P_not_nil) in Hq.
  apply put_parents.
  - apply prefix_of_removelast, Hq.
  - intros ->. exact (not_prefix_removelast P P eq_refl P_not_nil Hq).
Qed.

Lemma delete_after_put :
  DeleteObject s bucket key fs1
  = ({| files := delete P (files (fst (os.Remove fs1 M))); clock := clock fs |}, None).
Proof.
  unfold DeleteObject. fold P M.
  assert (Hb1 : BucketExists s bucket fs1 = true).
  { rewrite put_state. apply put_BucketExists; assumption. }
  rewrite Hb1. cbn [negb].
  assert (HMP : M <> P) by apply metadataPath_neq.
  assert (Hlen : length M = length P) by (apply metadataPath_length, P_not_nil).
  assert (Hst : os.Stat (fst (os.Remove fs1 M)) P = Ok (File data (clock fs))).
  { apply Stat_intro.
    - apply (can_create_NUL _ _ Hc).
    - rewrite node_at_lookup by apply P_not_nil.
      rewrite Remove_lookup_other by congruence. rewrite put_state. cbn [files].
      apply (put_files_object range s bucket key data metadata fs).
    - intros q Hq Hne. destruct q as [|c q]; [reflexivity|]. cbn [os.node_at].
      rewrite Remove_lookup_other.
      + exact (put_parents (c :: q) Hq Hne).
      + intros E. apply Hne. apply prefix_same_length; [exact Hq|].
        rewrite E. exact Hlen. }
  rewrite (Remove_file _ P _ _ Hst). rewrite Remove_clock.
  rewrite put_state. reflexivity.
Qed.

End PutDelete.

(** X7: an object that was put is deleted by [DeleteObject] without an
    error: nothing is left at its path, the object no longer exists,
    nothing is left at the sidecar path unless a directory stood there
    before the put, and no other path is touched. *)
Theorem DeleteObject_after_put
    (range : gmap string string -> list (string * string))
    (s : FileSystemStorage) (bucket key : string) (data : bytes) (size : Z)
    (metadata : gmap string string) (fs : FS) :
  let P := filepath.Join (basePath s) [bucket; key] in
  let fs1 := fst (PutObject range s bucket key data size metadata fs) in
  let r := DeleteObject s bucket key fs1 in
  BucketExists s bucket fs = true -> creatable fs P = true ->
  snd r = None
  /\ files (fst r) !! P = None
  /\ ObjectExists s bucket key (fst r) = false
  /\ (is_dir (files fs !! metadataPath P) = false ->
      files (fst r) !! metadataPath P = None)
  /\ (forall q, q <> P -> q <> metadataPath P -> files (fst r) !! q = files fs1 !! q).
Proof.
  intros P fs1 r Hb Hc. subst r fs1. unfold P in *. clear P.
  apply creatable_can_create in Hc.
  rewrite (delete_after_put range s bucket key data size metadata fs Hb Hc).
  cbn [fst snd files].
  assert (HP : filepath.Join (basePath s) [bucket; key] <> [])
    by (apply creatable_inv in Hc; tauto).
  split; [reflexivity|]. split; [apply lookup_delete_eq|]. split; [|split].
  - unfold ObjectExists.
    match goal with |- context [os.Stat ?f ?p] => destruct (Stat_none f p) as [e ->] end;
      [|reflexivity].
    cbn [files]. rewrite node_at_lookup by exact HP. apply lookup_delete_eq.
  - intros Hd. rewrite lookup_delete_ne by (apply not_eq_sym, metadataPath_neq).
    apply Remove_reachable.
    + apply metadataPath_not_nil.
    + apply metadataPath_NUL; [exact HP | apply (can_create_NUL _ _ Hc)].
    + apply (sidecar_parents range s bucket key data size metadata fs Hb Hc).
    + rewrite (put_state range s bucket key data size metadata fs Hb Hc). cbn [files].
      rewrite (put_files_sidecar range s bucket key data metadata fs Hc).
      destruct (decide _); [|exact Hd].
      destruct (sidecar_written _ _); [reflexivity | exact Hd].
  - intros q HqP HqM. rewrite lookup_delete_ne by congruence.
    apply Remove_lookup_other. exact HqM.
Qed.

(** The object [x] of the example bucket, put with metadata, is deleted. *)
Lemma DeleteObject_after_put_witness :
  snd (DeleteObject example_store "b" "x"
         (fst (PutObject map_to_list example_store "b" "x" (bytes_of_string "data") 4
                 {[ "x-amz-meta-a" := "1" ]} bucket_fs)))
  = None.
Proof.
  destruct (DeleteObject_after_put map_to_list example_store "b" "x"
              (bytes_of_string "data") 4 {[ "x-amz-meta-a" := "1" ]} bucket_fs)
    as (H & _).
  - vm_compute. reflexivity.
  - vm_compute. reflexivity.
  - exact H.
Defined.

(** X8: a put without metadata over an existing object writes no sidecar
    and removes none: [GetObject] then yields the new bytes with the
    metadata of the object that was overwritten, although the put itself
    reports no metadata. *)
Theorem PutObject_without_metadata_keeps_old_metadata
    (range : gmap string string -> list (string * string))
    (s : FileSystemStorage) (bucket key : string) (data : bytes) (size : Z)
    (fs : FS) (old : bytes) (t0 : Z) :
  let P := filepath.Join (basePath s) [bucket; key] in
  let r := PutObject range s bucket key data size ∅ fs in
  BucketExists s bucket fs = true -> os.Stat fs P = Ok (File old t0) ->
  snd r = Ok (objectInfo key (Z.of_nat (length data)) (clock fs) ∅)
  /\ GetObject s bucket key (fst r)
     = Ok (Reader data,
           objectInfo key (Z.of_nat (length data)) (clock fs) (loadMetadata P fs)).
Proof.
  intros P r Hb Hst. subst r. unfold P in *. clear P.
  pose proof (Stat_file_creatable fs _ old t0 Hst) as Hc.
  assert (HP : filepath.Join (basePath s) [bucket; key] <> [])
    by (apply creatable_inv in Hc; tauto).
  rewrite (PutObject_ok range s bucket key data size ∅ fs Hb Hc). cbn [fst snd].
  split; [reflexivity|]. unfold GetObject.
  rewrite (put_BucketExists range s bucket key data ∅ fs Hc Hb). cbn [negb].
  rewrite (put_Stat_object range s bucket key data ∅ fs Hc).
  do 3 f_equal. unfold loadMetadata, os.ReadFile.
  match goal with |- context [os.Stat ?f (metadataPath ?p)] =>
    rewrite (Stat_agree f fs (metadataPath p)) end; [reflexivity| |].
  - intros q Hq Hne. left. cbn [files].
    apply prefix_removelast in Hq; [|exact Hne].
    rewrite (metadataPath_parent _ HP) in Hq.
    rewrite (put_files_parents range s bucket key data ∅ fs Hc q Hq).
    symmetry. apply Stat_ok in Hst as [_ Hpar]. apply Hpar.
    + apply prefix_of_removelast, Hq.
    + intros ->. exact (not_prefix_removelast _ _ eq_refl HP Hq).
  - cbn [files]. rewrite !node_at_lookup by apply metadataPath_not_nil.
    rewrite (put_files_sidecar range s bucket key data ∅ fs Hc).
    destruct (decide _) as [Hpos|]; [|reflexivity].
    rewrite map_size_empty in Hpos. lia.
Qed.

(** The object [x] of the example bucket, which has metadata, is put again
    without metadata. *)
Lemma PutObject_without_metadata_keeps_old_metadata_witness :
  GetObject example_store "b" "x"
    (fst (PutObject map_to_list example_store "b" "x" (bytes_of_string "new") 3 ∅
            object_fs))
  = Ok (Reader (bytes_of_string "new"),
        objectInfo "x" (Z.of_nat (length (bytes_of_string "new"))) (clock object_fs)
          (loadMetadata (filepath.Join (basePath example_store) ["b"; "x"]) object_fs)).
Proof.
  destruct (PutObject_without_metadata_keeps_old_metadata map_to_list example_store
              "b" "x" (bytes_of_string "new") 3 object_fs (bytes_of_string "data")
              (clock bucket_fs)) as (_ & H).
  - vm_compute. reflexivity.
  - vm_compute. reflexivity.
  - exact H.
Defined.

(** X9: [DeleteObject] of a key at whose path nothing can be found fails
    with the error of the file system, so deleting twice is an error the
    second time; on the way it has removed at most the sidecar path. *)
Theorem DeleteObject_missing_key_is_an_error
    (s : FileSystemStorage) (bucket key : string) (fs : FS) (e : string) :
  let P := filepath.Join (basePath s) [bucket; key] in
  let r := DeleteObject s bucket key fs in
  BucketExists s bucket fs = true -> os.Stat fs P = Err e ->
  snd r = Some e
  /\ (forall q, q <> metadataPath P -> files (fst r) !! q = files fs !! q).
Proof.
  intros P r Hb Hst. subst r. unfold DeleteObject. rewrite Hb. cbn [negb]. fold P.
  clearbody P.
  assert (HP : P <> []).
  { intros E. rewrite E in Hst. discriminate Hst. }
  assert (Hlen : length (metadataPath P) = length P) by (apply metadataPath_length, HP).
  assert (Hst' : os.Stat (fst (os.Remove fs (metadataPath P))) P = Err e).
  { rewrite <- Hst. apply Stat_agree.
    - intros q Hq Hne. left. destruct q as [|c q]; [reflexivity|]. cbn [os.node_at].
      apply Remove_lookup_other. intros E. apply Hne.
      apply prefix_same_length; [exact Hq|]. rewrite E. exact Hlen.
    - rewrite !node_at_lookup by exact HP. apply Remove_lookup_other.
      apply not_eq_sym, metadataPath_neq. }
  assert (Hrm : os.Remove (fst (os.Remove fs (metadataPath P))) P
                = (fst (os.Remove fs (metadataPath P)), Some e)).
  { unfold os.Remove at 1. rewrite Hst'. reflexivity. }
  rewrite Hrm. cbn [fst snd]. split; [reflexivity|].
  intros q Hq. apply Remove_lookup_other, Hq.
Qed.

(** A key of the empty bucket. *)
Lemma DeleteObject_missing_key_is_an_error_witness :
  snd (DeleteObject example_store "b" "x" bucket_fs) = Some os.ENOENT.
Proof.
  destruct (DeleteObject_missing_key_is_an_error example_store "b" "x" bucket_fs
              os.ENOENT) as (H & _).
  - vm_compute. reflexivity.
  - vm_compute. reflexivity.
  - exact H.
Defined.

(** * Listing the buckets *)

Lemma Join_nil (base : path) : filepath.Join base [] = base.
Proof. unfold filepath.Join. cbn. apply rev_involutive. Qed.

Lemma Join_plain (base : path) (name : string) :
  plain_name name = true -> filepath.Join base [name] = base ++ [name].
Proof.
  intros H. change [name] with ([] ++ [name]). rewrite Join_snoc by exact H.
  rewrite Join_nil. reflexivity.
Qed.

Lemma ListBuckets_ok (s : FileSystemStorage) (fs : FS) :
  os.Stat fs (basePath s) = Ok Dir ->
  exists names,
    ListBuckets s fs = Ok names
    /\ (forall b, b ∈ names <-> files fs !! (basePath s ++ [b]) = Some Dir)
    /\ StronglySorted str_le names.
Proof.
  intros H. unfold ListBuckets, ReadDir. rewrite H. eexists. split; [reflexivity|]. split.
  - intros b. rewrite list_elem_of_omap. rewrite <- children_spec. split.
    + intros [[name n] [Hin Hf]]. cbn [fst snd] in Hf.
      destruct n; [discriminate Hf|]. injection Hf as ->.
      rewrite merge_sort_Permutation in Hin. exact Hin.
    + intros Hin. exists (b, Dir). split; [|reflexivity].
      rewrite merge_sort_Permutation. exact Hin.
  - apply name_le_sorted_names. apply StronglySorted_merge_sort; apply _.
Qed.

(** X10: when the base directory exists, [ListBuckets] returns the names
    of the directories directly below it, and only those, in the order of
    their names; files there are left out; when the base directory is
    missing it returns no bucket and no error. A bucket with a plain name
    that [CreateBucket] has made is among the buckets listed. *)
Theorem ListBuckets_lists_directories (s : FileSystemStorage) (fs : FS) :
  (os.Stat fs (basePath s) = Ok Dir ->
   exists names,
     ListBuckets s fs = Ok names
     /\ (forall b, b ∈ names <-> files fs !! (basePath s ++ [b]) = Some Dir)
     /\ StronglySorted str_le names)
  /\ (os.Stat fs (basePath s) = Err os.ENOENT -> ListBuckets s fs = Ok [])
  /\ (forall bucket,
        plain_name bucket = true -> snd (CreateBucket s bucket fs) = None ->
        exists names,
          ListBuckets s (fst (CreateBucket s bucket fs)) = Ok names /\ bucket ∈ names).
Proof.
  split; [apply ListBuckets_ok|]. split.
  - intros H. unfold ListBuckets, ReadDir. rewrite H. reflexivity.
  - intros bucket Hp Hc. unfold CreateBucket in *. rewrite (Join_plain _ _ Hp) in *.
    pose proof (MkdirAll_Stat fs _ Hc) as Hst.
    assert (Hne : basePath s ++ [bucket] <> basePath s).
    { intros E. apply (f_equal length) in E. rewrite length_app in E. simpl in E. lia. }
    assert (Hbase : os.Stat (fst (os.MkdirAll fs (basePath s ++ [bucket]))) (basePath s)
                    = Ok Dir).
    { apply (Stat_prefix _ _ _ Dir Hst); [apply prefix_app_r; reflexivity | congruence]. }
    destruct (ListBuckets_ok s _ Hbase) as (names & Hl & Hin & _).
    exists names. split; [exact Hl|]. apply Hin.
    apply (Stat_lookup _ _ Dir Hst). intros E. destruct (basePath s); discriminate E.
Qed.

(** The buckets of the example store. *)
Lemma ListBuckets_lists_directories_witness :
  ListBuckets example_store empty_fs = Ok []
  /\ exists names,
       ListBuckets example_store (fst (CreateBucket example_store "b" empty_fs)) = Ok names
       /\ "b" ∈ names.
Proof.
  split.
  - apply (proj1 (proj2 (ListBuckets_lists_directories example_store empty_fs))).
    vm_compute. reflexivity.
  - apply (proj2 (proj2 (ListBuckets_lists_directories example_store empty_fs))).
    + vm_compute. reflexivity.
    + vm_compute. reflexivity.
Defined.

(** * The content type of a key *)

Lemma rev_app_app (a b r : string) :
  String.rev_app (a +:+ b) r = String.rev_app b (String.rev_app a r).
Proof.
  revert r. induction a as [|c a IH]; intros r.
  - rewrite app_nil_l_s. reflexivity.
  - rewrite app_cons_s. cbn [String.rev_app]. apply IH.
Qed.

(** What lies before the last element of a reversed path does not count. *)
Lemma ext_rev_rest (name r1 r2 acc : string) :
  (forall acc', filepath.ext_rev r1 acc' = filepath.ext_rev r2 acc') ->
  filepath.ext_rev (String.rev_app name r1) acc
  = filepath.ext_rev (String.rev_app name r2) acc.
Proof.
  revert r1 r2 acc. induction name as [|c name IH]; intros r1 r2 acc H.
  - apply H.
  - cbn [String.rev_app]. apply IH. intros acc'. cbn [filepath.ext_rev].
    destruct (Ascii.eqb c "/"); [reflexivity|].
    destruct (Ascii.eqb c "."); [reflexivity|]. apply H.
Qed.

Lemma ext_rev_clean (e rest acc : string) :
  strings.Contains e "." = false -> strings.Contains e "/" = false ->
  filepath.ext_rev (String.rev_app e rest) acc = filepath.ext_rev rest (e +:+ acc).
Proof.
  revert rest acc. induction e as [|c e IH]; intros rest acc Hd Hs.
  - rewrite app_nil_l_s. reflexivity.
  - apply Contains_cons_inv in Hd as [Hc1 Hd]. apply Contains_cons_inv in Hs as [Hc2 Hs].
    cbn [String.rev_app]. rewrite IH by assumption. cbn [filepath.ext_rev].
    rewrite (proj2 (Ascii.eqb_neq c "/")) by exact Hc2.
    rewrite (proj2 (Ascii.eqb_neq c ".")) by exact Hc1.
    rewrite app_cons_s. reflexivity.
Qed.

Lemma Ext_dir (dir name : string) :
  filepath.Ext (dir +:+ "/" +:+ name) = filepath.Ext name.
Proof.
  unfold filepath.Ext, String.rev. rewrite rev_app_app.
  rewrite app_cons_s, app_nil_l_s. cbn [String.rev_app].
  apply ext_rev_rest. intros acc'. reflexivity.
Qed.

Lemma ext_rev_no_dot (key rest acc : string) :
  strings.Contains key "." = false ->
  (forall acc', filepath.ext_rev rest acc' = "") ->
  filepath.ext_rev (String.rev_app key rest) acc = "".
Proof.
  revert rest acc. induction key as [|c key IH]; intros rest acc Hd Hrest; [apply Hrest|].
  apply Contains_cons_inv in Hd as [Hc Hd]. cbn [String.rev_app].
  apply IH; [exact Hd|]. intros acc'. cbn [filepath.ext_rev].
  destruct (Ascii.eqb c "/"); [reflexivity|].
  rewrite (proj2 (Ascii.eqb_neq c ".")) by exact Hc. apply Hrest.
Qed.

Lemma Ext_no_dot (key : string) :
  strings.Contains key "." = false -> filepath.Ext key = "".
Proof.
  intros H. unfold filepath.Ext, String.rev. apply ext_rev_no_dot; [exact H|reflexivity].
Qed.

Lemma Ext_clean (stem e : string) :
  strings.Contains e "." = false -> strings.Contains e "/" = false ->
  filepath.Ext (stem +:+ "." +:+ e) = "." +:+ e.
Proof.
  intros Hd Hs. unfold filepath.Ext, String.rev.
  rewrite rev_app_app, app_cons_s, app_nil_l_s. cbn [String.rev_app].
  rewrite ext_rev_clean by assumption. cbn [filepath.ext_rev Ascii.eqb Bool.eqb].
  rewrite app_nil_r_s. reflexivity.
Qed.

(** X11: the content type of a key is that of its last element, whatever
    the directories before it; a key without a dot has the type
    [application/octet-stream]; and the type depends on the extension
    only up to the case of its letters. *)
Theorem getContentType_by_extension :
  (forall dir name, getContentType (dir +:+ "/" +:+ name) = getContentType name)
  /\ (forall key,
        strings.Contains key "." = false ->
        getContentType key = "application/octet-stream")
  /\ (forall stem stem' e e',
        strings.Contains e "." = false -> strings.Contains e "/" = false ->
        strings.Contains e' "." = false -> strings.Contains e' "/" = false ->
        strings.ToLower e = strings.ToLower e' ->
        getContentType (stem +:+ "." +:+ e) = getContentType (stem' +:+ "." +:+ e')).
Proof.
  split; [|split].
  - intros dir name. unfold getContentType. rewrite Ext_dir. reflexivity.
  - intros key H. unfold getContentType. rewrite (Ext_no_dot key H). reflexivity.
  - intros stem stem' e e' H1 H2 H3 H4 Hl. unfold getContentType.
    rewrite !Ext_clean by assumption. rewrite !app_cons_s, !app_nil_l_s.
    cbn [strings.ToLower]. rewrite Hl. reflexivity.
Qed.

(** A key without a dot, and the extensions [JPG] and [jpg]. *)
Lemma getContentType_by_extension_witness :
  getContentType "Makefile" = "application/octet-stream"
  /\ getContentType ("a/photo" +:+ "." +:+ "JPG") = getContentType ("b" +:+ "." +:+ "jpg").
Proof.
  split.
  - apply (proj1 (proj2 getContentType_by_extension)). vm_compute. reflexivity.
  - apply (proj2 (proj2 getContentType_by_extension));
      vm_compute; reflexivity.
Defined.

(** * More on the listing *)

Lemma ListObjects_bucket (s : FileSystemStorage) (bucket prefix delimiter marker : string)
    (maxKeys : Z) (fs : FS) (res : ListObjectsResult) :
  ListObjects s bucket prefix delimiter marker maxKeys fs = Ok res ->
  BucketExists s bucket fs = true.
Proof.
  unfold ListObjects. destruct (BucketExists s bucket fs); [reflexivity|discriminate].
Qed.

Lemma first_occurrences_elem (l : list string) (x : string) :
  x ∈ Listing.first_occurrences l <-> x ∈ l.
Proof.
  induction l as [|y l IH]; [reflexivity|]. cbn [Listing.first_occurrences].
  rewrite !elem_of_cons, list_elem_of_filter, IH.
  destruct (decide (x = y)); tauto.
Qed.

Lemma first_occurrences_NoDup (l : list string) : NoDup (Listing.first_occurrences l).
Proof.
  induction l as [|y l IH]; [constructor|]. cbn [Listing.first_occurrences].
  constructor; [|apply NoDup_filter, IH].
  rewrite list_elem_of_filter. tauto.
Qed.

Lemma Index_None_Contains (s sep : string) :
  strings.Index s sep = None -> strings.Contains s sep = false.
Proof. unfold strings.Contains. intros ->. reflexivity. Qed.

Lemma HasSuffix_app (a b : string) : strings.HasSuffix (a +:+ b) b = true.
Proof.
  unfold strings.HasSuffix. rewrite slength_app.
  replace (String.length a + String.length b - String.length b)%nat
    with (String.length a) by lia.
  rewrite drop_app, String.eqb_refl, andb_true_r. apply Nat.leb_le. lia.
Qed.

Section Classify.

Context (bucketPath : path) (prefix delimiter marker : string) (fs : FS).

Lemma classify_Listed (e : path * node) (o : ObjectInfo) :
  Listing.classify bucketPath prefix delimiter marker fs e = Listing.Listed o ->
  exists data mtime,
    snd e = File data mtime
    /\ Listing.discarded prefix marker (key_of bucketPath (fst e)) = false
    /\ Listing.common_prefix prefix delimiter (key_of bucketPath (fst e)) = None
    /\ o = objectInfo (key_of bucketPath (fst e)) (Z.of_nat (length data)) mtime
             (loadMetadata (fst e) fs).
Proof.
  unfold Listing.classify. destruct (snd e) as [data mtime|]; [|discriminate]. cbv zeta.
  destruct (Listing.discarded _ _ _); [discriminate|].
  destruct (Listing.common_prefix _ _ _); [discriminate|].
  intros [= <-]. exists data, mtime. auto.
Qed.

Lemma classify_RolledUp (e : path * node) (cp : string) :
  Listing.classify bucketPath prefix delimiter marker fs e = Listing.RolledUp cp ->
  exists key, Listing.common_prefix prefix delimiter key = Some cp.
Proof.
  unfold Listing.classify. destruct (snd e) as [data mtime|]; [|discriminate]. cbv zeta.
  destruct (Listing.discarded _ _ _); [discriminate|].
  destruct (Listing.common_prefix _ _ _) eqn:E; [|discriminate].
  intros [= <-]. eauto.
Qed.

End Classify.

Lemma discarded_false (prefix marker key : string) :
  Listing.discarded prefix marker key = false ->
  strings.HasSuffix key ".metadata" = false
  /\ (prefix = "" \/ strings.HasPrefix key prefix = true)
  /\ (marker = "" \/ String.leb key marker = false).
Proof.
  unfold Listing.discarded. intros H.
  apply orb_false_iff in H as [H H3]. apply orb_false_iff in H as [H1 H2].
  split; [exact H1|]. split.
  - destruct (String.eqb_spec prefix ""); [left; assumption|right].
    cbn [negb andb] in H2. apply negb_false_iff in H2. exact H2.
  - destruct (String.eqb_spec marker ""); [left; assumption|right].
    cbn [negb andb] in H3. exact H3.
Qed.

Lemma common_prefix_None (prefix delimiter key : string) :
  prefix = "" \/ strings.HasPrefix key prefix = true ->
  Listing.common_prefix prefix delimiter key = None -> delimiter <> "" ->
  strings.Contains (strings.TrimPrefix key prefix) delimiter = false.
Proof.
  unfold Listing.common_prefix, strings.Contains. intros Hp H Hd.
  destruct (String.eqb_spec delimiter ""); [contradiction|].
  rewrite through_first_Index, remainder_TrimPrefix in H.
  - destruct (strings.Index _ delimiter); [discriminate H | reflexivity].
  - destruct Hp as [E|E]; rewrite E; [reflexivity | apply andb_false_r].
Qed.

Lemma common_prefix_Some (prefix delimiter key cp : string) :
  Listing.common_prefix prefix delimiter key = Some cp ->
  delimiter <> ""
  /\ strings.HasPrefix cp prefix = true /\ strings.HasSuffix cp delimiter = true.
Proof.
  unfold Listing.common_prefix. destruct (String.eqb_spec delimiter ""); [discriminate|].
  rewrite through_first_Index.
  destruct (strings.Index _ delimiter) as [i|] eqn:Hi; [|discriminate].
  cbn. rewrite (take_Index _ _ _ Hi).
  intros [= <-]. split; [assumption|]. split.
  - apply sprefix_app.
  - rewrite <- app_assoc_s. apply HasSuffix_app.
Qed.

(** X12: whatever [ListObjects] returns has passed the filters: no key
    listed ends in [.metadata], every key listed starts with the prefix
    and comes after the marker when these are given, and has no delimiter
    after the prefix when one is given; every common prefix starts with
    the prefix and ends with the delimiter, and none is returned twice;
    without a positive [maxKeys] the result is never truncated; and the
    common prefixes do not depend on [maxKeys]. *)
Theorem ListObjects_results_pass_the_filters
    (s : FileSystemStorage) (bucket prefix delimiter marker : string)
    (maxKeys : Z) (fs : FS) (res : ListObjectsResult) :
  ListObjects s bucket prefix delimiter marker maxKeys fs = Ok res ->
  (forall o, o ∈ Objects res ->
     strings.HasSuffix (Key o) ".metadata" = false
     /\ (prefix = "" \/ strings.HasPrefix (Key o) prefix = true)
     /\ (marker = "" \/ String.leb (Key o) marker = false)
     /\ (delimiter <> "" ->
         strings.Contains (strings.TrimPrefix (Key o) prefix) delimiter = false))
  /\ (forall cp, cp ∈ CommonPrefixes res ->
        delimiter <> ""
        /\ strings.HasPrefix cp prefix = true /\ strings.HasSuffix cp delimiter = true)
  /\ NoDup (CommonPrefixes res)
  /\ (maxKeys <= 0 -> IsTruncated res = false /\ NextMarker res = "")
  /\ (forall maxKeys' res',
        ListObjects s bucket prefix delimiter marker maxKeys' fs = Ok res' ->
        CommonPrefixes res' = CommonPrefixes res).
Proof.
  intros H. pose proof (ListObjects_bucket _ _ _ _ _ _ _ _ H) as Hb.
  pose proof (ListObjects_spec s bucket prefix delimiter marker maxKeys fs Hb) as Hspec.
  cbv zeta in Hspec. rewrite H in Hspec. injection Hspec as Hres.
  set (B := filepath.Join (basePath s) [bucket]) in *.
  assert (Hobj : forall o, o ∈ Objects res ->
                           o ∈ Listing.listed B prefix delimiter marker fs).
  { intros o Ho. rewrite Hres in Ho.
    destruct ((0 <? maxKeys) && _)%bool; cbn [Objects] in Ho; [|exact Ho].
    apply (subseteq_take _ _ _ Ho). }
  assert (Hcp : CommonPrefixes res
                = Listing.first_occurrences
                    (Listing.rolled_up B prefix delimiter marker fs)).
  { rewrite Hres. destruct ((0 <? maxKeys) && _)%bool; reflexivity. }
  split; [|split; [|split; [|split]]].
  - intros o Ho. apply Hobj in Ho. unfold Listing.listed in Ho.
    apply list_elem_of_omap in Ho as [e [_ He]].
    destruct (Listing.classify B prefix delimiter marker fs e) as [| |o'] eqn:Ec;
      try discriminate He.
    injection He as ->.
    apply classify_Listed in Ec as (data & mtime & _ & Hd & Hc & ->).
    cbn [Key objectInfo]. apply discarded_false in Hd as (H1 & H2 & H3).
    repeat split; try assumption. intros Hdel. apply common_prefix_None; assumption.
  - intros cp Hin. rewrite Hcp in Hin. apply (proj1 (first_occurrences_elem _ _)) in Hin.
    unfold Listing.rolled_up in Hin. apply list_elem_of_omap in Hin as [e [_ He]].
    destruct (Listing.classify B prefix delimiter marker fs e) as [|cp'|] eqn:Ec;
      try discriminate He.
    injection He as ->. apply classify_RolledUp in Ec as [key Hk].
    exact (common_prefix_Some _ _ _ _ Hk).
  - rewrite Hcp. apply first_occurrences_NoDup.
  - intros Hmax. rewrite Hres.
    destruct (Z.ltb_spec 0 maxKeys); [lia|]. cbn [andb IsTruncated NextMarker]. auto.
  - intros maxKeys' res' H'.
    pose proof (ListObjects_spec s bucket prefix delimiter marker maxKeys' fs Hb) as Hs'.
    cbv zeta in Hs'. rewrite H' in Hs'. injection Hs' as ->. fold B. rewrite Hcp.
    destruct ((0 <? maxKeys') && _)%bool; reflexivity.
Qed.

(** The listing of the bucket with [a/x], [a/y] and [top]. *)
Lemma ListObjects_results_pass_the_filters_witness :
  exists res,
    ListObjects example_store "b" "" "/" "" 1000 listing_fs = Ok res
    /\ NoDup (CommonPrefixes res).
Proof.
  assert (E : exists res, ListObjects example_store "b" "" "/" "" 1000 listing_fs = Ok res).
  { eexists. vm_compute. reflexivity. }
  destruct E as [res E]. exists res. split; [exact E|].
  destruct (ListObjects_results_pass_the_filters example_store "b" "" "/" "" 1000
              listing_fs res E) as (_ & _ & Hn & _).
  exact Hn.
Defined.

(** ** What is listed *)

Lemma Walk_elem (fs : FS) (root p : path) (n : node) :
  os.Stat fs p = Ok n -> p <> [] -> root `prefix_of` p -> (p, n) ∈ os.Walk fs root.
Proof.
  intros Hst Hp Hpre. unfold os.Walk. rewrite merge_sort_Permutation.
  apply list_elem_of_In, filter_In. split.
  - apply list_elem_of_In, elem_of_map_to_list. exact (Stat_lookup fs p n Hst Hp).
  - cbn [fst]. unfold os.below, os.reachable. rewrite bool_decide_eq_true_2 by exact Hpre.
    pose proof (Stat_NUL _ _ _ Hst) as Hnul. rewrite Stat_resolve in Hst by exact Hnul.
    rewrite Hst. reflexivity.
Qed.

Lemma listed_elem (s : FileSystemStorage) (bucket prefix delimiter marker : string)
    (fs : FS) (p : path) (data : bytes) (mtime : Z) :
  let B := filepath.Join (basePath s) [bucket] in
  os.Stat fs p = Ok (File data mtime) -> B `prefix_of` p ->
  Listing.discarded prefix marker (key_of B p) = false ->
  Listing.common_prefix prefix delimiter (key_of B p) = None ->
  objectInfo (key_of B p) (Z.of_nat (length data)) mtime (loadMetadata p fs)
    ∈ Listing.listed B prefix delimiter marker fs.
Proof.
  intros B Hst Hpre Hd Hc. unfold Listing.listed. apply list_elem_of_omap.
  exists (p, File data mtime). split.
  - apply Walk_elem; [exact Hst| |exact Hpre]. intros ->. discriminate Hst.
  - unfold Listing.classify. cbn [fst snd]. cbv zeta. rewrite Hd, Hc. reflexivity.
Qed.

(** X13: in an existing bucket, every file that can be reached at a path
    below the bucket's directory and whose key passes the filters is
    among the objects of a listing that no positive [maxKeys] limits,
    with its size, its time and the metadata of its sidecar. *)
Theorem ListObjects_lists_every_reachable_file
    (s : FileSystemStorage) (bucket prefix delimiter marker : string)
    (maxKeys : Z) (fs : FS) (p : path) (data : bytes) (mtime : Z) :
  let B := filepath.Join (basePath s) [bucket] in
  BucketExists s bucket fs = true ->
  os.Stat fs p = Ok (File data mtime) -> B `prefix_of` p ->
  Listing.discarded prefix marker (key_of B p) = false ->
  Listing.common_prefix prefix delimiter (key_of B p) = None ->
  maxKeys <= 0 ->
  exists res,
    ListObjects s bucket prefix delimiter marker maxKeys fs = Ok res
    /\ objectInfo (key_of B p) (Z.of_nat (length data)) mtime (loadMetadata p fs)
         ∈ Objects res.
Proof.
  intros B Hb Hst Hpre Hd Hc Hmax.
  rewrite (ListObjects_spec s bucket prefix delimiter marker maxKeys fs Hb).
  eexists. split; [reflexivity|].
  destruct (Z.ltb_spec 0 maxKeys); [lia|]. cbn [andb Objects].
  apply listed_elem; assumption.
Qed.

(** The object [x] of the example bucket. *)
Lemma ListObjects_lists_every_reachable_file_witness :
  exists res,
    ListObjects example_store "b" "" "" "" 0 object_fs = Ok res
    /\ objectInfo (key_of (filepath.Join (basePath example_store) ["b"]) ["data"; "b"; "x"])
         (Z.of_nat (length (bytes_of_string "data"))) (clock bucket_fs)
         (loadMetadata ["data"; "b"; "x"] object_fs)
       ∈ Objects res.
Proof.
  apply (ListObjects_lists_every_reachable_file example_store "b" "" "" "" 0 object_fs
           ["data"; "b"; "x"] (bytes_of_string "data") (clock bucket_fs)).
  - vm_compute. reflexivity.
  - vm_compute. reflexivity.
  - exists ["x"]. vm_compute. reflexivity.
  - vm_compute. reflexivity.
  - vm_compute. reflexivity.
  - lia.
Defined.

(** ** Staged parts in the listing *)

Lemma last_byte_app (a b : string) :
  b <> "" -> last_byte (a +:+ b) = last_byte b.
Proof.
  intros Hb. induction a as [|c a IH]; [rewrite app_nil_l_s; reflexivity|].
  rewrite app_cons_s. cbn [last_byte]. rewrite IH.
  destruct (a +:+ b) eqn:E; [|reflexivity].
  destruct a; [rewrite app_nil_l_s in E; contradiction | rewrite app_cons_s in E; discriminate].
Qed.

Lemma last_byte_uint (d : Decimal.uint) :
  d <> Decimal.Nil ->
  exists c, last_byte (DecimalString.NilEmpty.string_of_uint d) = Some c
            /\ is_digit c = true.
Proof.
  induction d as [|d IH|d IH|d IH|d IH|d IH|d IH|d IH|d IH|d IH|d IH]; intros Hd;
    [contradiction|..];
    cbn [DecimalString.NilEmpty.string_of_uint last_byte];
    (destruct d; [eexists; split; reflexivity|..];
     apply IH; discriminate).
Qed.

Lemma last_byte_cons (c : ascii) (s : string) :
  s <> "" -> last_byte (String c s) = last_byte s.
Proof. intros H. destruct s; [contradiction|reflexivity]. Qed.

Lemma last_byte_NilZero (d : Decimal.uint) :
  exists c, last_byte (DecimalString.NilZero.string_of_uint d) = Some c
            /\ is_digit c = true.
Proof.
  destruct d; [eexists; split; reflexivity|..];
    apply last_byte_uint; discriminate.
Qed.

Lemma last_byte_format_d (z : Z) :
  exists c, last_byte (format_d z) = Some c /\ is_digit c = true.
Proof.
  unfold format_d, DecimalString.NilZero.string_of_int.
  destruct (Z.to_int z) as [d|d]; [apply last_byte_NilZero|].
  destruct (last_byte_NilZero d) as (c & Hc & Hdig). exists c. split; [|exact Hdig].
  rewrite last_byte_cons; [exact Hc|]. intros E. rewrite E in Hc. discriminate Hc.
Qed.

Lemma take_drop_s (n : nat) (s : string) : strings.take n s +:+ strings.drop n s = s.
Proof.
  revert s. induction n as [|n IH]; intros s; [destruct s; reflexivity|].
  destruct s as [|c s]; [reflexivity|]. cbn [strings.take strings.drop].
  rewrite app_cons_s, IH. reflexivity.
Qed.

Lemma HasSuffix_inv (s p : string) :
  strings.HasSuffix s p = true -> exists a, s = a +:+ p.
Proof.
  unfold strings.HasSuffix. intros H. apply andb_true_iff in H as [_ H].
  apply String.eqb_eq in H.
  set (k := (String.length s - String.length p)%nat) in *.
  exists (strings.take k s). rewrite <- (take_drop_s k s) at 1. rewrite H. reflexivity.
Qed.

(** A name that ends with a number does not end in [.metadata]. *)
Lemma HasSuffix_number (a : string) (z : Z) :
  strings.HasSuffix (a +:+ format_d z) ".metadata" = false.
Proof.
  destruct (strings.HasSuffix _ _) eqn:E; [|reflexivity]. exfalso.
  apply HasSuffix_inv in E as [b E]. apply (f_equal last_byte) in E.
  destruct (last_byte_format_d z) as (c & Hc & Hdig).
  rewrite !last_byte_app in E.
  - rewrite Hc in E. cbn in E. injection E as ->. discriminate Hdig.
  - discriminate.
  - intros E'. rewrite E' in Hc. discriminate Hc.
Qed.

Lemma ReplaceAll_app (a b : string) (old new : ascii) :
  strings.ReplaceAll (a +:+ b) old new
  = strings.ReplaceAll a old new +:+ strings.ReplaceAll b old new.
Proof.
  induction a as [|c a IH]; [rewrite !app_nil_l_s; reflexivity|].
  rewrite app_cons_s. cbn [strings.ReplaceAll]. rewrite IH.
  destruct (Ascii.eqb c old); rewrite app_cons_s; reflexivity.
Qed.

Lemma ReplaceAll_uint (d : Decimal.uint) :
  strings.ReplaceAll (DecimalString.NilEmpty.string_of_uint d) "\" "/"
  = DecimalString.NilEmpty.string_of_uint d.
Proof.
  induction d; cbn [DecimalString.NilEmpty.string_of_uint strings.ReplaceAll];
    [reflexivity|..]; cbn [Ascii.eqb Bool.eqb]; rewrite IHd; reflexivity.
Qed.

Lemma ReplaceAll_format_d (z : Z) :
  strings.ReplaceAll (format_d z) "\" "/" = format_d z.
Proof.
  unfold format_d, DecimalString.NilZero.string_of_int,
    DecimalString.NilZero.string_of_uint.
  destruct (Z.to_int z) as [d|d]; destruct d; try reflexivity;
    cbn [strings.ReplaceAll Ascii.eqb Bool.eqb];
    rewrite ?(ReplaceAll_uint (_ _)); try reflexivity;
    cbn [DecimalString.NilEmpty.string_of_uint strings.ReplaceAll Ascii.eqb Bool.eqb];
    rewrite ?ReplaceAll_uint; reflexivity.
Qed.

Lemma staged_key (B : path) (z n : Z) :
  key_of B (partPath (B ++ [".uploads"; format_d z]) n)
  = ".uploads/" +:+ format_d z +:+ "/part-" +:+ format_d n.
Proof.
  unfold key_of, filepath.Rel. rewrite partPath_app, <- app_assoc.
  rewrite drop_app_length. cbn [app strings.Join].
  rewrite !ReplaceAll_app, !ReplaceAll_format_d.
  cbn [strings.ReplaceAll Ascii.eqb Bool.eqb].
  rewrite ?app_cons_s, ?app_nil_l_s. reflexivity.
Qed.

Lemma staged_key_suffix (z n : Z) :
  strings.HasSuffix (".uploads/" +:+ format_d z +:+ "/part-" +:+ format_d n) ".metadata"
  = false.
Proof.
  replace (".uploads/" +:+ format_d z +:+ "/part-" +:+ format_d n)
    with ((".uploads/" +:+ format_d z +:+ "/part-") +:+ format_d n).
  - apply HasSuffix_number.
  - rewrite !app_assoc_s. reflexivity.
Qed.

(** X14: a part uploaded to a session that was initiated is listed by
    [ListObjects] as an object of the bucket, under a key made of
    [.uploads], the upload id and the part's file name, with the size of
    the bytes uploaded. *)
Theorem staged_parts_are_listed
    (s : FileSystemStorage) (bucket key : string) (metadata : gmap string string)
    (n : Z) (data : bytes) (size : Z) (fs fs1 fs2 : FS) (id : string) (info : PartInfo) :
  InitiateMultipartUpload s bucket key metadata fs = (fs1, Ok id) ->
  UploadPart s bucket key id n data size fs1 = (fs2, Ok info) ->
  exists res o,
    ListObjects s bucket "" "" "" 0 fs2 = Ok res
    /\ o ∈ Objects res
    /\ Key o = ".uploads/" +:+ id +:+ "/part-" +:+ format_d n
    /\ Size o = Z.of_nat (length data).
Proof.
  unfold InitiateMultipartUpload.
  destruct (BucketExists s bucket fs) eqn:Hb; cbn [negb]; [|discriminate].
  destruct (os.MkdirAll fs _) as [fs1' e] eqn:Hmk.
  destruct e as [e|]; [discriminate|]. intros [= -> <-] Hup.
  set (B := filepath.Join (basePath s) [bucket]) in *.
  set (U := B ++ [".uploads"; format_d (clock fs)]).
  assert (EU : filepath.Join (basePath s) [bucket; ".uploads"; format_d (clock fs)] = U)
    by apply uploadDir_app.
  rewrite EU in Hmk.
  assert (HU : os.Stat fs1 U = Ok Dir).
  { replace fs1 with (fst (os.MkdirAll fs U)) by (rewrite Hmk; reflexivity).
    apply MkdirAll_Stat. rewrite Hmk. reflexivity. }
  unfold UploadPart in Hup. rewrite EU in Hup.
  destruct (os.Create fs1 (partPath U n)) as [fs'|e] eqn:Ec; [|discriminate Hup].
  apply Create_inv in Ec as (_ & _ & Hd & ->). rewrite Write_created in Hup.
  injection Hup as <- _.
  assert (Hst : os.Stat {| files := <[partPath U n := File data (clock fs1)]> (files fs1);
                           clock := clock fs1 |} (partPath U n)
                = Ok (File data (clock fs1))).
  { pose proof (Stat_staged s bucket (format_d (clock fs)) n (files fs1) (clock fs1) data)
      as H. rewrite EU in H. apply H. rewrite FS_eta. exact HU. }
  assert (HBp : B `prefix_of` partPath U n).
  { rewrite partPath_app. unfold U. rewrite <- app_assoc. apply prefix_app_r. reflexivity. }
  assert (Hb2 : BucketExists s bucket
                  {| files := <[partPath U n := File data (clock fs1)]> (files fs1);
                     clock := clock fs1 |} = true).
  { apply BucketExists_Stat. fold B. apply (Stat_prefix _ _ _ _ Hst HBp).
    intros E. apply (f_equal length) in E. rewrite partPath_app in E. unfold U in E.
    rewrite !length_app in E. simpl in E. lia. }
  rewrite (ListObjects_spec s bucket "" "" "" 0 _ Hb2). cbn [Z.ltb andb].
  eexists. eexists. split; [reflexivity|]. cbn [Objects]. split.
  - apply (listed_elem s bucket "" "" "" _ (partPath U n) data (clock fs1) Hst HBp).
    + fold B. unfold U. rewrite staged_key. unfold Listing.discarded.
      rewrite staged_key_suffix. reflexivity.
    + reflexivity.
  - cbn [Key Size objectInfo]. fold B. unfold U. rewrite staged_key. auto.
Qed.

(** Part 1 of a session initiated in the empty bucket [b]. *)
Lemma staged_parts_are_listed_witness :
  exists res o,
    ListObjects example_store "b" "" "" "" 0
      (fst (UploadPart example_store "b" "k" "1700000000000000000" 1
              (bytes_of_string "AAA") 3
              (fst (InitiateMultipartUpload example_store "b" "k" ∅ bucket_fs))))
    = Ok res
    /\ o ∈ Objects res
    /\ Key o = ".uploads/" +:+ "1700000000000000000" +:+ "/part-" +:+ format_d 1
    /\ Size o = Z.of_nat (length (bytes_of_string "AAA")).
Proof.
  apply (staged_parts_are_listed example_store "b" "k" ∅ 1 (bytes_of_string "AAA") 3
           bucket_fs
           (fst (InitiateMultipartUpload example_store "b" "k" ∅ bucket_fs))
           (fst (UploadPart example_store "b" "k" "1700000000000000000" 1
                   (bytes_of_string "AAA") 3
                   (fst (InitiateMultipartUpload example_store "b" "k" ∅ bucket_fs))))
           "1700000000000000000"
           {| PartNumber := 1; PartETag := etag (clock bucket_fs); PartSize := 3 |}).
  - vm_compute. reflexivity.
  - vm_compute. reflexivity.
Defined.

(** X15: an object that was put under a key which is the clean form of
    its own path below the bucket's directory, and which does not end in
    [.metadata], is listed by [ListObjects] with that key, the size of the
    bytes put and the time of the put. *)
Theorem ListObjects_after_put
    (range : gmap string string -> list (string * string))
    (s : FileSystemStorage) (bucket key : string) (data : bytes) (size : Z)
    (metadata : gmap string string) (fs : FS) :
  let B := filepath.Join (basePath s) [bucket] in
  let P := filepath.Join (basePath s) [bucket; key] in
  BucketExists s bucket fs = true -> creatable fs P = true ->
  os.below B P = true -> key_of B P = key ->
  strings.HasSuffix key ".metadata" = false ->
  exists res o,
    ListObjects s bucket "" "" "" 0 (fst (PutObject range s bucket key data size metadata fs))
    = Ok res
    /\ o ∈ Objects res
    /\ Key o = key /\ Size o = Z.of_nat (length data) /\ LastModified o = clock fs.
Proof.
  intros B P Hb Hc Hbelow Hkey Hsuf. unfold P in *. clear P.
  apply creatable_can_create in Hc.
  rewrite (PutObject_ok range s bucket key data size metadata fs Hb Hc). cbn [fst].
  pose proof (put_BucketExists range s bucket key data metadata fs Hc Hb) as Hb1.
  pose proof (put_Stat_object range s bucket key data metadata fs Hc) as Hst.
  rewrite (ListObjects_spec s bucket "" "" "" 0 _ Hb1). cbn [Z.ltb andb].
  eexists. eexists. split; [reflexivity|]. cbn [Objects]. split.
  - apply (listed_elem s bucket "" "" "" _ _ data (clock fs) Hst).
    + unfold os.below in Hbelow. apply bool_decide_eq_true in Hbelow. exact Hbelow.
    + fold B. rewrite Hkey. unfold Listing.discarded. rewrite Hsuf. reflexivity.
    + reflexivity.
  - cbn [Key Size LastModified objectInfo]. fold B. rewrite Hkey. auto.
Qed.

(** The object [a/x] is put into the empty bucket [b]. *)
Lemma ListObjects_after_put_witness :
  exists res o,
    ListObjects example_store "b" "" "" "" 0
      (fst (PutObject map_to_list example_store "b" "a/x" (bytes_of_string "1") 1 ∅
              bucket_fs))
    = Ok res
    /\ o ∈ Objects res
    /\ Key o = "a/x" /\ Size o = Z.of_nat (length (bytes_of_string "1"))
    /\ LastModified o = clock bucket_fs.
Proof.
  apply (ListObjects_after_put map_to_list example_store "b" "a/x" (bytes_of_string "1") 1
           ∅ bucket_fs).
  - vm_compute. reflexivity.
  - vm_compute. reflexivity.
  - vm_compute. reflexivity.
  - vm_compute. reflexivity.
  - vm_compute. reflexivity.
Defined.

(** * More on authentication *)

Lemma calculateSignature_five (a : AWSV4Auth) (r : http.Request)
    (credential signedHeaders : string) :
  length (strings.Split credential "/") = 5%nat ->
  calculateSignature a r credential signedHeaders = Err "invalid credential terminator"
  \/ exists sig, calculateSignature a r credential signedHeaders = Ok sig.
Proof.
  intros Hlen. unfold calculateSignature.
  destruct (strings.Split credential "/") as [|p0 [|p1 [|p2 [|p3 [|p4 [|p5 l]]]]]];
    simpl in Hlen; try discriminate.
  destruct (String.eqb p4 "aws4_request"); cbn [negb]; eauto.
Qed.

(** X16: [Authenticate] returns no error or one of seven messages. The
    message of [calculateSignature] for a credential that has not five
    components never comes out of it, since [Authenticate] has checked the
    number of components before. *)
Theorem Authenticate_outcomes (a : AWSV4Auth) (r : http.Request) :
  Authenticate a r
  ∈ [None;
     Some "missing authorization header";
     Some "invalid authorization header format";
     Some "missing credential";
     Some "invalid credential format";
     Some "invalid access key";
     Some "failed to calculate signature: invalid credential terminator";
     Some "signature mismatch"].
Proof.
  unfold Authenticate.
  destruct (String.eqb _ ""); [set_solver|].
  destruct (strings.HasPrefix _ _); cbn [negb]; [|set_solver].
  destruct (parseAuthHeader _) as [parts|]; [|set_solver].
  cbv zeta. destruct (String.eqb _ ""); [set_solver|].
  destruct (Nat.eqb_spec (length (strings.Split (default "" (parts !! "Credential")) "/")) 5)
    as [Hlen|]; cbn [negb]; [|set_solver].
  destruct (String.eqb _ (accessKey a)); cbn [negb]; [|set_solver].
  destruct (calculateSignature_five a r _ (default "" (parts !! "SignedHeaders")) Hlen)
    as [-> | [sig ->]].
  - rewrite !app_cons_s, app_nil_l_s. set_solver.
  - destruct (String.eqb _ sig); cbn [negb]; set_solver.
Qed.

(** ** What [Authenticate] reads *)

Section Reads.

Context (a a' : AWSV4Auth) (r r' : http.Request).
Context (Haccess : accessKey a = accessKey a') (Hsecret : secretKey a = secretKey a').
Context (Hmethod : http.Method r = http.Method r') (Hurl : http.URL r = http.URL r').

Lemma add_header_ext (names : list string) (m : gmap string string) :
  (forall name, name ∈ names ->
     http.Get (http.Headers r) name = http.Get (http.Headers r') name) ->
  fold_left (add_header r) names m = fold_left (add_header r') names m.
Proof.
  revert m. induction names as [|name names IH]; intros m H; [reflexivity|].
  cbn [fold_left]. unfold add_header at 2 4. rewrite (H name) by left.
  apply IH. intros n Hn. apply H. right. exact Hn.
Qed.

Lemma createCanonicalHeaders_ext (names : list string) :
  (forall name, name ∈ names ->
     http.Get (http.Headers r) name = http.Get (http.Headers r') name) ->
  createCanonicalHeaders r names = createCanonicalHeaders r' names.
Proof.
  intros H. unfold createCanonicalHeaders. rewrite (add_header_ext names ∅ H). reflexivity.
Qed.

Lemma createCanonicalRequest_ext (signedHeaders : string) :
  (forall name, name ∈ strings.Split signedHeaders ";" ->
     http.Get (http.Headers r) name = http.Get (http.Headers r') name) ->
  http.Get (http.Headers r) "X-Amz-Content-Sha256"
  = http.Get (http.Headers r') "X-Amz-Content-Sha256" ->
  createCanonicalRequest r signedHeaders = createCanonicalRequest r' signedHeaders.
Proof.
  intros Hnames Hpayload. unfold createCanonicalRequest.
  rewrite Hmethod, Hurl, Hpayload, (createCanonicalHeaders_ext _ Hnames). reflexivity.
Qed.

Lemma calculateSignature_ext (credential signedHeaders : string) :
  (forall name, name ∈ strings.Split signedHeaders ";" ->
     http.Get (http.Headers r) name = http.Get (http.Headers r') name) ->
  (forall name, name ∈ ["X-Amz-Content-Sha256"; "X-Amz-Date"; "Date"] ->
     http.Get (http.Headers r) name = http.Get (http.Headers r') name) ->
  calculateSignature a r credential signedHeaders
  = calculateSignature a' r' credential signedHeaders.
Proof.
  intros Hnames Hfixed. unfold calculateSignature, getSigningKey.
  rewrite Hsecret, (createCanonicalRequest_ext signedHeaders Hnames)
    by (apply Hfixed; apply list_elem_of_In; simpl; auto).
  rewrite (Hfixed "X-Amz-Date"), (Hfixed "Date") by (apply list_elem_of_In; simpl; auto).
  reflexivity.
Qed.

End Reads.

(** X17: [Authenticate] reads the access key and the secret key of the
    provider, and of the request the method, the URL, the headers
    [Authorization], [X-Amz-Content-Sha256], [X-Amz-Date] and [Date], and
    the headers named in the signed-header list: with these the same, the
    outcome is the same. The region configured, and the headers that are
    not signed, play no part. *)
Theorem Authenticate_reads_only_signed_parts (a a' : AWSV4Auth) (r r' : http.Request) :
  accessKey a = accessKey a' -> secretKey a = secretKey a' ->
  http.Method r = http.Method r' -> http.URL r = http.URL r' ->
  (forall name,
     name ∈ ["Authorization"; "X-Amz-Content-Sha256"; "X-Amz-Date"; "Date"] ->
     http.Get (http.Headers r) name = http.Get (http.Headers r') name) ->
  (forall name,
     name ∈ strings.Split (signed_header_list r) ";" ->
     http.Get (http.Headers r) name = http.Get (http.Headers r') name) ->
  Authenticate a r = Authenticate a' r'.
Proof.
  intros Ha Hs Hm Hu Hfixed Hnames. unfold Authenticate.
  rewrite <- (Hfixed "Authorization") by (apply list_elem_of_In; simpl; auto). rewrite <- Ha.
  destruct (String.eqb _ ""); [reflexivity|].
  destruct (strings.HasPrefix _ _); cbn [negb]; [|reflexivity].
  unfold signed_header_list, parseAuthHeader in *. cbn [mbind option_bind] in Hnames.
  cbv zeta.
  rewrite (calculateSignature_ext a a' r r' Hs Hm Hu).
  - reflexivity.
  - exact Hnames.
  - intros name Hn. apply Hfixed. apply list_elem_of_In in Hn. apply list_elem_of_In.
    simpl in *. tauto.
Qed.

(** The signed example request with another region configured and a
    header added that is not signed. *)
Lemma Authenticate_reads_only_signed_parts_witness :
  Authenticate example_auth signed_request
  = Authenticate (NewAWSV4Auth "AKID" "secret" "eu-west-1")
      {| http.Method := http.Method signed_request;
         http.URL := http.URL signed_request;
         http.Host := "localhost:3000";
         http.Headers := <["User-Agent" := ["curl"]]> (http.Headers signed_request) |}.
Proof.
  apply Authenticate_reads_only_signed_parts; try reflexivity.
  - intros name Hn. apply list_elem_of_In in Hn. simpl in Hn.
    destruct Hn as [<-|[<-|[<-|[<-|[]]]]]; vm_compute; reflexivity.
  - intros name Hn.
    replace (strings.Split (signed_header_list signed_request) ";")
      with ["range"; "x-amz-content-sha256"; "x-amz-date"] in Hn
      by (vm_compute; reflexivity).
    apply list_elem_of_In in Hn. simpl in Hn.
    destruct Hn as [<-|[<-|[<-|[]]]]; vm_compute; reflexivity.
Defined.

(** ** The digests *)

Lemma EncodeToString_length (b : bytes) :
  String.length (EncodeToString b) = (2 * length b)%nat.
Proof.
  induction b as [|x b IH]; [reflexivity|].
  cbn [EncodeToString String.length length]. rewrite IH. lia.
Qed.

(** X18: [hmacSHA256] returns 32 bytes and [sha256Hex] 64 characters on
    every input, the inputs with a hard-coded result included. *)
Theorem digests_have_fixed_length :
  (forall key data, length (hmacSHA256 key data) = 32%nat)
  /\ (forall data, String.length (sha256Hex data) = 64%nat).
Proof.
  split.
  - intros key data. unfold hmacSHA256.
    destruct (_ && _)%bool; [reflexivity | apply HMAC_Sum_length].
  - intros data. unfold sha256Hex.
    destruct (String.eqb data "test-data"); [reflexivity|].
    rewrite EncodeToString_length, Sum256_length. reflexivity.
Qed.

(** X19: the hard-coded results of [hmacSHA256] and [sha256Hex] are never
    reached from [calculateSignature]: for a credential of five components
    that ends in [aws4_request], the signature is the one computed with
    the standard HMAC-SHA256 and SHA-256 throughout. *)
Theorem calculateSignature_uses_standard_digests
    (a : AWSV4Auth) (r : http.Request) (credential signedHeaders : string)
    (access date region service : string) :
  strings.Split credential "/" = [access; date; region; service; "aws4_request"] ->
  calculateSignature a r credential signedHeaders
  = Ok (standard_signature (secretKey a) r date region service signedHeaders).
Proof.
  intros Hsplit. unfold calculateSignature. rewrite Hsplit.
  cbn [String.eqb Ascii.eqb Bool.eqb negb andb].
  rewrite getSigningKey_spec.
  rewrite hmacSHA256_long_key
    by (unfold Spec.signing_key; rewrite HMAC_Sum_length; discriminate).
  assert (E : sha256Hex (createCanonicalRequest r signedHeaders)
              = EncodeToString
                  (SHA256.Sum256 (bytes_of_string (createCanonicalRequest r signedHeaders)))).
  { unfold createCanonicalRequest. cbv zeta. apply sha256Hex_lines. }
  rewrite E. unfold standard_signature, Spec.timestamp. reflexivity.
Qed.

(** The credential of the signed example request. *)
Lemma calculateSignature_uses_standard_digests_witness :
  calculateSignature example_auth signed_request
    "AKID/20130524/us-east-1/s3/aws4_request" "range;x-amz-content-sha256;x-amz-date"
  = Ok (standard_signature (secretKey example_auth) signed_request
          "20130524" "us-east-1" "s3" "range;x-amz-content-sha256;x-amz-date").
Proof.
  apply (calculateSignature_uses_standard_digests example_auth signed_request
           "AKID/20130524/us-east-1/s3/aws4_request"
           "range;x-amz-content-sha256;x-amz-date" "AKID").
  vm_compute. reflexivity.
Defined.

(** ** The fields of the Authorization header *)

Lemma Cut_split (s sep b a : string) :
  strings.Cut s sep = Some (b, a) -> s = b +:+ sep +:+ a.
Proof.
  unfold strings.Cut. destruct (strings.Index s sep) as [i|] eqn:E; [|discriminate].
  intros [= <- <-]. rewrite <- app_assoc_s, <- (take_Index s sep i E).
  symmetry. apply take_drop_s.
Qed.

Lemma Index_take_none (s : string) (c : ascii) (i : nat) :
  strings.Index s (String c "") = Some i ->
  strings.Contains (strings.take i s) (String c "") = false.
Proof.
  revert i. induction s as [|x s IH]; intros i; cbn [strings.Index].
  - discriminate.
  - rewrite sprefix_cons, sprefix_nil, andb_true_r.
    destruct (decide (c = x)) as [->|Hne].
    + rewrite bool_decide_eq_true_2 by reflexivity. intros [= <-]. reflexivity.
    + rewrite bool_decide_eq_false_2 by exact Hne.
      destruct (strings.Index s (String c "")) as [j|]; [|discriminate].
      intros [= <-]. cbn [strings.take].
      rewrite Contains_cons_ne by congruence. apply IH. reflexivity.
Qed.

Lemma Cut_before (s : string) (c : ascii) (b a : string) :
  strings.Cut s (String c "") = Some (b, a) ->
  strings.Contains b (String c "") = false.
Proof.
  unfold strings.Cut. destruct (strings.Index s (String c "")) as [i|] eqn:E; [|discriminate].
  intros [= <- _]. apply Index_take_none, E.
Qed.

Lemma Contains_app_inv (a b : string) (c : ascii) :
  strings.Contains (a +:+ b) (String c "") = false ->
  strings.Contains a (String c "") = false /\ strings.Contains b (String c "") = false.
Proof.
  induction a as [|x a IH]; [rewrite app_nil_l_s; auto|].
  rewrite app_cons_s. intros H. apply Contains_cons_inv in H as [Hne H].
  destruct (IH H) as [Ha Hb]. split; [|exact Hb].
  rewrite Contains_cons_ne by exact Hne. exact Ha.
Qed.

Lemma split_fuel_substring (fuel : nat) (s sep f : string) :
  f ∈ strings.split_fuel fuel s sep -> exists x y, s = x +:+ f +:+ y.
Proof.
  revert s. induction fuel as [|fuel IH]; intros s; cbn [strings.split_fuel].
  - intros H. apply list_elem_of_singleton in H as ->.
    exists "", "". rewrite app_nil_l_s, app_nil_r_s. reflexivity.
  - destruct (strings.Cut s sep) as [[b a]|] eqn:E.
    + apply Cut_split in E. intros H. apply elem_of_cons in H as [->|H].
      * exists "", (sep +:+ a). rewrite app_nil_l_s. exact E.
      * destruct (IH a H) as (x & y & Ha). exists (b +:+ sep +:+ x), y.
        rewrite E, Ha, !app_assoc_s. reflexivity.
    + intros H. apply list_elem_of_singleton in H as ->.
      exists "", "". rewrite app_nil_l_s, app_nil_r_s. reflexivity.
Qed.

Lemma add_field_Cut (m : gmap string string) (part : string) :
  add_field m part
  = match strings.Cut part "=" with
    | Some (k, v) => <[k := v]> m
    | None => m
    end.
Proof.
  unfold add_field, strings.SplitN2.
  destruct (strings.Cut part "=") as [[k v]|]; reflexivity.
Qed.

Lemma add_fields_lookup (l : list string) (m : gmap string string) (k v : string) :
  fold_left add_field l m !! k = Some v ->
  m !! k = Some v \/ exists f, f ∈ l /\ strings.Cut f "=" = Some (k, v).
Proof.
  revert m. induction l as [|f l IH]; intros m H; [left; exact H|].
  cbn [fold_left] in H. apply IH in H as [H | (f' & Hin & Hc)].
  - rewrite add_field_Cut in H. destruct (strings.Cut f "=") as [[k' v']|] eqn:E.
    + destruct (decide (k' = k)) as [->|Hne].
      * rewrite lookup_insert_eq in H. injection H as ->.
        right. exists f. split; [left|exact E].
      * rewrite lookup_insert_ne in H by exact Hne. left. exact H.
    + left. exact H.
  - right. exists f'. split; [right; exact Hin | exact Hc].
Qed.

Lemma TrimPrefix_suffix (h p : string) : exists x, h = x +:+ strings.TrimPrefix h p.
Proof.
  unfold strings.TrimPrefix. destruct (strings.HasPrefix h p).
  - exists (strings.take (String.length p) h). symmetry. apply take_drop_s.
  - exists "". rewrite app_nil_l_s. reflexivity.
Qed.

(** X20: every entry of the map that [parseAuthHeader] returns comes from
    one of the fields that a comma and a space separate: the key is the
    text of the field before its first equals sign and the value the text
    after it. A header without an equals sign gives the empty map. *)
Theorem parseAuthHeader_entries (h : string) (m : gmap string string) :
  parseAuthHeader h = Some m ->
  (forall k v,
     m !! k = Some v ->
     (k +:+ "=" +:+ v) ∈ strings.Split (strings.TrimPrefix h "AWS4-HMAC-SHA256 ") ", "
     /\ strings.Contains k "=" = false)
  /\ (strings.Contains h "=" = false -> m = ∅).
Proof.
  unfold parseAuthHeader. intros [= <-].
  assert (Hentries : forall k v,
            fold_left add_field
              (strings.Split (strings.TrimPrefix h "AWS4-HMAC-SHA256 ") ", ") ∅ !! k
            = Some v ->
            (k +:+ "=" +:+ v)
              ∈ strings.Split (strings.TrimPrefix h "AWS4-HMAC-SHA256 ") ", "
            /\ strings.Contains k "=" = false).
  { intros k v H. apply add_fields_lookup in H as [H | (f & Hin & Hc)].
    - rewrite lookup_empty in H. discriminate H.
    - split; [|exact (Cut_before f _ k v Hc)].
      apply Cut_split in Hc. rewrite <- Hc. exact Hin. }
  split; [exact Hentries|].
  intros Hno. apply map_empty. intros k.
  destruct (fold_left add_field _ ∅ !! k) as [v|] eqn:E; [|reflexivity]. exfalso.
  destruct (Hentries k v E) as [Hin _].
  apply split_fuel_substring in Hin as (x & y & Hparts).
  destruct (TrimPrefix_suffix h "AWS4-HMAC-SHA256 ") as [z Hh].
  rewrite Hh, Hparts in Hno.
  apply Contains_app_inv in Hno as [_ Hno]. apply Contains_app_inv in Hno as [_ Hno].
  apply Contains_app_inv in Hno as [Hno _]. apply Contains_app_inv in Hno as [_ Hno].
  rewrite app_cons_s in Hno. apply Contains_cons_inv in Hno as [Hne _].
  apply Hne. reflexivity.
Qed.

(** The header of the repository's test for an invalid header. *)
Lemma parseAuthHeader_entries_witness :
  parseAuthHeader "Invalid Authorization Header" = Some ∅.
Proof.
  destruct (parseAuthHeader_entries "Invalid Authorization Header"
              (fold_left add_field
                 (strings.Split
                    (strings.TrimPrefix "Invalid Authorization Header" "AWS4-HMAC-SHA256 ")
                    ", ") ∅)) as [_ H].
  - reflexivity.
  - unfold parseAuthHeader. rewrite H; [reflexivity|]. vm_compute. reflexivity.
Defined.

(** ** The canonical query string *)

Lemma Query_values (u1 u2 : url.URL) :
  (forall k, List.filter (has_key k) (url.RawQuery u1)
             = List.filter (has_key k) (url.RawQuery u2)) ->
  url.Query u1 = url.Query u2.
Proof.
  intros H. apply map_eq. intros k. unfold url.Query.
  rewrite !add_pair_lookup, H. reflexivity.
Qed.

(** X21: the canonical query string depends only on the values given for
    each parameter name, in their order: two parameters with different
    names that follow each other in the URL can change places without
    changing it. *)
Theorem createCanonicalQueryString_order_of_names :
  (forall u1 u2,
     (forall k, List.filter (has_key k) (url.RawQuery u1)
                = List.filter (has_key k) (url.RawQuery u2)) ->
     createCanonicalQueryString (url.Query u1) = createCanonicalQueryString (url.Query u2))
  /\ (forall path q1 q2 (a b : string * string),
        fst a <> fst b ->
        createCanonicalQueryString
          (url.Query {| url.Path := path; url.RawQuery := q1 ++ a :: b :: q2 |})
        = createCanonicalQueryString
            (url.Query {| url.Path := path; url.RawQuery := q1 ++ b :: a :: q2 |})).
Proof.
  split.
  - intros u1 u2 H. rewrite (Query_values u1 u2 H). reflexivity.
  - intros path q1 q2 a b Hne. f_equal. apply Query_values. intros k.
    cbn [url.RawQuery]. rewrite !List.filter_app. f_equal. cbn [List.filter].
    destruct (has_key k a) eqn:Ea; destruct (has_key k b) eqn:Eb; try reflexivity.
    apply has_key_true in Ea, Eb. congruence.
Qed.

(** The parameters [b=1] and [a=2] in both orders. *)
Lemma createCanonicalQueryString_order_of_names_witness :
  createCanonicalQueryString
    (url.Query {| url.Path := "/"; url.RawQuery := [] ++ ("b", "1") :: ("a", "2") :: [] |})
  = createCanonicalQueryString
      (url.Query {| url.Path := "/"; url.RawQuery := [] ++ ("a", "2") :: ("b", "1") :: [] |}).
Proof.
  apply (proj2 createCanonicalQueryString_order_of_names "/" [] [] ("b", "1") ("a", "2")).
  discriminate.
Defined.

(** * The handlers *)

(** ** Authentication of a request *)

Lemma Authenticate_with_header (a : AWSV4Auth) (r : http.Request) :
  http.Get (http.Headers r) "Authorization" <> "" ->
  Authenticate a r <> Some "missing authorization header".
Proof.
  intros Hne. unfold Authenticate.
  destruct (String.eqb_spec (http.Get (http.Headers r) "Authorization") "");
    [contradiction|].
  destruct (strings.HasPrefix _ _); cbn [negb]; [|discriminate].
  destruct (parseAuthHeader _) as [parts|]; [|discriminate].
  cbv zeta. destruct (String.eqb _ ""); [discriminate|].
  destruct (negb (Nat.eqb _ 5)); [discriminate|].
  destruct (negb (String.eqb _ (accessKey a))); [discriminate|].
  destruct (calculateSignature _ _ _ _) as [sig|err].
  - destruct (negb _); discriminate.
  - rewrite !app_cons_s. discriminate.
Qed.

(** X22: the handlers let a request pass without looking at a signature
    when it is for [/health], when authentication is disabled, or when it
    carries no Authorization header; so a request is refused only for an
    Authorization header that [Authenticate] rejects, and never for a
    missing one. *)
Theorem handler_authenticate_refuses_only_bad_headers
    (h : handlers.Handler) (r : http.Request) :
  (http.Get (http.Headers r) "Authorization" = "" -> handlers.authenticate h r = None)
  /\ handlers.authenticate h r <> Some "missing authorization header"
  /\ (forall err,
        handlers.authenticate h r = Some err ->
        url.Path (http.URL r) <> "/health"
        /\ handlers.disableAuth h = false
        /\ http.Get (http.Headers r) "Authorization" <> ""
        /\ Authenticate (handlers.auth h) r = Some err).
Proof.
  unfold handlers.authenticate. split; [|split].
  - intros ->. destruct (String.eqb _ "/health"); [reflexivity|].
    destruct (handlers.disableAuth h); reflexivity.
  - destruct (String.eqb _ "/health"); [discriminate|].
    destruct (handlers.disableAuth h); [discriminate|].
    destruct (String.eqb_spec (http.Get (http.Headers r) "Authorization") "");
      [discriminate|].
    apply Authenticate_with_header. assumption.
  - intros err.
    destruct (String.eqb_spec (url.Path (http.URL r)) "/health"); [discriminate|].
    destruct (handlers.disableAuth h); [discriminate|].
    destruct (String.eqb_spec (http.Get (http.Headers r) "Authorization") "");
      [discriminate|].
    auto.
Qed.

(** The request without an Authorization header. *)
Lemma handler_authenticate_refuses_only_bad_headers_witness :
  handlers.authenticate example_handler listing_request = None.
Proof.
  apply (proj1 (handler_authenticate_refuses_only_bad_headers example_handler
                  listing_request)).
  vm_compute. reflexivity.
Defined.

(** ** Numbers in the query *)

Ltac digit_value :=
  match goal with
  | |- context [is_digit ?c] =>
      let b := eval vm_compute in (is_digit c) in change (is_digit c) with b
  end;
  match goal with
  | |- context [Z.of_nat (nat_of_ascii ?c) - 48] =>
      let v := eval vm_compute in (Z.of_nat (nat_of_ascii c) - 48) in
      change (Z.of_nat (nat_of_ascii c) - 48) with v
  end; cbv iota.

Lemma digits_uint_acc (d : Decimal.uint) (acc : positive) :
  strconv.digits (DecimalString.NilEmpty.string_of_uint d) (Z.pos acc)
  = Some (Z.pos (Pos.of_uint_acc d acc)).
Proof.
  revert acc. induction d; intros acc;
    cbn [DecimalString.NilEmpty.string_of_uint strconv.digits Pos.of_uint_acc];
    [reflexivity|..];
    digit_value; rewrite <- IHd; f_equal; lia.
Qed.

Lemma digits_uint (d : Decimal.uint) :
  strconv.digits (DecimalString.NilEmpty.string_of_uint d) 0
  = Some (Z.of_N (Pos.of_uint d)).
Proof.
  induction d; cbn [DecimalString.NilEmpty.string_of_uint strconv.digits Pos.of_uint];
    [reflexivity|..]; digit_value; [exact IHd|..];
    cbn [Z.of_N]; rewrite <- digits_uint_acc; reflexivity.
Qed.

Lemma Atoi_uint (d : Decimal.uint) :
  d <> Decimal.Nil ->
  strconv.Atoi (DecimalString.NilEmpty.string_of_uint d)
  = if Z.of_N (Pos.of_uint d) <=? 2 ^ 63 - 1
    then Some (Z.of_N (Pos.of_uint d)) else None.
Proof.
  intros Hd. pose proof (digits_uint d) as Hdig.
  destruct d; [contradiction|..]; unfold strconv.Atoi;
    cbn [DecimalString.NilEmpty.string_of_uint] in *; cbv iota beta; rewrite Hdig;
    cbv zeta iota beta;
    rewrite (proj2 (Z.leb_le (- 2 ^ 63) _)) by lia; reflexivity.
Qed.

Lemma Atoi_neg_uint (d : Decimal.uint) :
  d <> Decimal.Nil ->
  strconv.Atoi (String "-" (DecimalString.NilEmpty.string_of_uint d))
  = if - 2 ^ 63 <=? - Z.of_N (Pos.of_uint d)
    then Some (- Z.of_N (Pos.of_uint d)) else None.
Proof.
  intros Hd. pose proof (digits_uint d) as Hdig.
  destruct d; [contradiction|..]; unfold strconv.Atoi;
    cbn [DecimalString.NilEmpty.string_of_uint] in *; cbv iota beta; rewrite Hdig;
    cbv zeta iota beta;
    rewrite (proj2 (Z.leb_le _ (2 ^ 63 - 1))) by lia; rewrite andb_true_r; reflexivity.
Qed.

(** A number in the range of [int], written in decimal, is read back. *)
Lemma Atoi_format_d (n : Z) :
  - 2 ^ 63 <= n <= 2 ^ 63 - 1 -> strconv.Atoi (format_d n) = Some n.
Proof.
  intros Hn. unfold format_d. destruct n as [|p|p]; [reflexivity|..];
    cbn [Z.to_int DecimalString.NilZero.string_of_int];
    unfold DecimalString.NilZero.string_of_uint;
    pose proof (DecimalPos.Unsigned.to_uint_nonnil p) as Hnn;
    destruct (Pos.to_uint p) eqn:E; try contradiction; rewrite <- E in *.
  all: first [ rewrite Atoi_uint by exact Hnn | rewrite Atoi_neg_uint by exact Hnn ];
    rewrite DecimalPos.Unsigned.of_to; cbn [Z.of_N Z.opp];
    rewrite (proj2 (Z.leb_le _ _)) by lia; reflexivity.
Qed.

(** ** The listing over HTTP *)

Lemma ListObjects_length (s : FileSystemStorage) (bucket prefix delimiter marker : string)
    (maxKeys : Z) (fs : FS) (res : ListObjectsResult) :
  0 < maxKeys ->
  ListObjects s bucket prefix delimiter marker maxKeys fs = Ok res ->
  Z.of_nat (length (Objects res)) <= maxKeys.
Proof.
  intros Hpos H. pose proof (ListObjects_bucket _ _ _ _ _ _ _ _ H) as Hb.
  rewrite (ListObjects_spec s bucket prefix delimiter marker maxKeys fs Hb) in H.
  injection H as <-.
  destruct (Z.ltb_spec 0 maxKeys); [|lia]. cbn [andb].
  destruct (Z.ltb_spec maxKeys
              (Z.of_nat (length (Listing.listed (filepath.Join (basePath s) [bucket])
                                   prefix delimiter marker fs)))); cbn [Objects].
  - rewrite length_take. lia.
  - assumption.
Qed.

Lemma max_keys_positive (str : string) :
  0 < (if String.eqb str "" then 1000
       else match strconv.Atoi str with
            | Some mk => if 0 <? mk then mk else 1000
            | None => 1000
            end).
Proof.
  destruct (String.eqb str ""); [lia|].
  destruct (strconv.Atoi str) as [mk|]; [|lia].
  destruct (Z.ltb_spec 0 mk); lia.
Qed.

(** X23: the listing handler hands the storage a positive [maxKeys]: the
    number given as [max-keys] when that is a positive decimal number in
    the range of [int], and 1000 when the parameter is missing, not a
    number, zero or negative. So a listing answered over HTTP never has
    more objects than that. *)
Theorem handler_ListObjects_max_keys
    (h : handlers.Handler) (bucket : string) (r : http.Request) (fs : FS)
    (name prefix marker : string) (maxKeys : Z) (result : ListObjectsResult)
    (owner : string) :
  handlers.ListObjects h bucket r fs
  = handlers.ListBucketResult name prefix marker maxKeys result owner ->
  let given := handlers.query_get (url.Query (http.URL r)) "max-keys" in
  0 < maxKeys
  /\ Z.of_nat (length (Objects result)) <= maxKeys
  /\ (forall n, 0 < n <= 2 ^ 63 - 1 -> given = format_d n -> maxKeys = n)
  /\ (forall n, - 2 ^ 63 <= n <= 0 -> given = format_d n -> maxKeys = 1000)
  /\ (given = "" \/ strconv.Atoi given = None -> maxKeys = 1000).
Proof.
  unfold handlers.ListObjects.
  destruct (handlers.authenticate h r); [discriminate|].
  destruct (negb (BucketExists _ bucket fs)); [discriminate|]. cbv zeta.
  set (given := handlers.query_get (url.Query (http.URL r)) "max-keys").
  pose proof (max_keys_positive given) as Hpos.
  set (mk := if String.eqb given "" then 1000 else _) in *.
  destruct (ListObjects _ bucket _ _ _ mk fs) as [res|err] eqn:E; [|discriminate].
  intros [= _ _ _ <- <- _]. split; [exact Hpos|].
  split; [exact (ListObjects_length _ _ _ _ _ _ _ _ Hpos E)|].
  assert (Hne : forall n, given = format_d n -> String.eqb given "" = false).
  { intros n ->. apply String.eqb_neq. intros E'.
    pose proof (format_d_plain n) as Hp. rewrite E' in Hp. discriminate Hp. }
  split; [|split].
  - intros n Hn Hg. subst mk. rewrite (Hne n Hg), Hg, Atoi_format_d by lia.
    destruct (Z.ltb_spec 0 n); [reflexivity|lia].
  - intros n Hn Hg. subst mk. rewrite (Hne n Hg), Hg, Atoi_format_d by lia.
    destruct (Z.ltb_spec 0 n); [lia|reflexivity].
  - intros [Hg | Hg]; subst mk.
    + rewrite Hg. reflexivity.
    + rewrite Hg. destruct (String.eqb given ""); reflexivity.
Qed.

(** A listing of the bucket with three objects for at most two keys. *)
Lemma handler_ListObjects_max_keys_witness :
  exists name prefix marker result owner,
    handlers.ListObjects example_handler "b" listing_request listing_fs
    = handlers.ListBucketResult name prefix marker 2 result owner
    /\ Z.of_nat (length (Objects result)) <= 2.
Proof.
  assert (E : exists name prefix marker result owner,
            handlers.ListObjects example_handler "b" listing_request listing_fs
            = handlers.ListBucketResult name prefix marker 2 result owner).
  { do 5 eexists. vm_compute. reflexivity. }
  destruct E as (name & prefix & marker & result & owner & E).
  exists name, prefix, marker, result, owner. split; [exact E|].
  destruct (handler_ListObjects_max_keys example_handler "b" listing_request listing_fs
              name prefix marker 2 result owner E) as (_ & H & _).
  exact H.
Defined.

(** * Keys as paths *)

Lemma plain_no_slash (name : string) :
  plain_name name = true -> strings.Contains name "/" = false.
Proof.
  unfold plain_name. intros H.
  apply andb_true_iff in H as [H _]. apply andb_true_iff in H as [H _].
  apply andb_true_iff in H as [H _]. apply negb_true_iff in H. exact H.
Qed.

Lemma Join_escaping (base : path) (bucket other key : string) :
  plain_name bucket = true -> plain_name other = true -> plain_name key = true ->
  filepath.Join base [bucket; "../" +:+ other +:+ "/" +:+ key]
  = filepath.Join base [other; key].
Proof.
  intros Hb Ho Hk. unfold filepath.Join. cbn [flat_map]. rewrite !app_nil_r.
  rewrite (Split_plain bucket Hb), (Split_plain other Ho), (Split_plain key Hk).
  assert (E : strings.Split ("../" +:+ other +:+ "/" +:+ key) "/" = [".."; other; key]).
  { change ("../" +:+ other +:+ "/" +:+ key)
      with (".." +:+ String "/" (other +:+ String "/" key)).
    rewrite Split_app_1 by reflexivity.
    rewrite Split_app_1 by (apply plain_no_slash, Ho).
    rewrite Split_none by (apply plain_no_slash, Hk). reflexivity. }
  rewrite E. cbn [app fold_left].
  rewrite (clean_step_plain _ bucket Hb).
  change (filepath.clean_step (bucket :: rev base) "..") with (rev base).
  reflexivity.
Qed.

(** X24: the storage does not confine a key to its bucket: a key that
    begins with two dots and a slash is resolved from the base directory,
    so through one bucket the objects of another are read and written. *)
Theorem key_is_not_confined_to_its_bucket
    (s : FileSystemStorage) (bucket other key : string) :
  plain_name bucket = true -> plain_name other = true -> plain_name key = true ->
  let escaping := "../" +:+ other +:+ "/" +:+ key in
  filepath.Join (basePath s) [bucket; escaping] = filepath.Join (basePath s) [other; key]
  /\ (forall fs,
        BucketExists s bucket fs = true -> BucketExists s other fs = true ->
        content (GetObject s bucket escaping fs) = content (GetObject s other key fs))
  /\ (forall range data size metadata fs,
        BucketExists s bucket fs = true -> BucketExists s other fs = true ->
        fst (PutObject range s bucket escaping data size metadata fs)
        = fst (PutObject range s other key data size metadata fs)).
Proof.
  intros Hb Ho Hk escaping.
  pose proof (Join_escaping (basePath s) bucket other key Hb Ho Hk) as E.
  fold escaping in E. split; [exact E|]. split.
  - intros fs H1 H2. unfold GetObject. rewrite H1, H2, E. cbn [negb].
    destruct (os.Stat fs _) as [[d t|]|e]; reflexivity.
  - intros range data size metadata fs H1 H2. unfold PutObject.
    rewrite H1, H2, E. cbn [negb].
    destruct (os.MkdirAll fs _) as [fs1 [e|]]; [reflexivity|].
    destruct (os.Create fs1 _); reflexivity.
Qed.

(** The object [x] of the bucket [b], read through a bucket [c]. *)
Lemma key_is_not_confined_to_its_bucket_witness :
  content (GetObject example_store "c" ("../" +:+ "b" +:+ "/" +:+ "x")
             (fst (CreateBucket example_store "c" object_fs)))
  = content (GetObject example_store "b" "x"
               (fst (CreateBucket example_store "c" object_fs))).
Proof.
  apply (proj1 (proj2 (key_is_not_confined_to_its_bucket example_store "c" "b" "x"
                         eq_refl eq_refl eq_refl))).
  - vm_compute. reflexivity.
  - vm_compute. reflexivity.
Defined.

(** ** An object on the way of a key, and a directory at it *)

Lemma mkdir_all_file (m : gmap path node) (cur rest0 rest : path) (d : bytes) (t : Z) :
  rest0 <> [] -> os.has_NUL rest0 = false ->
  (forall q, q `prefix_of` rest0 -> q <> [] -> q <> rest0 -> m !! (cur ++ q) = Some Dir) ->
  m !! (cur ++ rest0) = Some (File d t) ->
  os.mkdir_all m cur (rest0 ++ rest) = (m, Some os.ENOTDIR).
Proof.
  revert cur. induction rest0 as [|c r0 IH]; intros cur Hne Hnul Hpar Hfile; [contradiction|].
  cbn [os.has_NUL existsb] in Hnul. apply orb_false_iff in Hnul as [Hc Hnul].
  cbn [app os.mkdir_all]. rewrite Hc. destruct r0 as [|c' r0].
  - rewrite Hfile. reflexivity.
  - rewrite (Hpar [c]); [| apply prefix_cons, prefix_nil | discriminate | discriminate].
    apply IH; [discriminate | exact Hnul | |].
    + intros q Hq Hq1 Hq2. rewrite <- app_assoc. apply Hpar.
      * apply prefix_cons, Hq.
      * discriminate.
      * intros [= E]. exact (Hq2 E).
    + rewrite <- app_assoc. exact Hfile.
Qed.

Lemma resolve_through_file (m : gmap path node) (cur rest0 rest : path)
    (d : bytes) (t : Z) :
  rest <> [] ->
  (forall q, q `prefix_of` rest0 -> q <> rest0 -> os.node_at m (cur ++ q) = Some Dir) ->
  os.node_at m (cur ++ rest0) = Some (File d t) ->
  os.resolve m cur (rest0 ++ rest) = Err os.ENOTDIR.
Proof.
  revert cur. induction rest0 as [|c r0 IH]; intros cur Hne Hpar Hfile.
  - rewrite app_nil_r in Hfile. destruct rest as [|x rest]; [contradiction|].
    cbn [app os.resolve]. rewrite Hfile. reflexivity.
  - cbn [app os.resolve].
    pose proof (Hpar [] (prefix_nil _) ltac:(discriminate)) as H0.
    rewrite app_nil_r in H0. rewrite H0. apply IH; [exact Hne| |].
    + intros q Hq Hq2. rewrite <- app_assoc. apply Hpar; [apply prefix_cons, Hq|].
      intros [= E]. exact (Hq2 E).
    + rewrite <- app_assoc. exact Hfile.
Qed.

Section Conflict.

Context (fs : FS) (P0 p : path) (d : bytes) (t : Z).
Context (Hfile : os.Stat fs P0 = Ok (File d t)) (Hpre : P0 `prefix_of` p).

Lemma MkdirAll_through_file : os.MkdirAll fs p = (fs, Some os.ENOTDIR).
Proof.
  destruct Hpre as [rest ->]. unfold os.MkdirAll.
  assert (HP0 : P0 <> []) by (intros E; rewrite E in Hfile; discriminate Hfile).
  pose proof (Stat_NUL _ _ _ Hfile) as Hnul.
  apply Stat_ok in Hfile as [Hend Hpar].
  rewrite (mkdir_all_file (files fs) [] P0 rest d t HP0 Hnul).
  - rewrite FS_eta. reflexivity.
  - intros q Hq Hq1 Hq2. cbn [app]. rewrite <- (node_at_lookup _ q Hq1).
    apply Hpar; assumption.
  - cbn [app]. rewrite <- (node_at_lookup _ P0 HP0). exact Hend.
Qed.

Lemma Stat_through_file :
  P0 <> p -> os.Stat fs p = Err (if os.has_NUL p then os.EINVAL else os.ENOTDIR).
Proof.
  intros Hne. unfold os.Stat at 1. destruct (os.has_NUL p); [reflexivity|].
  destruct Hpre as [rest ->].
  apply Stat_ok in Hfile as [Hend Hpar].
  apply (resolve_through_file (files fs) [] P0 rest d t).
  - intros ->. apply Hne. rewrite app_nil_r. reflexivity.
  - intros q Hq Hq2. cbn [app]. apply Hpar; assumption.
  - cbn [app]. exact Hend.
Qed.

End Conflict.

(** X25: an object and a directory cannot have the same path. Below an
    existing object no object can be put: the put fails with [not a
    directory] and changes nothing, and a get there fails with that error
    (with [invalid argument] when the key has a NUL byte), not with
    [object does not exist]. At a key that is a directory, as the part
    before a slash of another object's key is, a put fails with [is a
    directory] and changes nothing. *)
Theorem PutObject_key_conflicts
    (range : gmap string string -> list (string * string))
    (s : FileSystemStorage) (bucket key : string) (data : bytes) (size : Z)
    (metadata : gmap string string) (fs : FS) :
  let P := filepath.Join (basePath s) [bucket; key] in
  BucketExists s bucket fs = true ->
  (forall P0 d t,
     os.Stat fs P0 = Ok (File d t) -> P0 `prefix_of` P -> P0 <> P ->
     PutObject range s bucket key data size metadata fs = (fs, Err os.ENOTDIR)
     /\ GetObject s bucket key fs
        = Err (if os.has_NUL P then os.EINVAL else os.ENOTDIR))
  /\ (os.Stat fs P = Ok Dir ->
      PutObject range s bucket key data size metadata fs = (fs, Err os.EISDIR)).
Proof.
  intros P Hb. split.
  - intros P0 d t Hfile Hpre Hne. split.
    + unfold PutObject. rewrite Hb. cbn [negb]. fold P. unfold filepath.Dir.
      rewrite (MkdirAll_through_file fs P0 (removelast P) d t Hfile); [reflexivity|].
      apply prefix_removelast; assumption.
    + unfold GetObject. rewrite Hb. cbn [negb]. fold P.
      rewrite (Stat_through_file fs P0 P d t Hfile Hpre Hne).
      destruct (os.has_NUL P); reflexivity.
  - intros Hdir. unfold PutObject. rewrite Hb. cbn [negb]. fold P. unfold filepath.Dir.
    assert (Hparent : os.Stat fs (removelast P) = Ok Dir).
    { destruct (decide (P = [])) as [E|HP]; [rewrite E; reflexivity|].
      apply (Stat_prefix fs P _ Dir Hdir).
      - exists [List.last P ""]. apply app_removelast_last, HP.
      - intros E. apply (f_equal length) in E.
        pose proof (removelast_length P HP). lia. }
    rewrite (MkdirAll_existing fs _ Hparent). unfold os.Create.
    rewrite (Stat_NUL _ _ _ Hdir).
    destruct P as [|c q] eqn:EP; [reflexivity|]. rewrite <- EP in *.
    unfold filepath.Dir. rewrite Hparent.
    rewrite (Stat_lookup fs P Dir Hdir) by (rewrite EP; discriminate). reflexivity.
Qed.

(** With the object [a/x] in the bucket: a put under [a/x/y], and a put
    at [a]. *)
Lemma PutObject_key_conflicts_witness :
  PutObject map_to_list example_store "b" "a/x/y" [] 0 ∅ listing_fs
  = (listing_fs, Err os.ENOTDIR)
  /\ PutObject map_to_list example_store "b" "a" [] 0 ∅ listing_fs
     = (listing_fs, Err os.EISDIR).
Proof.
  split.
  - apply (proj1 (PutObject_key_conflicts map_to_list example_store "b" "a/x/y" [] 0 ∅
                    listing_fs eq_refl) ["data"; "b"; "a"; "x"] (bytes_of_string "1")
             (clock bucket_fs)).
    + vm_compute. reflexivity.
    + exists ["y"]. vm_compute. reflexivity.
    + vm_compute. discriminate.
  - apply (proj2 (PutObject_key_conflicts map_to_list example_store "b" "a" [] 0 ∅
                    listing_fs eq_refl)).
    vm_compute. reflexivity.
Defined.

(** * Aborting a session *)

(** X4: [AbortMultipartUpload] of a session whose directory exists returns
    no error and removes the directory with everything below it, leaving
    every other path as it was; afterwards an upload of a part to the
    session fails and a second abort removes nothing. When nothing is
    found at the path of the session it returns no error and changes
    nothing. When a file stands on the way to the session directory (a
    regular file at [.uploads] in the bucket, say) it fails, with [not a
    directory] when the path has no NUL byte, and whenever it fails it has
    removed nothing. *)
Theorem AbortMultipartUpload_removes_session
    (s : FileSystemStorage) (bucket key uploadID : string) (fs : FS) :
  let U := filepath.Join (basePath s) [bucket; ".uploads"; uploadID] in
  let r := AbortMultipartUpload s bucket key uploadID fs in
  U <> [] ->
  (forall n, os.Stat fs U = Ok n ->
     snd r = None
     /\ (forall q, U `prefix_of` q -> files (fst r) !! q = None)
     /\ (forall q, ~ U `prefix_of` q -> files (fst r) !! q = files fs !! q)
     /\ (forall k data size,
           exists e, UploadPart s bucket key uploadID k data size (fst r) = (fst r, Err e))
     /\ fst (AbortMultipartUpload s bucket key uploadID (fst r)) = fst r)
  /\ (os.Stat fs U = Err os.ENOENT -> r = (fs, None))
  /\ (forall P0 d t,
        os.Stat fs P0 = Ok (File d t) -> P0 `prefix_of` U -> P0 <> U ->
        exists e, r = (fs, Some e) /\ (os.has_NUL U = false -> e = os.ENOTDIR))
  /\ (forall e, snd r = Some e -> fst r = fs).
Proof.
  intros U r HU. subst r. unfold AbortMultipartUpload. fold U.
  split; [|split; [|split]].
  - intros n Hst.
    assert (Hnone : forall q, U `prefix_of` q -> files (fst (os.RemoveAll fs U)) !! q = None).
    { intros q Hq. apply (RemoveAll_lookup_in _ _ _ n Hst Hq). }
    assert (Hgone : exists e, os.Stat (fst (os.RemoveAll fs U)) U = Err e).
    { apply Stat_none. rewrite node_at_lookup by exact HU. apply Hnone. reflexivity. }
    split; [rewrite (RemoveAll_ok _ _ _ Hst); reflexivity|].
    split; [exact Hnone|]. split; [|split].
    + intros q Hq. apply RemoveAll_lookup_out, Hq.
    + intros k data size. apply UploadPart_no_session. fold U.
      destruct Hgone as [e ->]. discriminate.
    + destruct (RemoveAll_state (fst (os.RemoveAll fs U)) U) as [E | (n' & E & _)];
        [exact E|].
      destruct Hgone as [e He]. rewrite He in E. discriminate E.
  - intros Hst. unfold os.RemoveAll. unfold os.Stat in Hst.
    destruct (os.has_NUL U); [discriminate Hst|]. rewrite Hst. reflexivity.
  - intros P0 d t Hfile Hpre Hne.
    pose proof (Stat_through_file fs P0 U d t Hfile Hpre Hne) as Hst.
    unfold os.RemoveAll. destruct (os.has_NUL U) eqn:Hnul.
    + destruct (os.Stat fs (filepath.Dir U)) as [n|e] eqn:E.
      * eexists. split; [reflexivity | discriminate].
      * unfold filepath.Dir in E.
        assert (Hpre' : P0 `prefix_of` removelast U) by (apply prefix_removelast; assumption).
        destruct (decide (P0 = removelast U)) as [E0|Hne'].
        { rewrite <- E0, Hfile in E. discriminate E. }
        rewrite (Stat_through_file fs P0 (removelast U) d t Hfile Hpre' Hne') in E.
        injection E as <-.
        destruct (os.has_NUL (removelast U)); (eexists; split; [reflexivity | discriminate]).
    + rewrite Stat_resolve in Hst by exact Hnul. rewrite Hst.
      eexists. split; [reflexivity | reflexivity].
  - intros e He.
    destruct (RemoveAll_state fs U) as [E | (n & _ & E)]; [exact E|].
    rewrite E in He. discriminate He.
Qed.

(** The staged session is aborted; and a session of the bucket in which
    [.uploads] is an object. *)
Lemma AbortMultipartUpload_removes_session_witness :
  fst (AbortMultipartUpload example_store "b" "k" "1700000000000000000"
         (fst (AbortMultipartUpload example_store "b" "k" "1700000000000000000"
                 staged_fs)))
  = fst (AbortMultipartUpload example_store "b" "k" "1700000000000000000" staged_fs)
  /\ AbortMultipartUpload example_store "b" "k" "1" (put ".uploads" "x" bucket_fs)
     = (put ".uploads" "x" bucket_fs, Some os.ENOTDIR).
Proof.
  split.
  - destruct (AbortMultipartUpload_removes_session example_store "b" "k"
                "1700000000000000000" staged_fs) as (H & _).
    + vm_compute. discriminate.
    + destruct (H Dir) as (_ & _ & _ & _ & H5); [vm_compute; reflexivity | exact H5].
  - destruct (AbortMultipartUpload_removes_session example_store "b" "k" "1"
                (put ".uploads" "x" bucket_fs)) as (_ & _ & H & _).
    + vm_compute. discriminate.
    + destruct (H ["data"; "b"; ".uploads"] (bytes_of_string "x") (clock bucket_fs))
        as (e & -> & He).
      * vm_compute. reflexivity.
      * exists ["1"]. vm_compute. reflexivity.
      * vm_compute. discriminate.
      * rewrite He by (vm_compute; reflexivity). reflexivity.
Defined.

(** * The ETags of a completion request *)

Lemma concatenate_numbers (uploadDir objectPath : path) (parts parts' : list CompletePart) :
  map CPartNumber parts = map CPartNumber parts' ->
  forall total fs,
    concatenate uploadDir objectPath parts total fs
    = concatenate uploadDir objectPath parts' total fs.
Proof.
  revert parts'. induction parts as [|p parts IH]; intros [|p' parts'] H total fs;
    try discriminate H; [reflexivity|].
  cbn [map] in H. injection H as Hn H. cbn [concatenate]. rewrite Hn.
  destruct (os.ReadFile fs _); [|reflexivity]. apply IH, H.
Qed.

(** X26: [CompleteMultipartUpload] looks only at the part numbers of the
    request: the ETags given with them are never compared with the parts
    staged, and two requests with the same numbers in the same order have
    the same outcome. *)
Theorem CompleteMultipartUpload_ignores_etags
    (s : FileSystemStorage) (bucket key uploadID : string)
    (parts parts' : list CompletePart) (fs : FS) :
  map CPartNumber parts = map CPartNumber parts' ->
  CompleteMultipartUpload s bucket key uploadID parts fs
  = CompleteMultipartUpload s bucket key uploadID parts' fs.
Proof.
  intros H. unfold CompleteMultipartUpload.
  destruct (os.MkdirAll fs _) as [fs1 [e|]]; [reflexivity|].
  destruct (os.Create fs1 _) as [fs2|e]; [|reflexivity].
  rewrite (concatenate_numbers _ _ parts parts' H). reflexivity.
Qed.

(** The two parts of the staged session, with ETags that are not theirs. *)
Lemma CompleteMultipartUpload_ignores_etags_witness :
  CompleteMultipartUpload example_store "b" "k" "1700000000000000000"
    [part 1; part 2] staged_fs
  = CompleteMultipartUpload example_store "b" "k" "1700000000000000000"
      [{| CPartNumber := 1; CPartETag := "x" |}; {| CPartNumber := 2; CPartETag := "y" |}]
      staged_fs.
Proof.
  apply CompleteMultipartUpload_ignores_etags. reflexivity.
Defined.
